(** * Caching layer for user storage: LRU cache with TTL, and the cache-aside
      wrapper (module_2/val_system/cache_layer.py)

    Modelling conventions.
    - Python [str] is a Rocq [string], read as the sequence of the code points
      of its characters.  The model covers the strings whose code points are
      below 256 (ASCII and Latin-1); on these [str.lower] acts character by
      character and stays below 256.
    - Python [int] is [Z] (capacity, TTL and the three counters).
    - The hit rate of [get_stats] is computed as the code computes it, in
      binary64: the floats are [spec_float] values of the Standard Library
      with [prec = 53] and [emax = 1024], whose operations round to nearest,
      ties to even.
    - [time.time()] returns a float; clock readings are idealised as exact
      rationals [Q] and every reading is an explicit argument of the operation
      that takes it.  No ordering between readings is assumed.
    - [float('inf')] is the constructor [Never] of [Expiry].
    - [OrderedDict] is an association list, head = least recently used,
      last = most recently used.
    - The lock is not modelled: every operation is one atomic state transformer. *)

From Stdlib Require Import List String Ascii Bool Arith ZArith QArith Qround Lia Lqa.
From Stdlib Require Import SpecFloat Qpower.
Import ListNotations.

Local Open Scope string_scope.
Local Open Scope list_scope.
Local Open Scope Z_scope.

(** ** Python string primitives used by the cache layer *)

Module PyStr.

(** [str.lower] on one character with code point [n < 256].  The upper-case
    letters are 'A'..'Z' (65..90) and U+00C0..U+00DE (192..222) without the
    multiplication sign U+00D7 (215); each is 32 below its lower-case letter.
    Every other character, the sharp s (223) and the micro sign (181)
    included, is its own lower case. *)
Definition lower_char (a : ascii) : ascii :=
  let n := nat_of_ascii a in
  if ((65 <=? n) && (n <=? 90)
      || (192 <=? n) && (n <=? 222) && negb (n =? 215))%nat
  then ascii_of_nat (n + 32) else a.

Fixpoint lower (s : string) : string :=
  match s with
  | EmptyString => EmptyString
  | String a s' => String (lower_char a) (lower s')
  end.

(** [c in s] for a one-character [c]. *)
Fixpoint contains_char (c : ascii) (s : string) : bool :=
  match s with
  | EmptyString => false
  | String a s' => Ascii.eqb a c || contains_char c s'
  end.

(** [s.startswith(pre)] *)
Fixpoint startswith (s pre : string) {struct pre} : bool :=
  match pre with
  | EmptyString => true
  | String a pre' =>
      match s with
      | EmptyString => false
      | String b s' => Ascii.eqb b a && startswith s' pre'
      end
  end.

(** [s.endswith(suf)]: [s] is [suf], or [s] without its first character
    ends with [suf]. *)
Fixpoint endswith (s suf : string) : bool :=
  String.eqb s suf ||
  match s with
  | EmptyString => false
  | String _ s' => endswith s' suf
  end.

(** [s[:-1]]: everything but the last character (empty stays empty). *)
Fixpoint drop_last (s : string) : string :=
  match s with
  | EmptyString => EmptyString
  | String a EmptyString => EmptyString
  | String a s' => String a (drop_last s')
  end.

(** [s[1:]]: everything but the first character (empty stays empty). *)
Definition drop_first (s : string) : string :=
  match s with
  | EmptyString => EmptyString
  | String _ s' => s'
  end.

(** [s.split(c, 1)] when [c] occurs in [s]: the text before the first [c]
    and the text after it.  When [c] does not occur the second part is
    empty (Python would return a one-element list; the caller below only
    splits patterns that contain [c]). *)
Fixpoint split_once (c : ascii) (s : string) : string * string :=
  match s with
  | EmptyString => (EmptyString, EmptyString)
  | String a s' =>
      if Ascii.eqb a c then (EmptyString, s')
      else let (l, r) := split_once c s' in (String a l, r)
  end.

End PyStr.

(** ** [collections.OrderedDict] with string keys *)

Module OrderedDict.
Section Ops.
Context {E : Type}.

Definition t := list (string * E).

Definition keys (d : t) : list string := map fst d.

(** [key in d] *)
Fixpoint contains (key : string) (d : t) : bool :=
  match d with
  | [] => false
  | (k, _) :: d' => String.eqb k key || contains key d'
  end.

(** [d[key]]; [None] stands for [KeyError]. *)
Fixpoint getitem (key : string) (d : t) : option E :=
  match d with
  | [] => None
  | (k, e) :: d' => if String.eqb k key then Some e else getitem key d'
  end.

(** [del d[key]] / [d.pop(key, None)]: the binding of [key] is removed and
    the order of the others is kept.  On an absent key [del] raises
    [KeyError]; every call site guards it with [key in d], so the model
    returns the dict unchanged there, as [pop(key, None)] does. *)
Fixpoint delitem (key : string) (d : t) : t :=
  match d with
  | [] => []
  | (k, e) :: d' => if String.eqb k key then d' else (k, e) :: delitem key d'
  end.

Definition pop := delitem.

(** [d[key] = e]: an existing binding is overwritten in place, a new key
    is appended at the end. *)
Fixpoint setitem (key : string) (e : E) (d : t) : t :=
  match d with
  | [] => [(key, e)]
  | (k, e') :: d' =>
      if String.eqb k key then (k, e) :: d' else (k, e') :: setitem key e d'
  end.

(** [d.move_to_end(key)] for a key that is present. *)
Definition move_to_end (key : string) (d : t) : t :=
  match getitem key d with
  | Some e => delitem key d ++ [(key, e)]
  | None => d
  end.

(** [d.popitem(last=False)] on a non-empty dict: drops the oldest binding. *)
Definition popitem_first (d : t) : t := tl d.

(** Every key is bound once. *)
Definition wf (d : t) : Prop := NoDup (keys d).
End Ops.
Arguments t : clear implicits.
End OrderedDict.

(** ** [CacheEntry] *)

Inductive Expiry : Type :=
| At (instant : Q)
| Never.

Record CacheEntry (V : Type) : Type := mkCacheEntry {
  value : V;
  expiry : Expiry
}.
Arguments mkCacheEntry {V} _ _.
Arguments value {V} _.
Arguments expiry {V} _.

(** [CacheEntry.__init__(value, ttl)] with [now] the reading of [time.time()]. *)
Definition CacheEntry_init {V : Type} (v : V) (ttl : Z) (now : Q) : CacheEntry V :=
  {| value := v;
     expiry := if ttl >? 0 then At (now + inject_Z ttl)%Q else Never |}.

(** [CacheEntry.is_expired()]: [time.time() > self.expiry]. *)
Definition is_expired {V : Type} (e : CacheEntry V) (now : Q) : bool :=
  match expiry e with
  | At t => negb (Qle_bool now t)
  | Never => false
  end.

(** ** Python numbers: [int] and binary64 [float] *)

(** The integer nearest to a rational, ties to the even integer. *)
Definition round_half_even (x : Q) : Z :=
  let f := Qfloor x in
  let r := (x - inject_Z f)%Q in
  match (r ?= 1 # 2)%Q with
  | Lt => f
  | Gt => f + 1
  | Eq => if Z.even f then f else f + 1
  end.

Module Binary64.

Definition prec : Z := 53.
Definition emax : Z := 1024.

(** A Python [int] as an exact operand of a correctly rounded operation. *)
Definition of_int (a : Z) : spec_float :=
  match a with
  | Z0 => S754_zero false
  | Zpos p => S754_finite false p 0
  | Zneg p => S754_finite true p 0
  end.

(** [float(a)]: the binary64 nearest to the int [a]. *)
Definition of_Z (a : Z) : spec_float := binary_normalize prec emax a 0 false.

(** [a / b] on two ints with [b <> 0]: the correctly rounded quotient.  Where
    the quotient is too large for a float Python raises [OverflowError]; that
    needs [|a| > 1.7e308 * |b|] and shows here as an infinity. *)
Definition int_truediv (a b : Z) : spec_float :=
  SFdiv prec emax (of_int a) (of_int b).

(** [x * k] for a float [x] and an int [k]: [k] is converted, then the
    product is rounded. *)
Definition mul_int (x : spec_float) (k : Z) : spec_float :=
  SFmul prec emax x (of_Z k).

(** The exact value of a finite float. *)
Definition to_Q (x : spec_float) : Q :=
  match x with
  | S754_finite s m e =>
      (inject_Z (if s then Zneg m else Zpos m) * Qpower 2 e)%Q
  | _ => 0%Q
  end.

(** The binary64 nearest to [n / 100]; a zero keeps the sign [s] of the
    number that was rounded. *)
Definition nearest_hundredths (s : bool) (n : Z) : spec_float :=
  match n with
  | Z0 => S754_zero s
  | _ => SFdiv prec emax (of_int n) (of_int 100)
  end.

(** [round(x, 2)] on a float: the exact value of [x] is rounded to a whole
    number of hundredths, ties to even, and that decimal is converted back to
    the nearest float; zeros, infinities and NaN round to themselves. *)
Definition round2 (x : spec_float) : spec_float :=
  match x with
  | S754_finite s _ _ => nearest_hundredths s (round_half_even (to_Q x * 100))
  | _ => x
  end.

(** What "[r] is [x] rounded to 2 decimal places" means for floats: [r] is the
    float nearest to [n / 100] for an integer [n] at most one half away from
    100 times the exact value of [x]. *)
Definition is_rounded_to_2_places (x r : spec_float) : Prop :=
  match x with
  | S754_finite s _ _ =>
      exists n : Z,
        (to_Q x * 100 - (1 # 2) <= inject_Z n <= to_Q x * 100 + (1 # 2))%Q /\
        r = nearest_hundredths s n
  | _ => r = x
  end.

(** [math.isfinite(x)] *)
Definition is_finite (x : spec_float) : bool :=
  match x with
  | S754_zero _ | S754_finite _ _ _ => true
  | _ => false
  end.

(** [r] is [+0.0], or a positive float [m * 2^e] with [e <= 0] whose value
    is at most the integer [B]. *)
Definition at_most (B : Z) (r : spec_float) : Prop :=
  r = S754_zero false \/
  exists m e, r = S754_finite false m e /\ e <= 0 /\ Zpos m <= B * 2 ^ (- e).

(** What [k] right shifts of the rounding keep of a mantissa that started at
    most [T]: strictly below [T] once a non-zero bit has been shifted out. *)
Definition shr_inv (T k : Z) (mrs : shr_record) : Prop :=
  0 <= shr_m mrs /\ shr_m mrs * 2 ^ k <= T /\
  (orb (shr_r mrs) (shr_s mrs) = true -> shr_m mrs * 2 ^ k < T).

End Binary64.

(** A number as [get_stats] reports it: the int [0] or a float. *)
Inductive PyNumber : Type :=
| PyInt (z : Z)
| PyFloat (f : spec_float).

(** [round(x, 2)]: an int is returned as it is. *)
Definition py_round2 (x : PyNumber) : PyNumber :=
  match x with
  | PyInt z => PyInt z
  | PyFloat f => PyFloat (Binary64.round2 f)
  end.

(** ** Calls that may raise *)

Inductive Outcome (A : Type) : Type :=
| Returns (a : A)
| Raises (exn : string).
Arguments Returns {A} _.
Arguments Raises {A} _.

(** ** [LRUCache] *)

Module LRUCache.

Record Stats : Type := mkStats {
  stats_size : Z;
  stats_max_size : Z;
  stats_hits : Z;
  stats_misses : Z;
  stats_evictions : Z;
  stats_hit_rate : PyNumber
}.

Section Ops.
Context {V : Type}.

Record t : Type := mk {
  max_size : Z;
  default_ttl : Z;
  cache : OrderedDict.t (CacheEntry V);
  hits : Z;
  misses : Z;
  evictions : Z
}.

(** [LRUCache.__init__(max_size, default_ttl)]: the arguments are stored
    as given. *)
Definition init (max_size default_ttl : Z) : t :=
  mk max_size default_ttl [] 0 0 0.

(** The constructor as a call that may raise: it has no [raise] and no
    validation, so it returns for every pair of arguments. *)
Definition construct (max_size default_ttl : Z) : Outcome t :=
  Returns (init max_size default_ttl).

Definition with_cache (c : t) (d : OrderedDict.t (CacheEntry V)) : t :=
  mk (max_size c) (default_ttl c) d (hits c) (misses c) (evictions c).

Definition size (c : t) : Z := Z.of_nat (List.length (cache c)).

(** [get(key)].  The lookup returning [None] is the [key not in self.cache]
    branch; [now] is the reading taken by [entry.is_expired()], which happens
    only when the key is present. *)
Definition get (c : t) (key : string) (now : Q) : option V * t :=
  match OrderedDict.getitem key (cache c) with
  | None =>
      (None, mk (max_size c) (default_ttl c) (cache c)
                (hits c) (misses c + 1) (evictions c))
  | Some entry =>
      if is_expired entry now then
        (None, mk (max_size c) (default_ttl c)
                  (OrderedDict.delitem key (cache c))
                  (hits c) (misses c + 1) (evictions c))
      else
        (Some (value entry),
         mk (max_size c) (default_ttl c)
            (OrderedDict.move_to_end key (cache c))
            (hits c + 1) (misses c) (evictions c))
  end.

(** [if ttl is None: ttl = self.default_ttl] *)
Definition effective_ttl (c : t) (ttl : option Z) : Z :=
  match ttl with None => default_ttl c | Some x => x end.

(** The dict after the upsert of [set], before capacity is enforced. *)
Definition upsert (c : t) (key : string) (v : V) (ttl : option Z) (now : Q)
  : OrderedDict.t (CacheEntry V) :=
  let ttl := effective_ttl c ttl in
  let d := if OrderedDict.contains key (cache c)
           then OrderedDict.delitem key (cache c) else cache c in
  OrderedDict.setitem key (CacheEntry_init v ttl now) d.

(** [set(key, value, ttl=None)] *)
Definition set (c : t) (key : string) (v : V) (ttl : option Z) (now : Q) : t :=
  let d := upsert c key v ttl now in
  if Z.of_nat (List.length d) >? max_size c then
    mk (max_size c) (default_ttl c) (OrderedDict.popitem_first d)
       (hits c) (misses c) (evictions c + 1)
  else with_cache c d.

(** [delete(key)] *)
Definition delete (c : t) (key : string) : bool * t :=
  if OrderedDict.contains key (cache c)
  then (true, with_cache c (OrderedDict.delitem key (cache c)))
  else (false, c).

(** [clear()] *)
Definition clear (c : t) : t := mk (max_size c) (default_ttl c) [] 0 0 0.

(** The [hit_rate] local of [get_stats]:
    [(self.hits / total_requests * 100) if total_requests > 0 else 0],
    an int/int true division and a float*int product in binary64, or the
    int [0]. *)
Definition hit_rate (c : t) : PyNumber :=
  let total_requests := hits c + misses c in
  if total_requests >? 0
  then PyFloat (Binary64.mul_int (Binary64.int_truediv (hits c) total_requests) 100)
  else PyInt 0.

(** [get_stats()] *)

Definition get_stats (c : t) : Stats :=
  {| stats_size := size c;
     stats_max_size := max_size c;
     stats_hits := hits c;
     stats_misses := misses c;
     stats_evictions := evictions c;
     stats_hit_rate := py_round2 (hit_rate c) |}.

(** The comprehension of [cleanup_expired]: [clock i] is the reading taken
    while the [i]-th entry of the scan is tested. *)
Fixpoint expired_keys (d : OrderedDict.t (CacheEntry V)) (clock : nat -> Q)
         (i : nat) : list string :=
  match d with
  | [] => []
  | (k, e) :: d' =>
      if is_expired e (clock i)
      then k :: expired_keys d' clock (S i)
      else expired_keys d' clock (S i)
  end.

(** [cleanup_expired()] *)
Definition cleanup_expired (c : t) (clock : nat -> Q) : Z * t :=
  let ks := expired_keys (cache c) clock 0 in
  (Z.of_nat (List.length ks),
   with_cache c (fold_left (fun d k => OrderedDict.delitem k d) ks (cache c))).

(** A public mutating operation together with the clock readings it takes. *)
Inductive Op : Type :=
| OpGet (key : string) (now : Q)
| OpSet (key : string) (v : V) (ttl : option Z) (now : Q)
| OpDelete (key : string)
| OpClear
| OpCleanupExpired (clock : nat -> Q).

Definition step (c : t) (op : Op) : t :=
  match op with
  | OpGet key now => snd (get c key now)
  | OpSet key v ttl now => set c key v ttl now
  | OpDelete key => snd (delete c key)
  | OpClear => clear c
  | OpCleanupExpired clock => snd (cleanup_expired c clock)
  end.

Definition run (c : t) (ops : list Op) : t := fold_left step ops c.

(** Operations through which an entry can leave the cache only by expiring. *)
Definition reads_or_sweeps (op : Op) : bool :=
  match op with
  | OpGet _ _ | OpCleanupExpired _ => true
  | _ => false
  end.

(** Keys are unique, the capacity is positive and it is respected. *)
Definition invariant (c : t) : Prop :=
  OrderedDict.wf (cache c) /\ 1 <= max_size c /\ size c <= max_size c.

(** Classification of operations, for counting them. *)
Definition is_get (op : Op) : bool :=
  match op with OpGet _ _ => true | _ => false end.

Definition is_set (op : Op) : bool :=
  match op with OpSet _ _ _ _ => true | _ => false end.

Definition is_clear (op : Op) : bool :=
  match op with OpClear => true | _ => false end.

(** One [set] call per item, in list order. *)
Definition OpSet_of (item : string * V * option Z * Q) : Op :=
  let '(key, v, ttl, now) := item in OpSet key v ttl now.

End Ops.
Arguments t : clear implicits.
Arguments Op : clear implicits.
End LRUCache.


(** ** The backing store, as far as [save_user] of the wrapper uses it *)

Record User : Type := mkUser {
  email : string;
  user_id : string;
  fields : list (string * string)
}.

(** What the wrapper caches: a user record or the duplicate flag. *)
Inductive CacheValue : Type :=
| VUser (u : User)
| VBool (b : bool).

(** The duck-typed [user_store] argument of [CachedUserStore]. *)
Class UserStore (S : Type) : Type := {
  store_save_user : S -> User -> bool * S
}.

(** The other methods of the duck-typed store.  Lookups do not change the
    store; [delete_user] may raise. *)
Class UserStoreQueries (S : Type) : Type := {
  store_check_duplicate : S -> string -> bool;
  store_get_user_by_email : S -> string -> option User;
  store_get_user_by_id : S -> string -> option User;
  store_get_all_users : S -> list User;
  store_delete_user : S -> string -> Outcome bool * S;
  store_clear_all : S -> S;
  store_get_user_count : S -> Z
}.

Module InMemoryUserStore.

Record t : Type := mk {
  users : OrderedDict.t User;
  users_by_id : OrderedDict.t User
}.

(** The body of the [try] of [InMemoryUserStore.save_user] on a record that
    has its keys 'email' and 'user_id': no statement of it raises, and [True]
    is returned. *)
Definition save_user (s : t) (user_data : User) : bool * t :=
  let email := PyStr.lower (email user_data) in
  let user_id := user_id user_data in
  (true, mk (OrderedDict.setitem email user_data (users s))
            (OrderedDict.setitem user_id user_data (users_by_id s))).

#[global] Instance store : UserStore t := {| store_save_user := save_user |}.

(** A record as a caller passes it: a dict from field names to strings, which
    nothing forces to have the keys 'email' and 'user_id'. *)
Definition UserData : Type := OrderedDict.t string.

(** The two subscripts at the head of the [try], in the order of the code:
    [user_data['email']], then [user_data['user_id']].  Each raises
    [KeyError] on a missing key.  The other bindings are the other fields of
    the record. *)
Definition read_keys (user_data : UserData) : Outcome User :=
  match OrderedDict.getitem "email" user_data with
  | None => Raises "KeyError"
  | Some email =>
      match OrderedDict.getitem "user_id" user_data with
      | None => Raises "KeyError"
      | Some user_id =>
          Returns (mkUser email user_id
                     (OrderedDict.delitem "email"
                        (OrderedDict.delitem "user_id" user_data)))
      end
  end.

(** [InMemoryUserStore.save_user(user_data)] with its [try]/[except]: an
    exception of the body is caught, reported on the console and turned into
    [False].  The subscripts come before the two assignments, so nothing has
    been stored when they raise. *)
Definition save_user_dict (s : t) (user_data : UserData) : bool * t :=
  match read_keys user_data with
  | Returns u => save_user s u
  | Raises _ => (false, s)
  end.

(** [InMemoryUserStore.__init__] *)
Definition init : t := mk [] [].

(** [check_duplicate(email)]: [email.lower() in self.users] *)
Definition check_duplicate (s : t) (email : string) : bool :=
  OrderedDict.contains (PyStr.lower email) (users s).

(** [get_user_by_email(email)]: [self.users.get(email.lower())] *)
Definition get_user_by_email (s : t) (email : string) : option User :=
  OrderedDict.getitem (PyStr.lower email) (users s).

(** [get_user_by_id(user_id)]: [self.users_by_id.get(user_id)] *)
Definition get_user_by_id (s : t) (user_id : string) : option User :=
  OrderedDict.getitem user_id (users_by_id s).

(** [get_all_users()]: [list(self.users.values())] *)
Definition get_all_users (s : t) : list User := map snd (users s).

(** [delete_user(email)].  A stored record is a non-empty dict, hence truthy.
    [del self.users_by_id[user_id]] raises [KeyError] when the id is not
    bound; the method has no handler, and by then the email binding is
    already deleted. *)
Definition delete_user (s : t) (email : string) : Outcome bool * t :=
  let email := PyStr.lower email in
  match OrderedDict.getitem email (users s) with
  | Some user_data =>
      let user_id := user_id user_data in
      let users' := OrderedDict.delitem email (users s) in
      if OrderedDict.contains user_id (users_by_id s)
      then (Returns true, mk users' (OrderedDict.delitem user_id (users_by_id s)))
      else (Raises "KeyError", mk users' (users_by_id s))
  | None => (Returns false, s)
  end.

(** [clear_all()] *)
Definition clear_all (s : t) : t := mk [] [].

(** [get_user_count()]: [len(self.users)] *)
Definition get_user_count (s : t) : Z := Z.of_nat (List.length (users s)).

#[global] Instance queries : UserStoreQueries t := {|
  store_check_duplicate := check_duplicate;
  store_get_user_by_email := get_user_by_email;
  store_get_user_by_id := get_user_by_id;
  store_get_all_users := get_all_users;
  store_delete_user := delete_user;
  store_clear_all := clear_all;
  store_get_user_count := get_user_count
|}.

End InMemoryUserStore.

Module FileBasedUserStore.

(** The JSON file, and whether opening it for writing succeeds. *)
Record t : Type := mk {
  users : OrderedDict.t User;
  users_by_id : OrderedDict.t User;
  writable : bool
}.

(** [FileBasedUserStore.save_user]: [_save_data] returns [False] when the
    write raises. *)
Definition save_user (s : t) (user_data : User) : bool * t :=
  let email := PyStr.lower (email user_data) in
  let user_id := user_id user_data in
  if writable s then
    (true, mk (OrderedDict.setitem email user_data (users s))
              (OrderedDict.setitem user_id user_data (users_by_id s))
              (writable s))
  else (false, s).

#[global] Instance store : UserStore t := {| store_save_user := save_user |}.

End FileBasedUserStore.

(** ** [CachedUserStore] *)

Module CachedUserStore.
Section Ops.
Context {S : Type} {store : UserStore S}.

Record t : Type := mk {
  user_store : S;
  cache : LRUCache.t CacheValue
}.

Definition init (user_store : S) (cache_size ttl : Z) : t :=
  mk user_store (LRUCache.init cache_size ttl).

Definition _email_key (email : string) : string := "email:" ++ PyStr.lower email.

Definition _id_key (user_id : string) : string := "id:" ++ user_id.

Definition _duplicate_key (email : string) : string := "dup:" ++ PyStr.lower email.

(** [_invalidate_user_cache(email, user_id)] *)
Definition _invalidate_user_cache (s : t) (email user_id : string) : t :=
  let keys_to_invalidate :=
    [_email_key email; _id_key user_id; _duplicate_key email] in
  mk (user_store s)
     (LRUCache.with_cache (cache s)
        (fold_left (fun d key => OrderedDict.pop key d) keys_to_invalidate
                   (LRUCache.cache (cache s)))).

(** [save_user(user_data)]; [t1 t2 t3] are the clock readings of the three
    [set] calls. *)
Definition save_user (s : t) (user_data : User) (t1 t2 t3 : Q) : bool * t :=
  let email := PyStr.lower (email user_data) in
  let user_id := user_id user_data in
  let (success, st) := store_save_user (user_store s) user_data in
  let s0 := mk st (cache s) in
  if success then
    let s1 := _invalidate_user_cache s0 email user_id in
    let c1 := LRUCache.set (cache s1) (_email_key email) (VUser user_data) None t1 in
    let c2 := LRUCache.set c1 (_id_key user_id) (VUser user_data) None t2 in
    let c3 := LRUCache.set c2 (_duplicate_key email) (VBool true) None t3 in
    (success, mk st c3)
  else (success, s0).

(** [_matches_pattern(key, pattern)] *)
Definition _matches_pattern (key pattern : string) : bool :=
  if negb (PyStr.contains_char "*" pattern) then String.eqb key pattern
  else if PyStr.endswith pattern "*" then
    PyStr.startswith key (PyStr.drop_last pattern)
  else if PyStr.startswith pattern "*" then
    PyStr.endswith key (PyStr.drop_first pattern)
  else
    let parts := PyStr.split_once "*" pattern in
    PyStr.startswith key (fst parts) && PyStr.endswith key (snd parts).

(** [invalidate_pattern(pattern)] *)
Definition invalidate_pattern (s : t) (pattern : string) : t :=
  let keys_to_delete :=
    filter (fun key => _matches_pattern key pattern)
           (OrderedDict.keys (LRUCache.cache (cache s))) in
  mk (user_store s)
     (LRUCache.with_cache (cache s)
        (fold_left (fun d key => OrderedDict.delitem key d) keys_to_delete
                   (LRUCache.cache (cache s)))).

Context {queries : UserStoreQueries S}.

(** [check_duplicate(email)]; [t_get] is read by the lookup when the key is
    present, [t_set] by the [set] after a miss.  What is returned on a hit is
    whatever is cached under the key. *)
Definition check_duplicate (s : t) (email : string) (t_get t_set : Q)
  : CacheValue * t :=
  let cache_key := _duplicate_key email in
  let (cached, c1) := LRUCache.get (cache s) cache_key t_get in
  match cached with
  | Some v => (v, mk (user_store s) c1)
  | None =>
      let result := store_check_duplicate (user_store s) email in
      (VBool result,
       mk (user_store s) (LRUCache.set c1 cache_key (VBool result) None t_set))
  end.

(** [get_user_by_email(email)]; a record returned by the store is a non-empty
    dict, hence truthy. *)
Definition get_user_by_email (s : t) (email : string) (t_get t1 t2 : Q)
  : option CacheValue * t :=
  let cache_key := _email_key email in
  let (cached, c1) := LRUCache.get (cache s) cache_key t_get in
  match cached with
  | Some v => (Some v, mk (user_store s) c1)
  | None =>
      match store_get_user_by_email (user_store s) email with
      | Some user_data =>
          let c2 := LRUCache.set c1 cache_key (VUser user_data) None t1 in
          let c3 := LRUCache.set c2 (_id_key (user_id user_data))
                                 (VUser user_data) None t2 in
          (Some (VUser user_data), mk (user_store s) c3)
      | None => (None, mk (user_store s) c1)
      end
  end.

(** [get_user_by_id(user_id)] *)
Definition get_user_by_id (s : t) (uid : string) (t_get t1 t2 : Q)
  : option CacheValue * t :=
  let cache_key := _id_key uid in
  let (cached, c1) := LRUCache.get (cache s) cache_key t_get in
  match cached with
  | Some v => (Some v, mk (user_store s) c1)
  | None =>
      match store_get_user_by_id (user_store s) uid with
      | Some user_data =>
          let c2 := LRUCache.set c1 cache_key (VUser user_data) None t1 in
          let c3 := LRUCache.set c2 (_email_key (email user_data))
                                 (VUser user_data) None t2 in
          (Some (VUser user_data), mk (user_store s) c3)
      | None => (None, mk (user_store s) c1)
      end
  end.

(** [get_all_users()] *)
Definition get_all_users (s : t) : list User := store_get_all_users (user_store s).

(** [delete_user(email)]; an exception of the store propagates before the
    cache is touched. *)
Definition delete_user (s : t) (email : string) : Outcome bool * t :=
  let user_data := store_get_user_by_email (user_store s) email in
  let (success, st) := store_delete_user (user_store s) email in
  match success with
  | Raises exn => (Raises exn, mk st (cache s))
  | Returns ok =>
      match ok, user_data with
      | true, Some u =>
          (Returns ok, _invalidate_user_cache (mk st (cache s)) email (user_id u))
      | _, _ => (Returns ok, mk st (cache s))
      end
  end.

(** The first loop of [warm_cache]; [clock i] is the [i]-th reading taken,
    and the number of readings taken so far is threaded through. *)
Fixpoint warm_emails (st : S) (c : LRUCache.t CacheValue) (emails : list string)
         (clock : nat -> Q) (i : nat) : LRUCache.t CacheValue * nat :=
  match emails with
  | [] => (c, i)
  | email :: rest =>
      match store_get_user_by_email st email with
      | Some user_data =>
          let c1 := LRUCache.set c (_email_key email) (VUser user_data) None (clock i) in
          let c2 := LRUCache.set c1 (_id_key (user_id user_data))
                                 (VUser user_data) None (clock (Datatypes.S i)) in
          warm_emails st c2 rest clock (Datatypes.S (Datatypes.S i))
      | None => warm_emails st c rest clock i
      end
  end.

(** The second loop of [warm_cache]. *)
Fixpoint warm_ids (st : S) (c : LRUCache.t CacheValue) (user_ids : list string)
         (clock : nat -> Q) (i : nat) : LRUCache.t CacheValue * nat :=
  match user_ids with
  | [] => (c, i)
  | uid :: rest =>
      match store_get_user_by_id st uid with
      | Some user_data =>
          let c1 := LRUCache.set c (_id_key uid) (VUser user_data) None (clock i) in
          let c2 := LRUCache.set c1 (_email_key (email user_data))
                                 (VUser user_data) None (clock (Datatypes.S i)) in
          warm_ids st c2 rest clock (Datatypes.S (Datatypes.S i))
      | None => warm_ids st c rest clock i
      end
  end.

(** [warm_cache(emails=None, user_ids=None)]: [None] and the empty list are
    both falsy and skip their loop. *)
Definition warm_cache (s : t) (emails user_ids : option (list string))
           (clock : nat -> Q) : t :=
  let (c1, i) := warm_emails (user_store s) (cache s)
                             (match emails with Some l => l | None => [] end) clock 0 in
  let (c2, _) := warm_ids (user_store s) c1
                          (match user_ids with Some l => l | None => [] end) clock i in
  mk (user_store s) c2.

(** [clear_all()] *)
Definition clear_all (s : t) : t :=
  mk (store_clear_all (user_store s)) (LRUCache.clear (cache s)).

(** [get_user_count()] *)
Definition get_user_count (s : t) : Z := store_get_user_count (user_store s).

(** [get_cache_stats()] *)
Definition get_cache_stats (s : t) : LRUCache.Stats := LRUCache.get_stats (cache s).

(** [cleanup_expired_cache()] *)
Definition cleanup_expired_cache (s : t) (clock : nat -> Q) : Z * t :=
  let (n, c) := LRUCache.cleanup_expired (cache s) clock in
  (n, mk (user_store s) c).

End Ops.
Arguments t : clear implicits.
End CachedUserStore.

(** ** Sample data: two records saved through the wrapper over the in-memory store *)

Definition user1 : User :=
  mkUser "User1@Example.com" "id1" [("password_hash", "h"); ("salt", "s")].

Definition user2 : User :=
  mkUser "user2@example.com" "id2" [("password_hash", "h"); ("salt", "s")].

Definition empty_cached_store : CachedUserStore.t InMemoryUserStore.t :=
  CachedUserStore.init (InMemoryUserStore.mk [] []) 1000 300.

Definition two_saved : CachedUserStore.t InMemoryUserStore.t :=
  snd (CachedUserStore.save_user
         (snd (CachedUserStore.save_user empty_cached_store user1 0%Q 0%Q 0%Q))
         user2 1%Q 1%Q 1%Q).

(** [user1] as the dict a caller passes, and the same dict without its id. *)
Definition user1_data : InMemoryUserStore.UserData :=
  [("email", "User1@Example.com"); ("user_id", "id1");
   ("password_hash", "h"); ("salt", "s")].

Definition user1_data_without_id : InMemoryUserStore.UserData :=
  [("email", "User1@Example.com"); ("password_hash", "h"); ("salt", "s")].

(** A wrapper whose cache has no room: [CachedUserStore(store, cache_size=0)]. *)
Definition no_room_cached_store : CachedUserStore.t InMemoryUserStore.t :=
  CachedUserStore.init (InMemoryUserStore.mk [] []) 0 300.

(** A cache that has counted 23 hits and 137 misses. *)
Definition cache_23_of_160 : LRUCache.t nat := LRUCache.mk 3 10 [] 23 137 0.

(** A wrapper over a file store whose file cannot be written, with one
    record already cached. *)
Definition read_only_cached_store : CachedUserStore.t FileBasedUserStore.t :=
  CachedUserStore.mk (FileBasedUserStore.mk [] [] false)
    (LRUCache.set (LRUCache.init 1000 300) "id:id1" (VUser user1) None 0%Q).


(** * Facts about the ordered dictionary *)

Section OrderedDictFacts.
Context {E : Type}.
Implicit Types (d : OrderedDict.t E) (k key : string) (e : E).

Lemma contains_In key d :
  OrderedDict.contains key d = true <-> In key (OrderedDict.keys d).
Proof.
  induction d as [|[k e] d IH]; simpl.
  - split; [discriminate | tauto].
  - rewrite orb_true_iff, String.eqb_eq, IH. tauto.
Qed.

Lemma contains_false_In key d :
  OrderedDict.contains key d = false <-> ~ In key (OrderedDict.keys d).
Proof.
  rewrite <- contains_In. destruct (OrderedDict.contains key d); split; congruence.
Qed.

Lemma contains_getitem key d :
  OrderedDict.contains key d = false <-> OrderedDict.getitem key d = None.
Proof.
  induction d as [|[k e] d IH]; simpl.
  - tauto.
  - destruct (String.eqb k key); simpl; [split; discriminate | exact IH].
Qed.

Lemma getitem_Some_contains key d e :
  OrderedDict.getitem key d = Some e -> OrderedDict.contains key d = true.
Proof.
  intros H. destruct (OrderedDict.contains key d) eqn:C; [reflexivity|].
  apply contains_getitem in C. congruence.
Qed.

Lemma length_delitem_present key d :
  OrderedDict.contains key d = true ->
  S (List.length (OrderedDict.delitem key d)) = List.length d.
Proof.
  induction d as [|[k e] d IH]; simpl; [discriminate|].
  destruct (String.eqb k key); simpl; intros H; [reflexivity|].
  now rewrite IH.
Qed.

Lemma length_delitem_le key d :
  (List.length (OrderedDict.delitem key d) <= List.length d)%nat.
Proof.
  induction d as [|[k e] d IH]; simpl; [lia|].
  destruct (String.eqb k key); simpl; lia.
Qed.

Lemma keys_delitem_incl key d k :
  In k (OrderedDict.keys (OrderedDict.delitem key d)) -> In k (OrderedDict.keys d).
Proof.
  induction d as [|[k' e] d IH]; simpl; [tauto|].
  destruct (String.eqb k' key); simpl; tauto.
Qed.

Lemma wf_delitem key d : OrderedDict.wf d -> OrderedDict.wf (OrderedDict.delitem key d).
Proof.
  unfold OrderedDict.wf.
  induction d as [|[k e] d IH]; simpl; intros H; [exact H|].
  inversion H as [|? ? Hn Hd]; subst.
  destruct (String.eqb k key); simpl; [exact Hd|].
  constructor; [|auto].
  intros Hin. apply Hn. eapply keys_delitem_incl; eauto.
Qed.

Lemma delitem_removes key d :
  OrderedDict.wf d -> OrderedDict.contains key (OrderedDict.delitem key d) = false.
Proof.
  unfold OrderedDict.wf.
  induction d as [|[k e] d IH]; simpl; intros H; [reflexivity|].
  inversion H as [|? ? Hn Hd]; subst.
  destruct (String.eqb k key) eqn:Ek; simpl.
  - apply String.eqb_eq in Ek; subst. now apply contains_false_In.
  - rewrite Ek. simpl. auto.
Qed.

Lemma delitem_absent key d :
  OrderedDict.contains key d = false -> OrderedDict.delitem key d = d.
Proof.
  induction d as [|[k e] d IH]; simpl; [reflexivity|].
  destruct (String.eqb k key); simpl; [discriminate|].
  intros H. now rewrite IH.
Qed.

Lemma getitem_delitem_other key k d :
  k <> key ->
  OrderedDict.getitem k (OrderedDict.delitem key d) = OrderedDict.getitem k d.
Proof.
  intros Hne. induction d as [|[k' e] d IH]; simpl; [reflexivity|].
  destruct (String.eqb k' key) eqn:E1; simpl.
  - apply String.eqb_eq in E1; subst.
    destruct (String.eqb key k) eqn:E2; [|reflexivity].
    apply String.eqb_eq in E2. congruence.
  - now rewrite IH.
Qed.

Lemma setitem_absent key e d :
  OrderedDict.contains key d = false -> OrderedDict.setitem key e d = d ++ [(key, e)].
Proof.
  induction d as [|[k e'] d IH]; simpl; [reflexivity|].
  destruct (String.eqb k key); simpl; [discriminate|].
  intros H. now rewrite IH.
Qed.

Lemma length_setitem_present key e d :
  OrderedDict.contains key d = true ->
  List.length (OrderedDict.setitem key e d) = List.length d.
Proof.
  induction d as [|[k e'] d IH]; simpl; [discriminate|].
  destruct (String.eqb k key); simpl; [reflexivity|].
  intros H. now rewrite IH.
Qed.

Lemma keys_app d1 d2 :
  OrderedDict.keys (d1 ++ d2) = OrderedDict.keys d1 ++ OrderedDict.keys d2.
Proof. apply map_app. Qed.

Lemma wf_snoc key e d :
  OrderedDict.wf d -> OrderedDict.contains key d = false ->
  OrderedDict.wf (d ++ [(key, e)]).
Proof.
  unfold OrderedDict.wf. intros Hd Hc. apply contains_false_In in Hc.
  rewrite keys_app. simpl.
  apply NoDup_app; [exact Hd | repeat constructor; simpl; tauto |].
  intros x Hx [<- | []]. tauto.
Qed.

Lemma wf_tl d : OrderedDict.wf d -> OrderedDict.wf (tl d).
Proof.
  unfold OrderedDict.wf. destruct d as [|[k e] d]; simpl; [auto|].
  now inversion 1.
Qed.

Lemma getitem_snoc_same key e d :
  OrderedDict.contains key d = false ->
  OrderedDict.getitem key (d ++ [(key, e)]) = Some e.
Proof.
  induction d as [|[k e'] d IH]; simpl.
  - now rewrite String.eqb_refl.
  - destruct (String.eqb k key); simpl; [discriminate | exact IH].
Qed.

Lemma getitem_snoc_other key k e d :
  k <> key ->
  OrderedDict.getitem k (d ++ [(key, e)]) = OrderedDict.getitem k d.
Proof.
  intros Hne. induction d as [|[k' e'] d IH]; simpl.
  - destruct (String.eqb key k) eqn:Ek; [|reflexivity].
    apply String.eqb_eq in Ek. congruence.
  - now rewrite IH.
Qed.

Lemma wf_fold_delitem ks d :
  OrderedDict.wf d ->
  OrderedDict.wf (fold_left (fun d k => OrderedDict.delitem k d) ks d).
Proof.
  revert d. induction ks as [|k ks IH]; simpl; intros d H; [exact H|].
  apply IH. now apply wf_delitem.
Qed.

Lemma length_fold_delitem ks d :
  (List.length (fold_left (fun d k => OrderedDict.delitem k d) ks d)
   <= List.length d)%nat.
Proof.
  revert d. induction ks as [|k ks IH]; simpl; intros d; [lia|].
  specialize (IH (OrderedDict.delitem k d)).
  pose proof (length_delitem_le k d). lia.
Qed.

End OrderedDictFacts.


(** * Facts about [LRUCache] *)

Section LRUCacheFacts.
Context {V : Type}.
Implicit Types (c : LRUCache.t V) (key : string) (v : V) (ttl : option Z) (now : Q).

Lemma upsert_absent c key v ttl now :
  OrderedDict.contains key (LRUCache.cache c) = false ->
  LRUCache.upsert c key v ttl now =
  LRUCache.cache c ++ [(key, CacheEntry_init v (LRUCache.effective_ttl c ttl) now)].
Proof.
  intros H. unfold LRUCache.upsert. rewrite H. now apply setitem_absent.
Qed.

Lemma upsert_present c key v ttl now :
  OrderedDict.wf (LRUCache.cache c) ->
  OrderedDict.contains key (LRUCache.cache c) = true ->
  LRUCache.upsert c key v ttl now =
  OrderedDict.delitem key (LRUCache.cache c)
    ++ [(key, CacheEntry_init v (LRUCache.effective_ttl c ttl) now)].
Proof.
  intros Hwf H. unfold LRUCache.upsert. rewrite H.
  apply setitem_absent. now apply delitem_removes.
Qed.

Lemma length_upsert_present c key v ttl now :
  OrderedDict.contains key (LRUCache.cache c) = true ->
  (List.length (LRUCache.upsert c key v ttl now) <= List.length (LRUCache.cache c))%nat.
Proof.
  intros H. unfold LRUCache.upsert. rewrite H.
  pose proof (length_delitem_present _ _ H) as Hl.
  destruct (OrderedDict.contains key (OrderedDict.delitem key (LRUCache.cache c))) eqn:C.
  - rewrite length_setitem_present by exact C. lia.
  - rewrite setitem_absent by exact C. rewrite length_app. simpl. lia.
Qed.

Lemma max_size_set c key v ttl now :
  LRUCache.max_size (LRUCache.set c key v ttl now) = LRUCache.max_size c.
Proof.
  unfold LRUCache.set.
  destruct (Z.of_nat (List.length (LRUCache.upsert c key v ttl now)) >? LRUCache.max_size c);
    reflexivity.
Qed.

(** What one [set] does to a cache that respects its capacity. *)
Lemma set_cases c key v ttl now :
  1 <= LRUCache.max_size c ->
  LRUCache.size c <= LRUCache.max_size c ->
  let d := LRUCache.upsert c key v ttl now in
  let c' := LRUCache.set c key v ttl now in
  (Z.of_nat (List.length d) <= LRUCache.max_size c /\
   LRUCache.cache c' = d /\
   LRUCache.evictions c' = LRUCache.evictions c)
  \/
  (Z.of_nat (List.length d) = LRUCache.max_size c + 1 /\
   OrderedDict.contains key (LRUCache.cache c) = false /\
   LRUCache.evictions c' = LRUCache.evictions c + 1 /\
   exists lru rest,
     LRUCache.cache c = lru :: rest /\
     LRUCache.cache c' =
       rest ++ [(key, CacheEntry_init v (LRUCache.effective_ttl c ttl) now)]).
Proof.
  intros Hm Hs d c'. subst d c'. unfold LRUCache.set, LRUCache.size in *.
  destruct (Z.of_nat (List.length (LRUCache.upsert c key v ttl now)) >? LRUCache.max_size c)
    eqn:G.
  - right. apply Z.gtb_lt in G.
    destruct (OrderedDict.contains key (LRUCache.cache c)) eqn:C.
    + pose proof (length_upsert_present c key v ttl now C). lia.
    + rewrite upsert_absent in * by exact C.
      rewrite length_app in *. simpl in *.
      split; [lia|]. split; [reflexivity|]. split; [reflexivity|].
      destruct (LRUCache.cache c) as [|lru rest]; simpl in *; [lia|].
      now exists lru, rest.
  - left. simpl. split; [|split; reflexivity].
    destruct (Z.of_nat (List.length (LRUCache.upsert c key v ttl now)) ?= LRUCache.max_size c) eqn:Cmp;
      unfold Z.gtb in G; rewrite Cmp in G; try discriminate.
    + apply Z.compare_eq in Cmp. lia.
    + rewrite Z.compare_lt_iff in Cmp. lia.
Qed.

Lemma step_capacity c (op : LRUCache.Op V) :
  1 <= LRUCache.max_size c ->
  LRUCache.size c <= LRUCache.max_size c ->
  LRUCache.max_size (LRUCache.step c op) = LRUCache.max_size c /\
  LRUCache.size (LRUCache.step c op) <= LRUCache.max_size c.
Proof.
  intros Hm Hs. destruct op as [key now|key v ttl now|key| |clock]; simpl.
  - unfold LRUCache.get.
    destruct (OrderedDict.getitem key (LRUCache.cache c)) as [e|] eqn:G; simpl.
    + destruct (is_expired e now); unfold LRUCache.size in *; simpl; split; try reflexivity.
      * pose proof (length_delitem_le key (LRUCache.cache c)). lia.
      * unfold OrderedDict.move_to_end. rewrite G, length_app. simpl.
        pose proof (length_delitem_present _ _ (getitem_Some_contains _ _ _ G)). lia.
    + split; [reflexivity | exact Hs].
  - split; [apply max_size_set|].
    destruct (set_cases c key v ttl now Hm Hs) as [(Hl & Hc & _) | (Hl & _ & _ & lru & rest & Hc & Hc')];
      unfold LRUCache.size in *.
    + rewrite Hc. exact Hl.
    + rewrite Hc'. rewrite Hc in Hs. rewrite length_app. simpl in *. lia.
  - unfold LRUCache.delete.
    destruct (OrderedDict.contains key (LRUCache.cache c)); simpl;
      [|split; [reflexivity | exact Hs]].
    unfold LRUCache.size in *. simpl. split; [reflexivity|].
    pose proof (length_delitem_le key (LRUCache.cache c)). lia.
  - unfold LRUCache.size. simpl. split; [reflexivity | lia].
  - unfold LRUCache.size in *. simpl. split; [reflexivity|].
    pose proof (length_fold_delitem (LRUCache.expired_keys (LRUCache.cache c) clock 0)
                  (LRUCache.cache c)). lia.
Qed.

Lemma run_capacity (ops : list (LRUCache.Op V)) c :
  1 <= LRUCache.max_size c ->
  LRUCache.size c <= LRUCache.max_size c ->
  LRUCache.max_size (LRUCache.run c ops) = LRUCache.max_size c /\
  LRUCache.size (LRUCache.run c ops) <= LRUCache.max_size c.
Proof.
  revert c. induction ops as [|op ops IH]; intros c Hm Hs; simpl.
  - split; [reflexivity | exact Hs].
  - destruct (step_capacity c op Hm Hs) as [E L].
    destruct (IH (LRUCache.step c op)) as [E' L']; rewrite ?E; auto.
    rewrite E in *. now split.
Qed.

Lemma step_nonpositive_empty c (op : LRUCache.Op V) :
  LRUCache.max_size c <= 0 ->
  LRUCache.cache c = [] ->
  LRUCache.max_size (LRUCache.step c op) = LRUCache.max_size c /\
  LRUCache.cache (LRUCache.step c op) = [].
Proof.
  intros Hm He. destruct op as [key now|key v ttl now|key| |clock]; simpl.
  - unfold LRUCache.get. rewrite He. simpl. now split.
  - split; [apply max_size_set|].
    unfold LRUCache.set, LRUCache.upsert. rewrite He. simpl.
    destruct (1 >? LRUCache.max_size c) eqn:G; [reflexivity|].
    unfold Z.gtb in G. destruct (1 ?= LRUCache.max_size c) eqn:Cmp; try discriminate.
    + apply Z.compare_eq in Cmp. lia.
    + rewrite Z.compare_lt_iff in Cmp. lia.
  - unfold LRUCache.delete. rewrite He. simpl. now split.
  - now split.
  - rewrite He. simpl. now split.
Qed.

Lemma run_nonpositive_empty (ops : list (LRUCache.Op V)) c :
  LRUCache.max_size c <= 0 ->
  LRUCache.cache c = [] ->
  LRUCache.cache (LRUCache.run c ops) = [].
Proof.
  revert c. induction ops as [|op ops IH]; intros c Hm He; simpl; [exact He|].
  destruct (step_nonpositive_empty c op Hm He) as [E1 E2].
  apply IH; [lia | exact E2].
Qed.

End LRUCacheFacts.


(** * Key uniqueness is kept by every operation *)

Section WellFormed.
Context {V : Type}.
Implicit Types (c : LRUCache.t V) (key : string).

Lemma wf_upsert c key v ttl now :
  OrderedDict.wf (LRUCache.cache c) ->
  OrderedDict.wf (LRUCache.upsert c key v ttl now).
Proof.
  intros Hwf.
  destruct (OrderedDict.contains key (LRUCache.cache c)) eqn:C.
  - rewrite upsert_present by assumption.
    apply wf_snoc; [now apply wf_delitem | now apply delitem_removes].
  - rewrite upsert_absent by assumption. now apply wf_snoc.
Qed.

Lemma wf_move_to_end key (d : OrderedDict.t (CacheEntry V)) :
  OrderedDict.wf d -> OrderedDict.wf (OrderedDict.move_to_end key d).
Proof.
  intros Hwf. unfold OrderedDict.move_to_end.
  destruct (OrderedDict.getitem key d); [|exact Hwf].
  apply wf_snoc; [now apply wf_delitem | now apply delitem_removes].
Qed.

Lemma wf_set c key v ttl now :
  OrderedDict.wf (LRUCache.cache c) ->
  OrderedDict.wf (LRUCache.cache (LRUCache.set c key v ttl now)).
Proof.
  intros Hwf. unfold LRUCache.set.
  destruct (_ >? _); simpl; [apply wf_tl|]; now apply wf_upsert.
Qed.

Lemma wf_step c (op : LRUCache.Op V) :
  OrderedDict.wf (LRUCache.cache c) ->
  OrderedDict.wf (LRUCache.cache (LRUCache.step c op)).
Proof.
  intros Hwf. destruct op as [key now|key v ttl now|key| |clock]; simpl.
  - unfold LRUCache.get.
    destruct (OrderedDict.getitem key (LRUCache.cache c)) as [e|]; simpl; [|exact Hwf].
    destruct (is_expired e now); simpl; [now apply wf_delitem | now apply wf_move_to_end].
  - now apply wf_set.
  - unfold LRUCache.delete.
    destruct (OrderedDict.contains key (LRUCache.cache c)); simpl;
      [now apply wf_delitem | exact Hwf].
  - constructor.
  - now apply wf_fold_delitem.
Qed.

Lemma wf_run (ops : list (LRUCache.Op V)) c :
  OrderedDict.wf (LRUCache.cache c) ->
  OrderedDict.wf (LRUCache.cache (LRUCache.run c ops)).
Proof.
  revert c. induction ops as [|op ops IH]; intros c Hwf; simpl; [exact Hwf|].
  apply IH. now apply wf_step.
Qed.

End WellFormed.


(** * Entries that never expire *)

Section ExpiryFacts.
Context {V : Type}.
Implicit Types (c : LRUCache.t V) (d : OrderedDict.t (CacheEntry V))
         (k key : string) (e : CacheEntry V).

Lemma never_not_expired e now : expiry e = Never -> is_expired e now = false.
Proof. unfold is_expired. now intros ->. Qed.

Lemma In_getitem_wf d k e :
  OrderedDict.wf d -> In (k, e) d -> OrderedDict.getitem k d = Some e.
Proof.
  unfold OrderedDict.wf.
  induction d as [|[k' e'] d IH]; simpl; intros Hwf Hin; [tauto|].
  inversion Hwf as [|? ? Hn Hd]; subst.
  destruct Hin as [Heq | Hin].
  - inversion Heq; subst. now rewrite String.eqb_refl.
  - destruct (String.eqb k' k) eqn:Ek; [|auto].
    apply String.eqb_eq in Ek; subst. exfalso. apply Hn.
    change k with (fst (k, e)). now apply in_map.
Qed.

Lemma expired_keys_In d clock i k :
  In k (LRUCache.expired_keys d clock i) ->
  exists e j, In (k, e) d /\ is_expired e (clock j) = true.
Proof.
  revert i. induction d as [|[k' e'] d IH]; simpl; intros i Hin; [tauto|].
  destruct (is_expired e' (clock i)) eqn:X.
  - destruct Hin as [<- | Hin].
    + exists e', i. tauto.
    + destruct (IH _ Hin) as (e & j & H1 & H2). exists e, j. tauto.
  - destruct (IH _ Hin) as (e & j & H1 & H2). exists e, j. tauto.
Qed.

Lemma getitem_fold_delitem_notin (ks : list string) k d :
  ~ In k ks ->
  OrderedDict.getitem k (fold_left (fun d x => OrderedDict.delitem x d) ks d) =
  OrderedDict.getitem k d.
Proof.
  revert d. induction ks as [|x ks IH]; simpl; intros d Hn; [reflexivity|].
  rewrite IH by tauto. apply getitem_delitem_other. intros ->. tauto.
Qed.

Lemma never_persists_step c (op : LRUCache.Op V) k e :
  OrderedDict.wf (LRUCache.cache c) ->
  OrderedDict.getitem k (LRUCache.cache c) = Some e ->
  expiry e = Never ->
  LRUCache.reads_or_sweeps op = true ->
  OrderedDict.getitem k (LRUCache.cache (LRUCache.step c op)) = Some e.
Proof.
  intros Hwf G Hnever Hop.
  destruct op as [key now|key v ttl now|key| |clock]; simpl in Hop; try discriminate; simpl.
  - unfold LRUCache.get.
    destruct (String.eqb key k) eqn:Ek.
    + apply String.eqb_eq in Ek; subst key. rewrite G.
      rewrite (never_not_expired e now Hnever). simpl.
      unfold OrderedDict.move_to_end. rewrite G.
      apply getitem_snoc_same. now apply delitem_removes.
    + apply String.eqb_neq in Ek.
      destruct (OrderedDict.getitem key (LRUCache.cache c)) as [e'|] eqn:G'; simpl;
        [|exact G].
      destruct (is_expired e' now); simpl.
      * rewrite getitem_delitem_other by congruence. exact G.
      * unfold OrderedDict.move_to_end. rewrite G'.
        rewrite getitem_snoc_other by congruence.
        rewrite getitem_delitem_other by congruence. exact G.
  - rewrite getitem_fold_delitem_notin; [exact G|].
    intros Hin. apply expired_keys_In in Hin. destruct Hin as (e' & j & Hin & Hx).
    apply (In_getitem_wf _ _ _ Hwf) in Hin. rewrite G in Hin. inversion Hin; subst e'.
    rewrite (never_not_expired e (clock j) Hnever) in Hx. discriminate.
Qed.

Lemma never_persists_run (ops : list (LRUCache.Op V)) c k e :
  OrderedDict.wf (LRUCache.cache c) ->
  OrderedDict.getitem k (LRUCache.cache c) = Some e ->
  expiry e = Never ->
  forallb LRUCache.reads_or_sweeps ops = true ->
  OrderedDict.getitem k (LRUCache.cache (LRUCache.run c ops)) = Some e.
Proof.
  revert c. induction ops as [|op ops IH]; simpl; intros c Hwf G Hn Hops; [exact G|].
  apply andb_true_iff in Hops. destruct Hops as [Hop Hops].
  apply IH; auto using wf_step, never_persists_step.
Qed.

(** With room for at least one entry, the entry just written by [set] is in
    the cache when [set] returns. *)
Lemma set_getitem_same c key v ttl now :
  1 <= LRUCache.max_size c ->
  OrderedDict.wf (LRUCache.cache c) ->
  OrderedDict.getitem key (LRUCache.cache (LRUCache.set c key v ttl now)) =
  Some (CacheEntry_init v (LRUCache.effective_ttl c ttl) now).
Proof.
  intros Hm Hwf.
  assert (Hup : exists X, LRUCache.upsert c key v ttl now =
                          X ++ [(key, CacheEntry_init v (LRUCache.effective_ttl c ttl) now)]
                          /\ OrderedDict.contains key X = false).
  { destruct (OrderedDict.contains key (LRUCache.cache c)) eqn:C.
    - eexists. split; [now apply upsert_present | now apply delitem_removes].
    - eexists. split; [now apply upsert_absent | exact C]. }
  destruct Hup as (X & Hup & HX). unfold LRUCache.set. rewrite Hup.
  destruct (_ >? _) eqn:G; simpl.
  - destruct X as [|[k0 e0] X]; simpl in *.
    + apply Z.gtb_lt in G. lia.
    + apply orb_false_iff in HX. now apply getitem_snoc_same.
  - now apply getitem_snoc_same.
Qed.

End ExpiryFacts.

(** * Facts about the string primitives *)

Section PyStrFacts.
Implicit Types (s p r a b key : string) (c : ascii).

Lemma startswith_spec s p :
  PyStr.startswith s p = true <-> exists r, s = (p ++ r)%string.
Proof.
  revert s. induction p as [|x p IH]; intros s; simpl.
  - split; [intros _; now exists s | reflexivity].
  - destruct s as [|y s]; simpl.
    + split; [discriminate | intros [r H]; discriminate H].
    + rewrite andb_true_iff, Ascii.eqb_eq, IH. split.
      * intros [-> [r ->]]. now exists r.
      * intros [r H]. inversion H; subst. split; [reflexivity | now exists r].
Qed.

Lemma endswith_nil p : PyStr.endswith "" p = String.eqb "" p.
Proof. simpl. apply orb_false_r. Qed.

Lemma endswith_cons x s p :
  PyStr.endswith (String x s) p = String.eqb (String x s) p || PyStr.endswith s p.
Proof. reflexivity. Qed.

Lemma endswith_spec s p :
  PyStr.endswith s p = true <-> exists r, s = (r ++ p)%string.
Proof.
  induction s as [|x s IH].
  - rewrite endswith_nil, String.eqb_eq. split.
    + intros <-. now exists "".
    + intros [r H]. destruct r; simpl in H; [exact H | discriminate H].
  - rewrite endswith_cons, orb_true_iff, String.eqb_eq, IH. split.
    + intros [<- | [r ->]]; [now exists "" | now exists (String x r)].
    + intros [r H]. destruct r as [|y r]; simpl in H; [now left|].
      inversion H; subst. right. now exists r.
Qed.

Lemma endswith_empty s : PyStr.endswith s "" = true.
Proof.
  induction s as [|x s IH]; [reflexivity|].
  rewrite endswith_cons, IH. apply orb_true_r.
Qed.

Lemma contains_char_mid c a b : PyStr.contains_char c (a ++ String c b)%string = true.
Proof.
  induction a as [|x a IH]; simpl.
  - now rewrite Ascii.eqb_refl.
  - rewrite IH. apply orb_true_r.
Qed.

Lemma endswith_snoc c a : PyStr.endswith (a ++ String c "")%string (String c "") = true.
Proof. apply endswith_spec. now exists a. Qed.

Lemma drop_last_snoc c a : PyStr.drop_last (a ++ String c "")%string = a.
Proof.
  induction a as [|x a IH]; simpl; [reflexivity|].
  rewrite IH. destruct a; reflexivity.
Qed.

(** A non-empty string without [c] does not end with [c], whatever precedes it. *)
Lemma endswith_char_free c b :
  PyStr.contains_char c b = false -> PyStr.endswith b (String c "") = false.
Proof.
  induction b as [|x b IH]; [reflexivity|].
  simpl PyStr.contains_char. intros H. apply orb_false_iff in H. destruct H as [Hx Hb].
  rewrite endswith_cons, (IH Hb), orb_false_r.
  simpl. rewrite Hx. reflexivity.
Qed.

Lemma endswith_char_free_tail c a b :
  PyStr.contains_char c b = false -> b <> "" ->
  PyStr.endswith (a ++ String c b)%string (String c "") = false.
Proof.
  intros Hb Hne. induction a as [|x a IH].
  - change ("" ++ String c b)%string with (String c b).
    rewrite endswith_cons, (endswith_char_free c b Hb), orb_false_r. simpl.
    destruct b; [congruence | apply andb_false_r].
  - change (String x a ++ String c b)%string with (String x (a ++ String c b)%string).
    rewrite endswith_cons, IH, orb_false_r. simpl.
    destruct (a ++ String c b)%string eqn:E; [|apply andb_false_r].
    destruct a; discriminate E.
Qed.

Lemma split_once_mid c a b :
  PyStr.contains_char c a = false ->
  PyStr.split_once c (a ++ String c b)%string = (a, b).
Proof.
  induction a as [|x a IH]; simpl.
  - now rewrite Ascii.eqb_refl.
  - intros H. apply orb_false_iff in H. destruct H as [Hx Ha].
    rewrite Hx, IH by exact Ha. reflexivity.
Qed.

End PyStrFacts.

(** * Facts about pattern matching and bulk invalidation *)

Section PatternFacts.
Context {S : Type} {store : UserStore S}.
Implicit Types (key a b p : string).

Lemma matches_literal key p :
  PyStr.contains_char "*" p = false ->
  CachedUserStore._matches_pattern key p = String.eqb key p.
Proof. intros H. unfold CachedUserStore._matches_pattern. now rewrite H. Qed.

Lemma matches_prefix key a :
  CachedUserStore._matches_pattern key (a ++ "*")%string = PyStr.startswith key a.
Proof.
  unfold CachedUserStore._matches_pattern.
  now rewrite contains_char_mid, endswith_snoc, drop_last_snoc.
Qed.

(** One wildcard, with star-free text [a] before it and [b] after it. *)
Lemma matches_one_wildcard key a b :
  PyStr.contains_char "*" a = false ->
  PyStr.contains_char "*" b = false ->
  CachedUserStore._matches_pattern key (a ++ String "*" b)%string =
  PyStr.startswith key a && PyStr.endswith key b.
Proof.
  intros Ha Hb. destruct b as [|y b].
  - rewrite matches_prefix, endswith_empty. now rewrite andb_true_r.
  - unfold CachedUserStore._matches_pattern. rewrite contains_char_mid. simpl negb.
    cbv iota.
    assert (E : PyStr.endswith (a ++ String "*" (String y b))%string "*" = false).
    { apply endswith_char_free_tail; [exact Hb | discriminate]. }
    rewrite E. destruct a as [|x a].
    + reflexivity.
    + simpl in Ha. apply orb_false_iff in Ha. destruct Ha as [Hx Ha].
      replace (PyStr.startswith (String x a ++ String "*" (String y b))%string "*") with false
        by (simpl; now rewrite Hx).
      rewrite (split_once_mid "*" (String x a) (String y b)); [reflexivity|].
      simpl. now rewrite Hx, Ha.
Qed.

Lemma fold_delitem_keeps_head {E : Type} (ks : list string) k (e : E) d :
  ~ In k ks ->
  fold_left (fun d x => OrderedDict.delitem x d) ks ((k, e) :: d) =
  (k, e) :: fold_left (fun d x => OrderedDict.delitem x d) ks d.
Proof.
  revert d. induction ks as [|x ks IH]; simpl; intros d Hn; [reflexivity|].
  destruct (String.eqb k x) eqn:Ek.
  - apply String.eqb_eq in Ek. subst x. tauto.
  - apply IH. tauto.
Qed.

(** Deleting, one by one, the keys selected by [f] is filtering them out. *)
Lemma fold_delitem_filter {E : Type} (f : string -> bool) (d : OrderedDict.t E) :
  fold_left (fun d x => OrderedDict.delitem x d) (filter f (OrderedDict.keys d)) d =
  filter (fun kv => negb (f (fst kv))) d.
Proof.
  induction d as [|[k e] d IH]; simpl; [reflexivity|].
  destruct (f k) eqn:Fk; simpl.
  - rewrite String.eqb_refl. exact IH.
  - rewrite fold_delitem_keeps_head; [now rewrite IH|].
    intros Hin. apply filter_In in Hin. destruct Hin as [_ Hf]. congruence.
Qed.

Lemma invalidate_pattern_filter (s : CachedUserStore.t S) p :
  LRUCache.cache (CachedUserStore.cache (CachedUserStore.invalidate_pattern s p)) =
  filter (fun kv => negb (CachedUserStore._matches_pattern (fst kv) p))
         (LRUCache.cache (CachedUserStore.cache s)).
Proof.
  unfold CachedUserStore.invalidate_pattern. simpl.
  apply (fold_delitem_filter (fun key => CachedUserStore._matches_pattern key p)).
Qed.

Lemma getitem_filter_keep {E : Type} (f : string -> bool) key (d : OrderedDict.t E) :
  f key = true ->
  OrderedDict.getitem key (filter (fun kv => f (fst kv)) d) = OrderedDict.getitem key d.
Proof.
  intros Hf. induction d as [|[k e] d IH]; simpl; [reflexivity|].
  destruct (f k) eqn:Fk; simpl.
  - now rewrite IH.
  - destruct (String.eqb k key) eqn:Ek; [|exact IH].
    apply String.eqb_eq in Ek. congruence.
Qed.

Lemma contains_filter_drop {E : Type} (f : string -> bool) key (d : OrderedDict.t E) :
  f key = false ->
  OrderedDict.contains key (filter (fun kv => f (fst kv)) d) = false.
Proof.
  intros Hf. apply contains_false_In. unfold OrderedDict.keys.
  intros Hin. apply in_map_iff in Hin. destruct Hin as ([k e] & <- & Hin).
  apply filter_In in Hin. simpl in *. destruct Hin as [_ H]. congruence.
Qed.

End PatternFacts.

(** * Facts about [save_user] of the wrapper *)

Section SaveUserFacts.
Context {V : Type}.
Implicit Types (c : LRUCache.t V) (key k : string) (pre suf : OrderedDict.t (CacheEntry V)).

Lemma default_ttl_set c key v ttl now :
  LRUCache.default_ttl (LRUCache.set c key v ttl now) = LRUCache.default_ttl c.
Proof. unfold LRUCache.set. destruct (_ >? _); reflexivity. Qed.

(** A [set] of a new key appends it; when the cache is over capacity the
    entry dropped comes from the front part, as long as the recent part
    [suf] and the new entry fit together. *)
Lemma set_appends_after c key v ttl now pre suf :
  OrderedDict.contains key (LRUCache.cache c) = false ->
  LRUCache.cache c = pre ++ suf ->
  Z.of_nat (List.length suf) + 1 <= LRUCache.max_size c ->
  exists pre',
    LRUCache.cache (LRUCache.set c key v ttl now) =
      pre' ++ (suf ++ [(key, CacheEntry_init v (LRUCache.effective_ttl c ttl) now)]) /\
    incl pre' pre.
Proof.
  intros Hc Hd Hfit. unfold LRUCache.set. rewrite upsert_absent by exact Hc.
  rewrite Hd, <- app_assoc.
  destruct (_ >? _) eqn:G; simpl.
  - apply Z.gtb_lt in G. rewrite !length_app in G. simpl in G.
    destruct pre as [|x pre]; simpl in *; [lia|].
    exists pre. split; [reflexivity | apply incl_tl, incl_refl].
  - exists pre. split; [reflexivity | apply incl_refl].
Qed.

Lemma contains_delitem_false key k (d : OrderedDict.t (CacheEntry V)) :
  OrderedDict.contains k d = false ->
  OrderedDict.contains k (OrderedDict.delitem key d) = false.
Proof.
  rewrite !contains_false_In. intros Hn Hin. apply Hn.
  eapply keys_delitem_incl; eauto.
Qed.

Lemma contains_app_false k (d1 d2 : OrderedDict.t (CacheEntry V)) :
  OrderedDict.contains k d1 = false -> OrderedDict.contains k d2 = false ->
  OrderedDict.contains k (d1 ++ d2) = false.
Proof.
  rewrite !contains_false_In, keys_app. intros H1 H2 Hin.
  apply in_app_or in Hin. tauto.
Qed.

Lemma contains_incl_false k (d1 d2 : OrderedDict.t (CacheEntry V)) :
  incl d1 d2 -> OrderedDict.contains k d2 = false -> OrderedDict.contains k d1 = false.
Proof.
  rewrite !contains_false_In. unfold OrderedDict.keys. intros Hi Hn Hin. apply Hn.
  apply in_map_iff in Hin. destruct Hin as (x & Hx & Hin).
  apply in_map_iff. exists x. split; [exact Hx | now apply Hi].
Qed.

End SaveUserFacts.

(** * Facts about rounding *)

Section RoundingFacts.

Lemma round_half_even_close (x : Q) :
  (x - (1 # 2) <= inject_Z (round_half_even x) <= x + (1 # 2))%Q.
Proof.
  unfold round_half_even.
  pose proof (Qfloor_le x) as Hlo.
  pose proof (Qlt_floor x) as Hhi.
  rewrite inject_Z_plus in Hhi. change (inject_Z 1) with 1%Q in Hhi.
  destruct (x - inject_Z (Qfloor x) ?= 1 # 2)%Q eqn:Cmp.
  - apply Qeq_alt in Cmp.
    destruct (Z.even (Qfloor x)); rewrite ?inject_Z_plus;
      change (inject_Z 1) with 1%Q; lra.
  - apply Qlt_alt in Cmp. lra.
  - apply Qgt_alt in Cmp. rewrite inject_Z_plus. change (inject_Z 1) with 1%Q. lra.
Qed.

(** [round2] meets the description of rounding to 2 decimal places. *)
Lemma round2_is_rounded (x : spec_float) :
  Binary64.is_rounded_to_2_places x (Binary64.round2 x).
Proof.
  destruct x as [s| s| |s m e]; try reflexivity.
  unfold Binary64.is_rounded_to_2_places, Binary64.round2.
  exists (round_half_even (Binary64.to_Q (S754_finite s m e) * 100)).
  split; [apply round_half_even_close | reflexivity].
Qed.

End RoundingFacts.

(** * The claims *)

(** C1. Capacity invariant.  A cache built with [max_size >= 1] holds at most
    [max_size] entries after any sequence of get / set / delete / clear /
    cleanup_expired calls.  A further [set] either evicts nothing and leaves
    the eviction counter alone (the upserted dict fits), or evicts exactly one
    entry: this happens only when the key was new and the insertion made the
    dict one larger than [max_size], and the entry dropped is the head of the
    old dict, the least recently used one. *)
Theorem capacity_invariant {V : Type} (m dttl : Z) (ops : list (LRUCache.Op V))
        (key : string) (v : V) (ttl : option Z) (now : Q) :
  1 <= m ->
  let c := LRUCache.run (LRUCache.init m dttl) ops in
  let d := LRUCache.upsert c key v ttl now in
  let c' := LRUCache.set c key v ttl now in
  LRUCache.size c <= m /\
  LRUCache.size c' <= m /\
  ((Z.of_nat (List.length d) <= m /\
    LRUCache.cache c' = d /\
    LRUCache.evictions c' = LRUCache.evictions c)
   \/
   (Z.of_nat (List.length d) = m + 1 /\
    OrderedDict.contains key (LRUCache.cache c) = false /\
    LRUCache.evictions c' = LRUCache.evictions c + 1 /\
    exists lru rest,
      LRUCache.cache c = lru :: rest /\
      LRUCache.cache c' =
        rest ++ [(key, CacheEntry_init v (LRUCache.effective_ttl c ttl) now)])).
Proof.
  intros Hm c d c'.
  destruct (run_capacity ops (LRUCache.init m dttl)) as [Em Hs];
    [exact Hm | unfold LRUCache.size; simpl; lia |].
  fold c in Em, Hs. simpl in Em, Hs.
  assert (Hm' : 1 <= LRUCache.max_size c) by lia.
  assert (Hs' : LRUCache.size c <= LRUCache.max_size c) by lia.
  split; [lia|]. split.
  - destruct (step_capacity c (LRUCache.OpSet key v ttl now) Hm' Hs') as [_ L].
    simpl in L. subst c'. lia.
  - pose proof (set_cases c key v ttl now Hm' Hs') as H.
    simpl in H. rewrite Em in H. exact H.
Qed.

Lemma capacity_invariant_witness :
  1 <= 2 /\
  let c := LRUCache.run (LRUCache.init 2 300)
             [LRUCache.OpSet "a" 1%nat None 0%Q; LRUCache.OpSet "b" 2%nat None 1%Q;
              LRUCache.OpGet "a" 2%Q] in
  LRUCache.size c <= 2 /\
  LRUCache.size (LRUCache.set c "c" 3%nat None 3%Q) <= 2.
Proof.
  split; [lia|].
  pose proof (capacity_invariant 2 300
                [LRUCache.OpSet "a" 1%nat None 0%Q; LRUCache.OpSet "b" 2%nat None 1%Q;
                 LRUCache.OpGet "a" 2%Q] "c" 3%nat None 3%Q ltac:(lia)) as H.
  simpl in H. destruct H as (H1 & H2 & _). split; [exact H1 | exact H2].
Defined.

(** C2, as the code has it.  The constructor validates nothing: for every
    [max_size], positive or not, it returns a cache that stores the value
    exactly as given.  A cache whose capacity is zero or negative accepts every
    operation and stays empty, each [set] evicting the entry it has just
    inserted. *)
Theorem construct_accepts_any_capacity {V : Type} (m dttl : Z)
        (ops : list (LRUCache.Op V)) :
  LRUCache.construct m dttl = Returns (LRUCache.init (V := V) m dttl) /\
  LRUCache.max_size (LRUCache.init (V := V) m dttl) = m /\
  (m <= 0 -> LRUCache.cache (LRUCache.run (LRUCache.init m dttl) ops) = []).
Proof.
  split; [reflexivity|]. split; [reflexivity|]. intros Hm.
  apply (run_nonpositive_empty ops); [exact Hm | reflexivity].
Qed.

Lemma construct_accepts_any_capacity_witness :
  0 <= 0 /\
  LRUCache.cache
    (LRUCache.run (LRUCache.init 0 300)
       [LRUCache.OpSet "k" 7%nat None 0%Q; LRUCache.OpGet "k" 1%Q]) = [].
Proof.
  split; [lia|].
  apply (construct_accepts_any_capacity 0 300
           [LRUCache.OpSet "k" 7%nat None 0%Q; LRUCache.OpGet "k" 1%Q]).
  lia.
Defined.

(** C2, as the claim states it, fails: constructing the cache with
    [max_size = 0] raises nothing and yields an ordinary empty cache. *)
Lemma construct_zero_not_rejected :
  LRUCache.construct (V := nat) 0 300 = Returns (LRUCache.mk 0 300 [] 0 0 0) /\
  ~ (exists exn, LRUCache.construct (V := nat) 0 300 = Raises exn).
Proof.
  split; [reflexivity|]. intros [exn H]. discriminate H.
Qed.

(** C3. LRU order with promotion on access.  A [get] on a present entry that
    has not expired returns its value and moves the binding to the last
    (most recently used) position.  Hence, with [max_size = 3] and four
    distinct keys: after inserting A, B, C, reading A while it is live, and
    inserting D, exactly B has been evicted and the dict holds C, A, D in
    that order of recency. *)
Theorem lru_promotion_on_get {V : Type} (dttl : Z) (A B C D : string)
        (vA vB vC vD : V) (ttlA ttlB ttlC ttlD : option Z)
        (tA tB tC tD tget : Q) :
  NoDup [A; B; C; D] ->
  let c0 := LRUCache.init 3 dttl in
  let c3 := LRUCache.set (LRUCache.set (LRUCache.set c0 A vA ttlA tA) B vB ttlB tB)
                         C vC ttlC tC in
  is_expired (CacheEntry_init vA (LRUCache.effective_ttl c0 ttlA) tA) tget = false ->
  let r := LRUCache.get c3 A tget in
  let c5 := LRUCache.set (snd r) D vD ttlD tD in
  (forall (c : LRUCache.t V) key e now,
      OrderedDict.getitem key (LRUCache.cache c) = Some e ->
      is_expired e now = false ->
      fst (LRUCache.get c key now) = Some (value e) /\
      LRUCache.cache (snd (LRUCache.get c key now)) =
        OrderedDict.delitem key (LRUCache.cache c) ++ [(key, e)]) /\
  OrderedDict.keys (LRUCache.cache c3) = [A; B; C] /\
  fst r = Some vA /\
  OrderedDict.keys (LRUCache.cache (snd r)) = [B; C; A] /\
  OrderedDict.keys (LRUCache.cache c5) = [C; A; D] /\
  OrderedDict.contains B (LRUCache.cache c5) = false /\
  LRUCache.evictions (snd r) = 0 /\
  LRUCache.evictions c5 = 1.
Proof.
  intros Hnd c0 c3 Hlive r c5.
  split.
  { intros c key e now G L. unfold LRUCache.get. rewrite G, L. simpl.
    unfold OrderedDict.move_to_end. now rewrite G. }
  assert (EAB : String.eqb A B = false /\ String.eqb A C = false /\
                String.eqb A D = false /\ String.eqb B C = false /\
                String.eqb B D = false /\ String.eqb C D = false /\
                String.eqb B A = false /\ String.eqb C A = false /\
                String.eqb C B = false).
  { repeat match goal with
           | H : NoDup (_ :: _) |- _ => inversion H; clear H; subst
           end.
    simpl in *. repeat split; apply String.eqb_neq; intros ->; tauto. }
  destruct EAB as (AB & AC & AD & BC & BD & CD & BA & CA & CB).
  pose (eA := CacheEntry_init vA (LRUCache.effective_ttl c0 ttlA) tA).
  pose (eB := CacheEntry_init vB (LRUCache.effective_ttl c0 ttlB) tB).
  pose (eC := CacheEntry_init vC (LRUCache.effective_ttl c0 ttlC) tC).
  pose (eD := CacheEntry_init vD (LRUCache.effective_ttl c0 ttlD) tD).
  assert (E1 : LRUCache.set c0 A vA ttlA tA = LRUCache.mk 3 dttl [(A, eA)] 0 0 0)
    by reflexivity.
  assert (E2 : LRUCache.set (LRUCache.mk 3 dttl [(A, eA)] 0 0 0) B vB ttlB tB =
               LRUCache.mk 3 dttl [(A, eA); (B, eB)] 0 0 0).
  { unfold LRUCache.set, LRUCache.upsert. repeat (progress (simpl; rewrite ?AB)). reflexivity. }
  assert (E3 : LRUCache.set (LRUCache.mk 3 dttl [(A, eA); (B, eB)] 0 0 0) C vC ttlC tC =
               LRUCache.mk 3 dttl [(A, eA); (B, eB); (C, eC)] 0 0 0).
  { unfold LRUCache.set, LRUCache.upsert.
    repeat (progress (simpl; rewrite ?AC, ?BC)). reflexivity. }
  assert (E4 : LRUCache.get (LRUCache.mk 3 dttl [(A, eA); (B, eB); (C, eC)] 0 0 0) A tget =
               (Some vA, LRUCache.mk 3 dttl [(B, eB); (C, eC); (A, eA)] 1 0 0)).
  { unfold LRUCache.get, OrderedDict.move_to_end. simpl.
    rewrite String.eqb_refl. fold eA in Hlive. rewrite Hlive. reflexivity. }
  assert (E5 : LRUCache.set (LRUCache.mk 3 dttl [(B, eB); (C, eC); (A, eA)] 1 0 0) D vD ttlD tD =
               LRUCache.mk 3 dttl [(C, eC); (A, eA); (D, eD)] 1 0 1).
  { unfold LRUCache.set, LRUCache.upsert.
    repeat (progress (simpl; rewrite ?BD, ?CD, ?AD)). reflexivity. }
  subst c3 r c5. rewrite E1, E2, E3, E4. simpl fst. simpl snd. rewrite E5. simpl.
  rewrite CB, AB, (String.eqb_sym D B), BD. simpl.
  repeat split; reflexivity.
Qed.

Lemma lru_promotion_on_get_witness :
  NoDup ["A"; "B"; "C"; "D"] /\
  let c3 := LRUCache.set (LRUCache.set (LRUCache.set (LRUCache.init 3 10)
                "A" 1%nat None 0%Q) "B" 2%nat None 0%Q) "C" 3%nat None 0%Q in
  let c5 := LRUCache.set (snd (LRUCache.get c3 "A" 1%Q)) "D" 4%nat None 2%Q in
  OrderedDict.keys (LRUCache.cache c5) = ["C"; "A"; "D"] /\
  OrderedDict.contains "B" (LRUCache.cache c5) = false.
Proof.
  assert (Hnd : NoDup ["A"; "B"; "C"; "D"]).
  { repeat constructor; simpl; intuition discriminate. }
  split; [exact Hnd|].
  pose proof (lru_promotion_on_get 10 "A" "B" "C" "D" 1%nat 2%nat 3%nat 4%nat
                None None None None 0%Q 0%Q 0%Q 2%Q 1%Q Hnd eq_refl) as H.
  destruct H as (_ & _ & _ & _ & H5 & H6 & _). split; [exact H5 | exact H6].
Defined.

(** C4. A [get] that finds the key bound to an expired entry returns nothing,
    counts a miss and no hit, and deletes the binding in the same call: the
    key is gone and the size, also as reported by [get_stats], is one less.
    A [get] that finds a live entry returns the stored value and counts a hit
    and no miss. *)
Theorem get_expired_is_evicting_miss {V : Type} (c : LRUCache.t V)
        (key : string) (e : CacheEntry V) (now : Q) :
  OrderedDict.wf (LRUCache.cache c) ->
  OrderedDict.getitem key (LRUCache.cache c) = Some e ->
  let r := LRUCache.get c key now in
  (is_expired e now = true ->
     fst r = None /\
     LRUCache.misses (snd r) = LRUCache.misses c + 1 /\
     LRUCache.hits (snd r) = LRUCache.hits c /\
     LRUCache.cache (snd r) = OrderedDict.delitem key (LRUCache.cache c) /\
     OrderedDict.contains key (LRUCache.cache (snd r)) = false /\
     LRUCache.size (snd r) = LRUCache.size c - 1 /\
     LRUCache.stats_size (LRUCache.get_stats (snd r)) =
       LRUCache.stats_size (LRUCache.get_stats c) - 1) /\
  (is_expired e now = false ->
     fst r = Some (value e) /\
     LRUCache.hits (snd r) = LRUCache.hits c + 1 /\
     LRUCache.misses (snd r) = LRUCache.misses c /\
     LRUCache.size (snd r) = LRUCache.size c).
Proof.
  intros Hwf G r. subst r. unfold LRUCache.get. rewrite G.
  pose proof (length_delitem_present _ _ (getitem_Some_contains _ _ _ G)) as Hl.
  split; intros Hx; rewrite Hx; simpl.
  - repeat split; try reflexivity.
    + now apply delitem_removes.
    + unfold LRUCache.size. simpl. lia.
    + unfold LRUCache.size. simpl. lia.
  - repeat split; try reflexivity.
    unfold LRUCache.size, OrderedDict.move_to_end. simpl.
    rewrite G, length_app. simpl. lia.
Qed.

Lemma get_expired_is_evicting_miss_witness :
  let c := LRUCache.set (LRUCache.init 3 10) "k" 5%nat (Some 1) 0%Q in
  let r := LRUCache.get c "k" 2%Q in
  fst r = None /\ LRUCache.misses (snd r) = 1 /\ LRUCache.size (snd r) = 0.
Proof.
  intros c r.
  assert (Hwf : OrderedDict.wf (LRUCache.cache c)).
  { repeat constructor. simpl. tauto. }
  destruct (get_expired_is_evicting_miss c "k" (CacheEntry_init 5%nat 1 0%Q) 2%Q
              Hwf eq_refl) as [H _].
  destruct (H eq_refl) as (H1 & H2 & _ & _ & _ & H6 & _).
  split; [exact H1|]. split; [exact H2 | exact H6].
Defined.

(** C5. Infinite TTL.  An entry stored with an effective ttl [<= 0] has
    expiry [Never]; no clock reading makes it expired, and in a cache with
    room for at least one entry it is still bound to its key after any
    sequence of [get] and [cleanup_expired] calls, whatever the readings.
    An entry stored with ttl [> 0] expires at insertion time plus ttl. *)
Theorem infinite_ttl_never_expires {V : Type} (c : LRUCache.t V) (key : string)
        (v : V) (ttl : option Z) (now : Q) (ops : list (LRUCache.Op V)) :
  1 <= LRUCache.max_size c ->
  OrderedDict.wf (LRUCache.cache c) ->
  forallb LRUCache.reads_or_sweeps ops = true ->
  let x := LRUCache.effective_ttl c ttl in
  let e := CacheEntry_init v x now in
  (x <= 0 ->
     expiry e = Never /\
     (forall later, is_expired e later = false) /\
     OrderedDict.getitem key
       (LRUCache.cache (LRUCache.run (LRUCache.set c key v ttl now) ops)) = Some e) /\
  (x > 0 -> expiry e = At (now + inject_Z x)%Q).
Proof.
  intros Hm Hwf Hops x e. split; intros Hx.
  - assert (Hn : expiry e = Never).
    { subst e. unfold CacheEntry_init. simpl.
      destruct (x >? 0) eqn:G; [apply Z.gtb_lt in G; lia | reflexivity]. }
    split; [exact Hn|]. split.
    + intros later. now apply never_not_expired.
    + apply never_persists_run; auto using wf_set.
      now apply set_getitem_same.
  - subst e. unfold CacheEntry_init. simpl.
    destruct (x >? 0) eqn:G; [reflexivity|].
    unfold Z.gtb in G. destruct (x ?= 0) eqn:Cmp; try discriminate.
    + apply Z.compare_eq in Cmp. lia.
    + rewrite Z.compare_lt_iff in Cmp. lia.
Qed.

Lemma infinite_ttl_never_expires_witness :
  let c := LRUCache.set (LRUCache.init 2 300) "a" 1%nat None 0%Q in
  OrderedDict.getitem "k"
    (LRUCache.cache
       (LRUCache.run (LRUCache.set c "k" 9%nat (Some (-1)) 5%Q)
          [LRUCache.OpGet "a" 1000%Q; LRUCache.OpCleanupExpired (fun _ => 2000%Q);
           LRUCache.OpGet "k" 3000%Q])) =
  Some (mkCacheEntry 9%nat Never).
Proof.
  intros c.
  assert (Hwf : OrderedDict.wf (LRUCache.cache c)).
  { repeat constructor. simpl. tauto. }
  destruct (infinite_ttl_never_expires c "k" 9%nat (Some (-1)) 5%Q
              [LRUCache.OpGet "a" 1000%Q; LRUCache.OpCleanupExpired (fun _ => 2000%Q);
               LRUCache.OpGet "k" 3000%Q]
              ltac:(simpl; lia) Hwf eq_refl) as [H _].
  destruct (H ltac:(simpl; lia)) as (_ & _ & H3). exact H3.
Defined.

(** C6. [save_user] writes to the backing store first and returns its flag.
    When the store reports failure the cache is exactly what it was: nothing
    is invalidated and nothing is written.  When it reports success (and the
    cache has room for three entries) the old bindings of the three derived
    keys are gone and the three keys are bound afresh at the recent end, the
    email and id keys to the record and the dup key to true. *)
Theorem save_user_failure_leaves_cache {S : Type} {store : UserStore S}
        (s : CachedUserStore.t S) (u : User) (t1 t2 t3 : Q) :
  let r := CachedUserStore.save_user s u t1 t2 t3 in
  let outcome := store_save_user (CachedUserStore.user_store s) u in
  let ek := CachedUserStore._email_key (PyStr.lower (email u)) in
  let ik := CachedUserStore._id_key (user_id u) in
  let dk := CachedUserStore._duplicate_key (PyStr.lower (email u)) in
  let d := LRUCache.cache (CachedUserStore.cache s) in
  let dttl := LRUCache.default_ttl (CachedUserStore.cache s) in
  fst r = fst outcome /\
  CachedUserStore.user_store (snd r) = snd outcome /\
  (fst outcome = false ->
     CachedUserStore.cache (snd r) = CachedUserStore.cache s) /\
  (fst outcome = true ->
     3 <= LRUCache.max_size (CachedUserStore.cache s) ->
     OrderedDict.wf d ->
     exists pre,
       LRUCache.cache (CachedUserStore.cache (snd r)) =
         pre ++ [(ek, CacheEntry_init (VUser u) dttl t1);
                 (ik, CacheEntry_init (VUser u) dttl t2);
                 (dk, CacheEntry_init (VBool true) dttl t3)] /\
       incl pre (OrderedDict.pop dk (OrderedDict.pop ik (OrderedDict.pop ek d))) /\
       OrderedDict.contains ek pre = false /\
       OrderedDict.contains ik pre = false /\
       OrderedDict.contains dk pre = false).
Proof.
  intros r outcome ek ik dk d dttl. subst r outcome.
  unfold CachedUserStore.save_user.
  destruct (store_save_user (CachedUserStore.user_store s) u) as [success st].
  destruct success; cbv beta iota zeta;
    cbn [fst snd CachedUserStore.cache CachedUserStore.user_store];
    (split; [reflexivity|]); (split; [reflexivity|]);
    (split; [intros H; try discriminate H; reflexivity|]); intros H; try discriminate H.
  intros Hm Hwf. unfold CachedUserStore._invalidate_user_cache.
  cbn [fst snd fold_left CachedUserStore.cache CachedUserStore.user_store].
  fold ek ik dk d.
  set (d0 := OrderedDict.pop dk (OrderedDict.pop ik (OrderedDict.pop ek d))).
  set (c0 := LRUCache.with_cache (CachedUserStore.cache s) d0).
  assert (Nek : OrderedDict.contains ek d0 = false).
  { subst d0. unfold OrderedDict.pop.
    do 2 apply contains_delitem_false. now apply delitem_removes. }
  assert (Nik : OrderedDict.contains ik d0 = false).
  { subst d0. unfold OrderedDict.pop.
    apply contains_delitem_false. apply delitem_removes. now apply wf_delitem. }
  assert (Ndk : OrderedDict.contains dk d0 = false).
  { subst d0. unfold OrderedDict.pop.
    apply delitem_removes. now do 2 apply wf_delitem. }
  destruct (set_appends_after c0 ek (VUser u) None t1 d0 [])
    as (pre1 & E1 & I1); [exact Nek | symmetry; apply app_nil_r | simpl; lia |].
  set (c1 := LRUCache.set c0 ek (VUser u) None t1) in *.
  assert (M1 : LRUCache.max_size c1 = LRUCache.max_size (CachedUserStore.cache s))
    by exact (max_size_set c0 ek (VUser u) None t1).
  assert (T1 : LRUCache.default_ttl c1 = dttl)
    by exact (default_ttl_set c0 ek (VUser u) None t1).
  cbn [app] in E1.
  edestruct (set_appends_after c1 ik (VUser u) None t2 pre1)
    as (pre2 & E2 & I2); [| exact E1 | simpl; lia |].
  { rewrite E1. apply contains_app_false; [eapply contains_incl_false; eauto|].
    reflexivity. }
  set (c2 := LRUCache.set c1 ik (VUser u) None t2) in *.
  assert (M2 : LRUCache.max_size c2 = LRUCache.max_size (CachedUserStore.cache s))
    by (rewrite <- M1; apply max_size_set).
  assert (T2 : LRUCache.default_ttl c2 = dttl)
    by (rewrite <- T1; apply default_ttl_set).
  assert (I20 : incl pre2 d0) by (eapply incl_tran; eauto).
  cbn [app] in E2.
  edestruct (set_appends_after c2 dk (VBool true) None t3 pre2)
    as (pre3 & E3 & I3); [| exact E2 | simpl; lia |].
  { rewrite E2. apply contains_app_false; [eapply contains_incl_false; eauto|].
    reflexivity. }
  assert (I30 : incl pre3 d0) by (eapply incl_tran; eauto).
  exists pre3. split.
  - rewrite E3. simpl. unfold LRUCache.effective_ttl. now rewrite T1, T2.
  - split; [exact I30|].
    repeat split; eapply contains_incl_false; eauto.
Qed.

Lemma save_user_failure_leaves_cache_witness :
  let r := CachedUserStore.save_user read_only_cached_store user2 5%Q 5%Q 5%Q in
  fst r = false /\
  CachedUserStore.cache (snd r) = CachedUserStore.cache read_only_cached_store.
Proof.
  intros r.
  destruct (save_user_failure_leaves_cache read_only_cached_store user2 5%Q 5%Q 5%Q)
    as (H1 & _ & H3 & _).
  split; [exact H1 | exact (H3 eq_refl)].
Defined.

(** C7. Pattern invalidation and its frame.  [invalidate_pattern] keeps, in
    their order and with value and expiry untouched, exactly the bindings
    whose key does not match; the store, the capacity, the default ttl and the
    counters are unchanged.  A pattern without [*] matches by equality;
    [x*] matches the keys that start with [x]; [*x] the keys that end with
    [x]; [a*b] the keys that start with [a] and end with [b].  For ["email:*"]
    the email keys match and the id and dup keys do not. *)
Theorem invalidate_pattern_frame {S : Type} {store : UserStore S}
        (s : CachedUserStore.t S) (p : string) :
  let s' := CachedUserStore.invalidate_pattern s p in
  let d := LRUCache.cache (CachedUserStore.cache s) in
  let d' := LRUCache.cache (CachedUserStore.cache s') in
  d' = filter (fun kv => negb (CachedUserStore._matches_pattern (fst kv) p)) d /\
  CachedUserStore.user_store s' = CachedUserStore.user_store s /\
  CachedUserStore.cache s' = LRUCache.with_cache (CachedUserStore.cache s) d' /\
  (forall key, CachedUserStore._matches_pattern key p = true ->
               OrderedDict.contains key d' = false) /\
  (forall key, CachedUserStore._matches_pattern key p = false ->
               OrderedDict.getitem key d' = OrderedDict.getitem key d) /\
  (forall key q, PyStr.contains_char "*" q = false ->
     (CachedUserStore._matches_pattern key q = true <-> key = q)) /\
  (forall key x,
     CachedUserStore._matches_pattern key (x ++ "*")%string = true <->
     exists r, key = (x ++ r)%string) /\
  (forall key x, PyStr.contains_char "*" x = false ->
     (CachedUserStore._matches_pattern key (String "*" x) = true <->
      exists r, key = (r ++ x)%string)) /\
  (forall key a b,
     PyStr.contains_char "*" a = false -> PyStr.contains_char "*" b = false ->
     (CachedUserStore._matches_pattern key (a ++ String "*" b)%string = true <->
      (exists r, key = (a ++ r)%string) /\ (exists r, key = (r ++ b)%string))) /\
  (forall e uid,
     CachedUserStore._matches_pattern (CachedUserStore._email_key e) "email:*" = true /\
     CachedUserStore._matches_pattern (CachedUserStore._id_key uid) "email:*" = false /\
     CachedUserStore._matches_pattern (CachedUserStore._duplicate_key e) "email:*" = false).
Proof.
  intros s' d d'.
  assert (Hf : d' = filter (fun kv => negb (CachedUserStore._matches_pattern (fst kv) p)) d)
    by apply invalidate_pattern_filter.
  split; [exact Hf|]. split; [reflexivity|]. split; [reflexivity|].
  split.
  { intros key Hk. rewrite Hf.
    apply (contains_filter_drop
             (fun k => negb (CachedUserStore._matches_pattern k p))).
    now rewrite Hk. }
  split.
  { intros key Hk. rewrite Hf.
    apply (getitem_filter_keep
             (fun k => negb (CachedUserStore._matches_pattern k p))).
    now rewrite Hk. }
  split.
  { intros key q Hq. rewrite (matches_literal key q Hq). apply String.eqb_eq. }
  split.
  { intros key x. rewrite matches_prefix. apply startswith_spec. }
  split.
  { intros key x Hx.
    pose proof (matches_one_wildcard key "" x eq_refl Hx) as E.
    change ("" ++ String "*" x)%string with (String "*" x) in E.
    rewrite E. apply endswith_spec. }
  split.
  { intros key a b Ha Hb. rewrite (matches_one_wildcard key a b Ha Hb).
    now rewrite andb_true_iff, startswith_spec, endswith_spec. }
  intros e uid. repeat split; reflexivity.
Qed.

Lemma invalidate_pattern_frame_witness :
  OrderedDict.keys
    (LRUCache.cache (CachedUserStore.cache
                       (CachedUserStore.invalidate_pattern two_saved "email:*"))) =
  ["id:id1"; "dup:user1@example.com"; "id:id2"; "dup:user2@example.com"].
Proof.
  destruct (invalidate_pattern_frame two_saved "email:*") as (H & _).
  rewrite H. reflexivity.
Defined.

(** C10. The bare pattern ["*"] matches every key, so [invalidate_pattern]
    with it empties the cache, whatever the cache holds. *)
Theorem invalidate_star_clears {S : Type} {store : UserStore S}
        (s : CachedUserStore.t S) :
  (forall key, CachedUserStore._matches_pattern key "*" = PyStr.startswith key "") /\
  (forall key, CachedUserStore._matches_pattern key "*" = true) /\
  LRUCache.cache (CachedUserStore.cache (CachedUserStore.invalidate_pattern s "*")) = [] /\
  LRUCache.size (CachedUserStore.cache (CachedUserStore.invalidate_pattern s "*")) = 0.
Proof.
  assert (He : LRUCache.cache
                 (CachedUserStore.cache (CachedUserStore.invalidate_pattern s "*")) = []).
  { rewrite invalidate_pattern_filter.
    induction (LRUCache.cache (CachedUserStore.cache s)) as [|[k e] d IH];
      [reflexivity | exact IH]. }
  split; [reflexivity|]. split; [reflexivity|]. split; [exact He|].
  unfold LRUCache.size. now rewrite He.
Qed.

(** C8. Hit-rate arithmetic, in the binary64 arithmetic of the code.
    [get_stats] reports the int [0] when no request has been counted.
    Otherwise it reports a float [r] that is the float product
    [hits / (hits + misses) * 100] rounded to 2 decimal places: [r] is the
    float nearest to [n / 100] for an integer [n] at most one half away from
    100 times the exact value of that product.  With one hit and one miss the
    rate is the float [50.0]; with misses only it is the float [0.0].
    [clear] empties the cache and resets [hits], [misses] and [evictions] to
    zero, so that the rate is the int [0] again. *)
Theorem hit_rate_arithmetic {V : Type} (c : LRUCache.t V) :
  let rate := LRUCache.stats_hit_rate (LRUCache.get_stats c) in
  let total := LRUCache.hits c + LRUCache.misses c in
  let x := Binary64.mul_int (Binary64.int_truediv (LRUCache.hits c) total) 100 in
  (total <= 0 -> rate = PyInt 0) /\
  (0 < total ->
     exists r : spec_float,
       rate = PyFloat r /\ Binary64.is_rounded_to_2_places x r) /\
  (LRUCache.hits c = 1 -> LRUCache.misses c = 1 ->
     rate = PyFloat (Binary64.of_Z 50)) /\
  (LRUCache.hits c = 0 -> 0 < LRUCache.misses c ->
     rate = PyFloat (S754_zero false)) /\
  (LRUCache.hits (LRUCache.clear c) = 0 /\
   LRUCache.misses (LRUCache.clear c) = 0 /\
   LRUCache.evictions (LRUCache.clear c) = 0 /\
   LRUCache.cache (LRUCache.clear c) = [] /\
   LRUCache.stats_hit_rate (LRUCache.get_stats (LRUCache.clear c)) = PyInt 0).
Proof.
  intros rate total x. subst rate x.
  unfold LRUCache.get_stats, LRUCache.hit_rate.
  cbn [LRUCache.stats_hit_rate]. fold total.
  split; [|split; [|split; [|split]]].
  - intros Ht. replace (total >? 0) with false; [reflexivity|].
    symmetry. rewrite Z.gtb_ltb. now apply Z.ltb_ge.
  - intros Ht. replace (total >? 0) with true
      by (symmetry; rewrite Z.gtb_ltb; now apply Z.ltb_lt).
    eexists. split; [reflexivity|]. apply round2_is_rounded.
  - intros Hh Hm. subst total. rewrite Hh, Hm. vm_compute. reflexivity.
  - intros Hh Hm. subst total. rewrite Hh.
    destruct (LRUCache.misses c) as [|p|p]; try lia. reflexivity.
  - repeat split; reflexivity.
Qed.

Lemma hit_rate_arithmetic_witness :
  let c := LRUCache.run (LRUCache.init 3 10)
             [LRUCache.OpSet "key1" 1%nat None 0%Q; LRUCache.OpGet "key1" 1%Q;
              LRUCache.OpGet "key2" 2%Q] in
  (LRUCache.hits c = 1 /\ LRUCache.misses c = 1) /\
  LRUCache.stats_hit_rate (LRUCache.get_stats c) = PyFloat (Binary64.of_Z 50).
Proof.
  intros c. split; [split; reflexivity|].
  destruct (hit_rate_arithmetic c) as (_ & _ & H & _).
  exact (H eq_refl eq_refl).
Defined.

(** The float [50.0] is exactly fifty. *)
Example fifty_is_exact :
  Binary64.of_Z 50 = S754_finite false 7036874417766400 (-47) /\
  (Binary64.to_Q (Binary64.of_Z 50) == 50)%Q.
Proof. split; reflexivity. Qed.

(** It is the float product that is rounded, not the rational
    [hits / (hits + misses) * 100]: with 23 hits and 137 misses the rational
    is 14.375, the float product is just below it, and [get_stats] reports
    the float nearest to 14.37. *)
Example hit_rate_rounds_the_float :
  let x := Binary64.mul_int (Binary64.int_truediv 23 160) 100 in
  (Binary64.to_Q x < 14375 # 1000)%Q /\
  LRUCache.stats_hit_rate (LRUCache.get_stats cache_23_of_160)
  = PyFloat (Binary64.nearest_hundredths false 1437) /\
  Binary64.nearest_hundredths false 1437
  = S754_finite false 8089590830664253 (-49).
Proof. vm_compute. repeat split. Qed.


(** * Further properties of [LRUCache] *)

Section LRUCacheMore.
Context {V : Type}.
Implicit Types (c : LRUCache.t V) (key k : string) (d : OrderedDict.t (CacheEntry V)).

Lemma getitem_delitem_same key d :
  OrderedDict.wf d -> OrderedDict.getitem key (OrderedDict.delitem key d) = None.
Proof. intros Hwf. apply contains_getitem. now apply delitem_removes. Qed.

Lemma getitem_move_to_end_other key k d :
  k <> key ->
  OrderedDict.getitem k (OrderedDict.move_to_end key d) = OrderedDict.getitem k d.
Proof.
  intros Hne. unfold OrderedDict.move_to_end.
  destruct (OrderedDict.getitem key d) as [e|]; [|reflexivity].
  rewrite getitem_snoc_other by congruence. now apply getitem_delitem_other.
Qed.

Lemma getitem_tl_other (x : string * CacheEntry V) d k :
  k <> fst x -> OrderedDict.getitem k (tl (x :: d)) = OrderedDict.getitem k (x :: d).
Proof.
  destruct x as [k0 e0]. simpl. intros Hne.
  destruct (String.eqb k0 k) eqn:E; [|reflexivity].
  apply String.eqb_eq in E. congruence.
Qed.

Lemma Qle_bool_false (x y : Q) : Qle_bool x y = false <-> (y < x)%Q.
Proof.
  split.
  - intros H. apply Qnot_le_lt. intros Hle. apply Qle_bool_iff in Hle. congruence.
  - intros H. destruct (Qle_bool x y) eqn:E; [|reflexivity].
    apply Qle_bool_iff in E. exfalso. eapply Qlt_not_le; eauto.
Qed.

End LRUCacheMore.

(** X1. [delete] reports whether the key was bound, leaves the key unbound,
    keeps every other binding and all counters, shrinks the cache by one
    exactly when it returns true, and a second [delete] of the same key
    returns false and changes nothing. *)
Theorem delete_removes_only_its_key {V : Type} (c : LRUCache.t V) (key : string) :
  OrderedDict.wf (LRUCache.cache c) ->
  let r := LRUCache.delete c key in
  fst r = OrderedDict.contains key (LRUCache.cache c) /\
  OrderedDict.contains key (LRUCache.cache (snd r)) = false /\
  (forall k, k <> key ->
     OrderedDict.getitem k (LRUCache.cache (snd r)) =
     OrderedDict.getitem k (LRUCache.cache c)) /\
  LRUCache.hits (snd r) = LRUCache.hits c /\
  LRUCache.misses (snd r) = LRUCache.misses c /\
  LRUCache.evictions (snd r) = LRUCache.evictions c /\
  LRUCache.size (snd r) = LRUCache.size c - (if fst r then 1 else 0) /\
  LRUCache.delete (snd r) key = (false, snd r).
Proof.
  intros Hwf r. subst r. unfold LRUCache.delete.
  destruct (OrderedDict.contains key (LRUCache.cache c)) eqn:C; simpl.
  - pose proof (delitem_removes key _ Hwf) as Hr.
    pose proof (length_delitem_present _ _ C) as Hl.
    rewrite Hr. repeat split; try reflexivity.
    + intros k Hk. now apply getitem_delitem_other.
    + unfold LRUCache.size. simpl. lia.
  - rewrite C. repeat split; try reflexivity. unfold LRUCache.size. lia.
Qed.

Lemma delete_removes_only_its_key_witness :
  let c := LRUCache.set (LRUCache.set (LRUCache.init 3 10) "a" 1%nat None 0%Q)
                        "b" 2%nat None 0%Q in
  fst (LRUCache.delete c "a") = true /\
  LRUCache.size (snd (LRUCache.delete c "a")) = 1.
Proof.
  intros c.
  assert (Hwf : OrderedDict.wf (LRUCache.cache c)).
  { repeat constructor; simpl; intuition discriminate. }
  destruct (delete_removes_only_its_key c "a" Hwf) as (H1 & _ & _ & _ & _ & _ & H7 & _).
  split; [exact H1 | exact H7].
Defined.

(** X2. [get] touches only the key it is asked for: every other binding is
    as before, the capacity and the eviction counter are unchanged, exactly
    one of [hits] and [misses] grows by one, the cache never grows, and a
    [get] of an unbound key leaves the dict as it was. *)
Theorem get_touches_only_its_key {V : Type} (c : LRUCache.t V) (key : string) (now : Q) :
  let r := LRUCache.get c key now in
  (forall k, k <> key ->
     OrderedDict.getitem k (LRUCache.cache (snd r)) =
     OrderedDict.getitem k (LRUCache.cache c)) /\
  LRUCache.max_size (snd r) = LRUCache.max_size c /\
  LRUCache.evictions (snd r) = LRUCache.evictions c /\
  ((fst r = None /\ LRUCache.misses (snd r) = LRUCache.misses c + 1 /\
    LRUCache.hits (snd r) = LRUCache.hits c) \/
   (fst r <> None /\ LRUCache.hits (snd r) = LRUCache.hits c + 1 /\
    LRUCache.misses (snd r) = LRUCache.misses c)) /\
  LRUCache.size (snd r) <= LRUCache.size c /\
  (OrderedDict.contains key (LRUCache.cache c) = false ->
     fst r = None /\ LRUCache.cache (snd r) = LRUCache.cache c).
Proof.
  intros r. subst r. unfold LRUCache.get.
  destruct (OrderedDict.getitem key (LRUCache.cache c)) as [e|] eqn:G.
  - pose proof (length_delitem_present _ _ (getitem_Some_contains _ _ _ G)) as Hl.
    assert (Hc : OrderedDict.contains key (LRUCache.cache c) = false -> False).
    { intros C. apply contains_getitem in C. congruence. }
    destruct (is_expired e now); simpl;
      (split; [|split; [reflexivity|split; [reflexivity|split; [|split]]]]).
    + intros k Hk. now apply getitem_delitem_other.
    + left. repeat split; reflexivity.
    + unfold LRUCache.size. simpl. lia.
    + intros C. destruct (Hc C).
    + intros k Hk. now apply getitem_move_to_end_other.
    + right. repeat split; try reflexivity. discriminate.
    + unfold LRUCache.size, OrderedDict.move_to_end. simpl.
      rewrite G, length_app. simpl. lia.
    + intros C. destruct (Hc C).
  - simpl. split; [|split; [reflexivity|split; [reflexivity|split; [|split]]]].
    + reflexivity.
    + left. repeat split; reflexivity.
    + unfold LRUCache.size. simpl. lia.
    + intros _. split; reflexivity.
Qed.

Lemma get_touches_only_its_key_witness :
  let c := LRUCache.set (LRUCache.set (LRUCache.init 3 10) "a" 1%nat (Some 1) 0%Q)
                        "b" 2%nat None 0%Q in
  OrderedDict.getitem "b" (LRUCache.cache (snd (LRUCache.get c "a" 5%Q))) =
  OrderedDict.getitem "b" (LRUCache.cache c) /\
  LRUCache.cache (snd (LRUCache.get c "zz" 5%Q)) = LRUCache.cache c.
Proof.
  intros c. split.
  - destruct (get_touches_only_its_key c "a" 5%Q) as (H & _).
    apply H. discriminate.
  - destruct (get_touches_only_its_key c "zz" 5%Q) as (_ & _ & _ & _ & _ & H).
    exact (proj2 (H eq_refl)).
Defined.

(** X3. Round trip of [set] and [get].  In a cache with room for at least one
    entry, a [get] after a [set] of the same key returns the value while the
    entry is live (ttl [<= 0], or the reading is not past insertion time plus
    ttl) and counts a hit; past that instant it returns nothing, counts a
    miss and unbinds the key. *)
Theorem set_then_get {V : Type} (c : LRUCache.t V) (key : string) (v : V)
        (ttl : option Z) (t0 t1 : Q) :
  1 <= LRUCache.max_size c ->
  OrderedDict.wf (LRUCache.cache c) ->
  let x := LRUCache.effective_ttl c ttl in
  let r := LRUCache.get (LRUCache.set c key v ttl t0) key t1 in
  (x <= 0 \/ (t1 <= t0 + inject_Z x)%Q ->
     fst r = Some v /\
     LRUCache.hits (snd r) = LRUCache.hits c + 1 /\
     LRUCache.misses (snd r) = LRUCache.misses c) /\
  (0 < x /\ (t0 + inject_Z x < t1)%Q ->
     fst r = None /\
     OrderedDict.contains key (LRUCache.cache (snd r)) = false /\
     LRUCache.misses (snd r) = LRUCache.misses c + 1 /\
     LRUCache.hits (snd r) = LRUCache.hits c).
Proof.
  intros Hm Hwf x r. subst r.
  pose proof (set_getitem_same c key v ttl t0 Hm Hwf) as G. fold x in G.
  pose proof (wf_set c key v ttl t0 Hwf) as Hwf'.
  assert (Hh : LRUCache.hits (LRUCache.set c key v ttl t0) = LRUCache.hits c)
    by (unfold LRUCache.set; destruct (_ >? _); reflexivity).
  assert (Hmi : LRUCache.misses (LRUCache.set c key v ttl t0) = LRUCache.misses c)
    by (unfold LRUCache.set; destruct (_ >? _); reflexivity).
  unfold LRUCache.get. rewrite G. unfold is_expired, CacheEntry_init. simpl.
  split.
  - intros Hlive.
    assert (E : match (if x >? 0 then At (t0 + inject_Z x)%Q else Never) with
                | At t => negb (Qle_bool t1 t)
                | Never => false
                end = false).
    { destruct (x >? 0) eqn:Gx; [|reflexivity].
      apply Z.gtb_lt in Gx. destruct Hlive as [Hx | Hq]; [lia|].
      apply Qle_bool_iff in Hq. now rewrite Hq. }
    rewrite E. simpl. rewrite Hh, Hmi. repeat split; reflexivity.
  - intros [Hx Hq].
    replace (x >? 0) with true by (symmetry; rewrite Z.gtb_ltb; now apply Z.ltb_lt).
    apply Qle_bool_false in Hq. rewrite Hq. simpl. rewrite Hh, Hmi.
    repeat split; try reflexivity. now apply delitem_removes.
Qed.

Lemma set_then_get_witness :
  fst (LRUCache.get (LRUCache.set (LRUCache.init 3 10) "k" 5%nat (Some 1) 0%Q)
                    "k" (1 # 2)%Q) = Some 5%nat /\
  fst (LRUCache.get (LRUCache.set (LRUCache.init 3 10) "k" 5%nat (Some 1) 0%Q)
                    "k" 2%Q) = None.
Proof.
  assert (Hwf : OrderedDict.wf (LRUCache.cache (LRUCache.init (V := nat) 3 10)))
    by constructor.
  split.
  - destruct (set_then_get (LRUCache.init 3 10) "k" 5%nat (Some 1) 0%Q (1 # 2)%Q
                ltac:(simpl; lia) Hwf) as [H _].
    apply H. right. simpl. unfold Qle. simpl. lia.
  - destruct (set_then_get (LRUCache.init 3 10) "k" 5%nat (Some 1) 0%Q 2%Q
                ltac:(simpl; lia) Hwf) as [_ H].
    apply H. split; [simpl; lia | unfold Qlt; simpl; lia].
Defined.

(** X4. A [set] on a key that is already bound replaces its entry and makes
    it the most recent one; nothing is evicted, the size is unchanged and
    every other key keeps its binding. *)
Theorem set_existing_key_replaces {V : Type} (c : LRUCache.t V) (key : string)
        (v : V) (ttl : option Z) (now : Q) :
  OrderedDict.wf (LRUCache.cache c) ->
  LRUCache.size c <= LRUCache.max_size c ->
  OrderedDict.contains key (LRUCache.cache c) = true ->
  let c' := LRUCache.set c key v ttl now in
  LRUCache.cache c' =
    OrderedDict.delitem key (LRUCache.cache c)
      ++ [(key, CacheEntry_init v (LRUCache.effective_ttl c ttl) now)] /\
  LRUCache.size c' = LRUCache.size c /\
  LRUCache.evictions c' = LRUCache.evictions c /\
  (forall k, k <> key ->
     OrderedDict.getitem k (LRUCache.cache c') =
     OrderedDict.getitem k (LRUCache.cache c)).
Proof.
  intros Hwf Hs C c'. subst c'.
  pose proof (upsert_present c key v ttl now Hwf C) as Hu.
  pose proof (length_delitem_present _ _ C) as Hl.
  unfold LRUCache.set, LRUCache.size in *. rewrite Hu.
  replace (_ >? _) with false.
  - simpl. repeat split; try reflexivity.
    + rewrite length_app. simpl. lia.
    + intros k Hk. rewrite getitem_snoc_other by congruence.
      now apply getitem_delitem_other.
  - symmetry. rewrite Z.gtb_ltb. apply Z.ltb_ge. rewrite length_app. simpl. lia.
Qed.

Lemma set_existing_key_replaces_witness :
  let c := LRUCache.set (LRUCache.set (LRUCache.init 2 10) "a" 1%nat None 0%Q)
                        "b" 2%nat None 0%Q in
  OrderedDict.keys (LRUCache.cache (LRUCache.set c "a" 7%nat None 1%Q)) = ["b"; "a"] /\
  LRUCache.evictions (LRUCache.set c "a" 7%nat None 1%Q) = 0.
Proof.
  intros c.
  assert (Hwf : OrderedDict.wf (LRUCache.cache c)).
  { repeat constructor; simpl; intuition discriminate. }
  destruct (set_existing_key_replaces c "a" 7%nat None 1%Q Hwf
              ltac:(unfold LRUCache.size; simpl; lia) eq_refl) as (H1 & _ & H3 & _).
  split; [rewrite H1; reflexivity | exact H3].
Defined.


(** * The sweep of expired entries *)

Section CleanupFacts.
Context {V : Type}.
Implicit Types (c : LRUCache.t V) (key k x : string) (d : OrderedDict.t (CacheEntry V))
         (e : CacheEntry V).

Lemma expired_keys_incl d clock i k :
  In k (LRUCache.expired_keys d clock i) -> In k (OrderedDict.keys d).
Proof.
  intros Hin. apply expired_keys_In in Hin. destruct Hin as (e & j & Hin & _).
  change k with (fst (k, e)). now apply in_map.
Qed.

Lemma expired_keys_NoDup d clock i :
  OrderedDict.wf d -> NoDup (LRUCache.expired_keys d clock i).
Proof.
  unfold OrderedDict.wf. revert i.
  induction d as [|[k e] d IH]; simpl; intros i Hwf; [constructor|].
  inversion Hwf as [|? ? Hn Hd]; subst.
  destruct (is_expired e (clock i)); [|auto].
  constructor; [|auto]. intros Hin. apply Hn. eapply expired_keys_incl; eauto.
Qed.

Lemma In_keys_delitem_other k x d :
  In k (OrderedDict.keys d) -> k <> x -> In k (OrderedDict.keys (OrderedDict.delitem x d)).
Proof.
  intros Hin Hne. induction d as [|[k0 e0] d IH]; simpl in *; [tauto|].
  destruct (String.eqb k0 x) eqn:E.
  - apply String.eqb_eq in E. subst. destruct Hin; [congruence | assumption].
  - simpl. tauto.
Qed.

Lemma length_fold_delitem_exact (ks : list string) d :
  NoDup ks -> (forall k, In k ks -> In k (OrderedDict.keys d)) ->
  (List.length (fold_left (fun d x => OrderedDict.delitem x d) ks d) + List.length ks
   = List.length d)%nat.
Proof.
  revert d. induction ks as [|x ks IH]; simpl; intros d Hnd Hin; [lia|].
  inversion Hnd as [|? ? Hx Hks]; subst.
  assert (C : OrderedDict.contains x d = true) by (apply contains_In; auto).
  pose proof (length_delitem_present _ _ C) as Hl.
  rewrite <- Hl, <- (IH (OrderedDict.delitem x d) Hks); [lia|].
  intros k Hk. apply In_keys_delitem_other; [auto | congruence].
Qed.

Lemma getitem_delitem_Some k x d e :
  OrderedDict.wf d ->
  OrderedDict.getitem k (OrderedDict.delitem x d) = Some e ->
  OrderedDict.getitem k d = Some e.
Proof.
  intros Hwf H. destruct (String.eqb k x) eqn:E.
  - apply String.eqb_eq in E. subst. rewrite getitem_delitem_same in H by exact Hwf.
    discriminate.
  - apply String.eqb_neq in E. now rewrite getitem_delitem_other in H.
Qed.

Lemma getitem_fold_delitem_Some (ks : list string) k d e :
  OrderedDict.wf d ->
  OrderedDict.getitem k (fold_left (fun d x => OrderedDict.delitem x d) ks d) = Some e ->
  OrderedDict.getitem k d = Some e.
Proof.
  revert d. induction ks as [|x ks IH]; simpl; intros d Hwf H; [exact H|].
  apply (getitem_delitem_Some k x); [exact Hwf|].
  apply IH; [now apply wf_delitem | exact H].
Qed.

Lemma expired_keys_const d (t : Q) i :
  LRUCache.expired_keys d (fun _ => t) i =
  OrderedDict.keys (filter (fun kv => is_expired (snd kv) t) d).
Proof.
  revert i. induction d as [|[k e] d IH]; simpl; intros i; [reflexivity|].
  destruct (is_expired e t); simpl; now rewrite IH.
Qed.

Lemma keys_filter_incl (P : string * CacheEntry V -> bool) d k :
  In k (OrderedDict.keys (filter P d)) -> In k (OrderedDict.keys d).
Proof.
  unfold OrderedDict.keys. intros Hin. apply in_map_iff in Hin.
  destruct Hin as (x & <- & Hin). apply filter_In in Hin. apply in_map. tauto.
Qed.

Lemma fold_delitem_filter_entries (P : string * CacheEntry V -> bool) d :
  OrderedDict.wf d ->
  fold_left (fun d x => OrderedDict.delitem x d) (OrderedDict.keys (filter P d)) d =
  filter (fun kv => negb (P kv)) d.
Proof.
  unfold OrderedDict.wf. induction d as [|[k e] d IH]; simpl; intros Hwf; [reflexivity|].
  inversion Hwf as [|? ? Hn Hd]; subst.
  destruct (P (k, e)) eqn:Pk; simpl.
  - rewrite String.eqb_refl. auto.
  - rewrite fold_delitem_keeps_head; [now rewrite IH|].
    intros Hin. apply Hn. eapply keys_filter_incl; eauto.
Qed.

Lemma getitem_filter_entries (Q0 : string * CacheEntry V -> bool) d k e :
  OrderedDict.wf d ->
  (OrderedDict.getitem k (filter Q0 d) = Some e <->
   OrderedDict.getitem k d = Some e /\ Q0 (k, e) = true).
Proof.
  unfold OrderedDict.wf. induction d as [|[k0 e0] d IH]; simpl; intros Hwf.
  - split; [discriminate | intros [H _]; discriminate H].
  - inversion Hwf as [|? ? Hn Hd]; subst. specialize (IH Hd).
    destruct (String.eqb k0 k) eqn:E.
    + apply String.eqb_eq in E. subst k0.
      assert (Hnone : OrderedDict.getitem k (filter Q0 d) = None).
      { apply contains_getitem, contains_false_In. intros Hin. apply Hn.
        eapply keys_filter_incl; eauto. }
      destruct (Q0 (k, e0)) eqn:Qk; simpl.
      * rewrite String.eqb_refl. split.
        -- intros H. inversion H; subst. tauto.
        -- tauto.
      * rewrite Hnone. split; [discriminate|].
        intros [H1 H2]. inversion H1; subst. congruence.
    + destruct (Q0 (k0, e0)); simpl; [rewrite E|]; exact IH.
Qed.

Lemma is_expired_earlier e (t t' : Q) :
  (t' <= t)%Q -> is_expired e t = false -> is_expired e t' = false.
Proof.
  unfold is_expired. destruct (expiry e) as [x|]; [|reflexivity].
  rewrite !negb_false_iff, !Qle_bool_iff. intros H1 H2. eapply Qle_trans; eauto.
Qed.

Lemma expired_keys_after_sweep d (t t' : Q) i :
  (t' <= t)%Q ->
  LRUCache.expired_keys (filter (fun kv => negb (is_expired (snd kv) t)) d)
                        (fun _ => t') i = [].
Proof.
  intros Hle. rewrite expired_keys_const.
  induction d as [|[k e] d IH]; simpl; [reflexivity|].
  destruct (is_expired e t) eqn:X; simpl; [exact IH|].
  rewrite (is_expired_earlier e t t' Hle X). exact IH.
Qed.

End CleanupFacts.

(** X5. [cleanup_expired], whatever the clock readings taken during the scan:
    the number returned is the number of entries removed (size before minus
    size after) and is not negative; hits, misses, evictions and capacity are
    untouched; and every binding found afterwards was there before, with the
    same entry. *)
Theorem cleanup_expired_counts_removed {V : Type} (c : LRUCache.t V) (clock : nat -> Q) :
  OrderedDict.wf (LRUCache.cache c) ->
  let r := LRUCache.cleanup_expired c clock in
  fst r = LRUCache.size c - LRUCache.size (snd r) /\
  0 <= fst r /\
  LRUCache.hits (snd r) = LRUCache.hits c /\
  LRUCache.misses (snd r) = LRUCache.misses c /\
  LRUCache.evictions (snd r) = LRUCache.evictions c /\
  LRUCache.max_size (snd r) = LRUCache.max_size c /\
  OrderedDict.wf (LRUCache.cache (snd r)) /\
  (forall k e, OrderedDict.getitem k (LRUCache.cache (snd r)) = Some e ->
               OrderedDict.getitem k (LRUCache.cache c) = Some e).
Proof.
  intros Hwf r. subst r. unfold LRUCache.cleanup_expired, LRUCache.size. simpl.
  pose proof (length_fold_delitem_exact
                (LRUCache.expired_keys (LRUCache.cache c) clock 0) (LRUCache.cache c)
                (expired_keys_NoDup _ clock 0 Hwf)
                (fun k => expired_keys_incl _ clock 0 k)) as Hl.
  split; [lia|]. split; [lia|]. do 4 (split; [reflexivity|]).
  split; [now apply wf_fold_delitem|].
  intros k e. now apply getitem_fold_delitem_Some.
Qed.

Lemma cleanup_expired_counts_removed_witness :
  let c := LRUCache.set (LRUCache.set (LRUCache.set (LRUCache.init 3 10)
             "key1" 1%nat (Some 1) 0%Q) "key2" 2%nat (Some 10) 0%Q)
             "key3" 3%nat (Some 1) 0%Q in
  fst (LRUCache.cleanup_expired c (fun _ => 2%Q)) = 2 /\
  LRUCache.size (snd (LRUCache.cleanup_expired c (fun _ => 2%Q))) = 1.
Proof.
  intros c.
  assert (Hwf : OrderedDict.wf (LRUCache.cache c)).
  { repeat constructor; simpl; intuition discriminate. }
  destruct (cleanup_expired_counts_removed c (fun _ => 2%Q) Hwf) as (H1 & _).
  split; [rewrite H1|]; reflexivity.
Defined.

(** X6. A sweep during which the clock does not advance keeps exactly the
    bindings whose entry is not expired at that reading, and is idempotent:
    a second sweep at the same or an earlier reading removes nothing, returns
    [0] and leaves the cache as it is. *)
Theorem cleanup_expired_idempotent {V : Type} (c : LRUCache.t V) (t t' : Q) :
  OrderedDict.wf (LRUCache.cache c) ->
  (t' <= t)%Q ->
  let r := LRUCache.cleanup_expired c (fun _ => t) in
  LRUCache.cache (snd r) =
    filter (fun kv => negb (is_expired (snd kv) t)) (LRUCache.cache c) /\
  (forall k e,
     OrderedDict.getitem k (LRUCache.cache (snd r)) = Some e <->
     OrderedDict.getitem k (LRUCache.cache c) = Some e /\ is_expired e t = false) /\
  LRUCache.cleanup_expired (snd r) (fun _ => t') = (0, snd r).
Proof.
  intros Hwf Hle r.
  assert (Hc : LRUCache.cache (snd r) =
               filter (fun kv => negb (is_expired (snd kv) t)) (LRUCache.cache c)).
  { subst r. unfold LRUCache.cleanup_expired. simpl. rewrite expired_keys_const.
    now apply (fold_delitem_filter_entries (fun kv => is_expired (snd kv) t)). }
  split; [exact Hc|]. split.
  - intros k e. rewrite Hc.
    rewrite (getitem_filter_entries (fun kv => negb (is_expired (snd kv) t)) _ k e Hwf).
    simpl. now rewrite negb_true_iff.
  - assert (He : LRUCache.expired_keys (LRUCache.cache (snd r)) (fun _ => t') 0 = []).
    { rewrite Hc. now apply expired_keys_after_sweep. }
    unfold LRUCache.cleanup_expired at 1. rewrite He. reflexivity.
Qed.

Lemma cleanup_expired_idempotent_witness :
  let c := LRUCache.set (LRUCache.set (LRUCache.init 3 10)
             "key1" 1%nat (Some 1) 0%Q) "key2" 2%nat (Some 10) 0%Q in
  let r := LRUCache.cleanup_expired c (fun _ => 2%Q) in
  LRUCache.cleanup_expired (snd r) (fun _ => 2%Q) = (0, snd r).
Proof.
  intros c r.
  assert (Hwf : OrderedDict.wf (LRUCache.cache c)).
  { repeat constructor; simpl; intuition discriminate. }
  destruct (cleanup_expired_idempotent c 2%Q 2%Q Hwf ltac:(apply Qle_refl))
    as (_ & _ & H).
  exact H.
Defined.


(** * Counters and the reported hit rate *)

Section CounterFacts.
Context {V : Type}.
Implicit Types (c : LRUCache.t V) (op : LRUCache.Op V).

Lemma step_counters c op :
  (LRUCache.is_clear op = true /\
   LRUCache.hits (LRUCache.step c op) = 0 /\
   LRUCache.misses (LRUCache.step c op) = 0 /\
   LRUCache.evictions (LRUCache.step c op) = 0)
  \/
  (LRUCache.is_clear op = false /\
   LRUCache.hits c <= LRUCache.hits (LRUCache.step c op) /\
   LRUCache.misses c <= LRUCache.misses (LRUCache.step c op) /\
   LRUCache.evictions c <= LRUCache.evictions (LRUCache.step c op) /\
   LRUCache.evictions (LRUCache.step c op) <=
     LRUCache.evictions c + (if LRUCache.is_set op then 1 else 0) /\
   LRUCache.hits (LRUCache.step c op) + LRUCache.misses (LRUCache.step c op) =
     LRUCache.hits c + LRUCache.misses c + (if LRUCache.is_get op then 1 else 0)).
Proof.
  destruct op as [key now|key v ttl now|key| |clock]; simpl.
  - right. split; [reflexivity|]. unfold LRUCache.get.
    destruct (OrderedDict.getitem key (LRUCache.cache c)) as [e|];
      [destruct (is_expired e now)|]; simpl; lia.
  - right. split; [reflexivity|]. unfold LRUCache.set.
    destruct (_ >? _); simpl; lia.
  - right. split; [reflexivity|]. unfold LRUCache.delete.
    destruct (OrderedDict.contains key (LRUCache.cache c)); simpl; lia.
  - left. repeat split; reflexivity.
  - right. split; [reflexivity|]. simpl. lia.
Qed.

Lemma run_counters (ops : list (LRUCache.Op V)) c :
  0 <= LRUCache.hits c -> 0 <= LRUCache.misses c -> 0 <= LRUCache.evictions c ->
  let c' := LRUCache.run c ops in
  let gets := Z.of_nat (List.length (filter LRUCache.is_get ops)) in
  let sets := Z.of_nat (List.length (filter LRUCache.is_set ops)) in
  0 <= LRUCache.hits c' /\ 0 <= LRUCache.misses c' /\ 0 <= LRUCache.evictions c' /\
  LRUCache.hits c' + LRUCache.misses c' <= LRUCache.hits c + LRUCache.misses c + gets /\
  LRUCache.evictions c' <= LRUCache.evictions c + sets /\
  (forallb (fun op => negb (LRUCache.is_clear op)) ops = true ->
   LRUCache.hits c' + LRUCache.misses c' = LRUCache.hits c + LRUCache.misses c + gets).
Proof.
  revert c. induction ops as [|op ops IH]; intros c Hh Hm He; simpl.
  - repeat split; try lia.
  - specialize (IH (LRUCache.step c op)). simpl in IH.
    destruct (step_counters c op)
      as [(Hc & S1 & S2 & S3) | (Hc & S1 & S2 & S3 & S4 & S5)];
      rewrite Hc; simpl;
      (destruct IH as (I1 & I2 & I3 & I4 & I5 & I6); [lia | lia | lia |]);
      destruct (LRUCache.is_get op), (LRUCache.is_set op); simpl List.length;
      repeat split; try lia; try discriminate;
      intros Hall; specialize (I6 Hall); lia.
Qed.

End CounterFacts.


(** * Bounds on the binary64 operations of the hit rate *)

Section FloatBounds.

Lemma round_half_even_nonneg (y : Q) : (0 <= y)%Q -> 0 <= round_half_even y.
Proof.
  intros Hy. unfold round_half_even.
  assert (Hf : 0 <= Qfloor y).
  { change 0 with (Qfloor 0). now apply Qfloor_resp_le. }
  destruct (y - inject_Z (Qfloor y) ?= 1 # 2)%Q; [destruct (Z.even _)| |]; lia.
Qed.

Lemma round_half_even_le (y : Q) (N : Z) :
  (y <= inject_Z N)%Q -> round_half_even y <= N.
Proof.
  intros Hy. unfold round_half_even.
  assert (Hf : Qfloor y <= N).
  { rewrite <- (Qfloor_Z N). now apply Qfloor_resp_le. }
  pose proof (Qfloor_le y) as Hlo.
  assert (Hstrict : (1 # 2 <= y - inject_Z (Qfloor y))%Q -> Qfloor y + 1 <= N).
  { intros Hr. destruct (Z.eq_dec (Qfloor y) N) as [E|E]; [|lia].
    rewrite E in *. lra. }
  destruct (y - inject_Z (Qfloor y) ?= 1 # 2)%Q eqn:Cmp.
  - apply Qeq_alt in Cmp. destruct (Z.even _); [lia|]. apply Hstrict. lra.
  - lia.
  - apply Qgt_alt in Cmp. apply Hstrict. lra.
Qed.

(** An invariant indexed by the number of iterations survives [iter_pos]. *)
Lemma iter_pos_invariant {A : Type} (f : A -> A) (P : Z -> A -> Prop) :
  (forall k x, 0 <= k -> P k x -> P (k + 1) (f x)) ->
  forall n k x, 0 <= k -> P k x -> P (k + Zpos n) (iter_pos f n x).
Proof.
  intros Hf. induction n as [n IH|n IH|]; intros k x Hk HP; simpl.
  - replace (k + Zpos n~1) with ((k + 1 + Zpos n) + Zpos n) by lia.
    apply IH; [lia|]. apply IH; [lia|]. now apply Hf.
  - replace (k + Zpos n~0) with ((k + Zpos n) + Zpos n) by lia.
    apply IH; [lia|]. now apply IH.
  - now apply Hf.
Qed.

(** One right shift keeps the bound, and makes it strict when the bit
    shifted out is set. *)
Lemma shr_1_inv T k mrs :
  0 <= k -> Binary64.shr_inv T k mrs -> Binary64.shr_inv T (k + 1) (shr_1 mrs).
Proof.
  intros Hk (H0 & H1 & H2). unfold Binary64.shr_inv.
  replace (k + 1) with (Z.succ k) by lia. rewrite Z.pow_succ_r by lia.
  assert (Hp : 0 < 2 ^ k) by (apply Z.pow_pos_nonneg; lia).
  destruct mrs as [m r s]. cbn [shr_m shr_r shr_s] in *.
  destruct m as [|[p|p|]|p]; cbn [shr_1 shr_m shr_r shr_s].
  - split; [lia|]. split; [lia|]. intros H. apply H2 in H. lia.
  - rewrite Pos2Z.inj_xI in H1.
    replace ((2 * Zpos p + 1) * 2 ^ k) with (Zpos p * (2 * 2 ^ k) + 2 ^ k) in H1 by ring.
    split; [lia|]. split; [lia|]. intros _. lia.
  - rewrite Pos2Z.inj_xO in H1, H2.
    replace (2 * Zpos p * 2 ^ k) with (Zpos p * (2 * 2 ^ k)) in H1, H2 by ring.
    split; [lia|]. split; [lia|]. intros H. apply H2 in H. lia.
  - split; [lia|]. split; [lia|]. intros _. lia.
  - lia.
Qed.

Lemma digits2_pos_le p : 2 ^ Zpos (digits2_pos p) <= 2 * Zpos p.
Proof.
  induction p as [p IH|p IH|]; simpl digits2_pos.
  - rewrite Pos2Z.inj_succ, Z.pow_succ_r by lia. lia.
  - rewrite Pos2Z.inj_succ, Z.pow_succ_r by lia. lia.
  - reflexivity.
Qed.

(** A mantissa for a value of at most 128 is rounded at an exponent that is
    not positive. *)
Lemma fexp_nonpos B m e :
  1 <= B <= 128 -> 0 <= m -> e <= 0 -> m <= B * 2 ^ (- e) ->
  fexp Binary64.prec Binary64.emax (Zdigits2 m + e) <= 0.
Proof.
  intros HB Hm He Hle. unfold fexp, emin, Binary64.prec, Binary64.emax.
  destruct m as [|p|p]; [simpl; lia| |lia].
  cbn [Zdigits2].
  pose proof (digits2_pos_le p) as Hd.
  assert (Hp : 0 < 2 ^ (- e)) by (apply Z.pow_pos_nonneg; lia).
  assert (H8 : 2 ^ Zpos (digits2_pos p) <= 2 ^ (8 - e)).
  { replace (8 - e) with (8 + - e) by lia. rewrite Z.pow_add_r by lia.
    change (2 ^ 8) with 256. nia. }
  apply Z.pow_le_mono_r_iff in H8; lia.
Qed.

(** Truncation to the precision of the format keeps the bound [B]; the
    bound is strict when the truncation, or what came before it, was
    inexact. *)
Lemma shr_fexp_at_most B m e l :
  1 <= B <= 128 -> 0 <= m -> e <= 0 -> m <= B * 2 ^ (- e) ->
  (l <> loc_Exact -> m < B * 2 ^ (- e)) ->
  let r := shr_fexp Binary64.prec Binary64.emax m e l in
  0 <= shr_m (fst r) /\ snd r <= 0 /\
  shr_m (fst r) <= B * 2 ^ (- snd r) /\
  (loc_of_shr_record (fst r) <> loc_Exact -> shr_m (fst r) < B * 2 ^ (- snd r)).
Proof.
  intros HB Hm He Hle Hlt r. subst r.
  pose proof (fexp_nonpos B m e HB Hm He Hle) as Hf.
  unfold shr_fexp, shr.
  set (mrs := shr_record_of_loc m l).
  assert (Hmrs : Binary64.shr_inv (B * 2 ^ (- e)) 0 mrs).
  { unfold Binary64.shr_inv, mrs. rewrite Z.mul_1_r.
    destruct l as [|[| |]]; cbn [shr_record_of_loc shr_m shr_r shr_s];
      (split; [exact Hm|]; split; [exact Hle|]); intros H;
      try discriminate H; apply Hlt; discriminate. }
  assert (Hloc : forall x : shr_record,
             loc_of_shr_record x <> loc_Exact -> orb (shr_r x) (shr_s x) = true).
  { intros [m0 [|] [|]]; simpl; intros H; try reflexivity. now elim H. }
  destruct (fexp Binary64.prec Binary64.emax (Zdigits2 m + e) - e) as [|n|n] eqn:En;
    cbn [fst snd].
  - destruct Hmrs as (A0 & A1 & A2). rewrite Z.mul_1_r in A1, A2.
    split; [exact A0|]. split; [exact He|]. split; [exact A1|].
    intros H. apply A2. now apply Hloc.
  - pose proof (iter_pos_invariant shr_1 (Binary64.shr_inv (B * 2 ^ (- e)))
                  (shr_1_inv (B * 2 ^ (- e))) n 0 mrs ltac:(lia) Hmrs) as HJ.
    rewrite Z.add_0_l in HJ. destruct HJ as (A0 & A1 & A2).
    set (m' := shr_m (iter_pos shr_1 n mrs)) in *.
    assert (He' : e + Zpos n <= 0) by lia.
    assert (Epow : 2 ^ (- e) = 2 ^ (- (e + Zpos n)) * 2 ^ Zpos n).
    { rewrite <- Z.pow_add_r by lia. f_equal. lia. }
    assert (Hp : 0 < 2 ^ Zpos n) by (apply Z.pow_pos_nonneg; lia).
    rewrite Epow in A1, A2.
    split; [exact A0|]. split; [exact He'|]. split; [nia|].
    intros H. apply Hloc in H. apply A2 in H. nia.
  - destruct Hmrs as (A0 & A1 & A2). rewrite Z.mul_1_r in A1, A2.
    split; [exact A0|]. split; [exact He|]. split; [exact A1|].
    intros H. apply A2. now apply Hloc.
Qed.

(** Rounding to nearest never crosses an integer bound [B <= 128]: rounding
    up happens only from strictly below [B], which is itself a multiple of
    the unit at a non-positive exponent; and there is no overflow. *)
Lemma binary_round_aux_at_most B m e l :
  1 <= B <= 128 -> 0 <= m -> e <= 0 -> m <= B * 2 ^ (- e) ->
  (l <> loc_Exact -> m < B * 2 ^ (- e)) ->
  Binary64.at_most B (binary_round_aux Binary64.prec Binary64.emax false m e l).
Proof.
  intros HB Hm He Hle Hlt. unfold binary_round_aux.
  pose proof (shr_fexp_at_most B m e l HB Hm He Hle Hlt) as H1.
  destruct (shr_fexp Binary64.prec Binary64.emax m e l) as [mrs' e'].
  cbn [fst snd] in H1. destruct H1 as (A0 & A1 & A2 & A3).
  set (m1 := round_nearest_even (shr_m mrs') (loc_of_shr_record mrs')).
  assert (Hm1 : 0 <= m1 <= B * 2 ^ (- e')).
  { unfold m1, round_nearest_even.
    destruct (loc_of_shr_record mrs') as [|[| |]] eqn:L.
    - lia.
    - assert (shr_m mrs' < B * 2 ^ (- e')) by (apply A3; discriminate).
      destruct (Z.even (shr_m mrs')); lia.
    - lia.
    - assert (shr_m mrs' < B * 2 ^ (- e')) by (apply A3; discriminate). lia. }
  pose proof (shr_fexp_at_most B m1 e' loc_Exact HB (proj1 Hm1) A1 (proj2 Hm1)
                ltac:(intros H; now elim H)) as H2.
  destruct (shr_fexp Binary64.prec Binary64.emax m1 e' loc_Exact) as [mrs'' e''].
  cbn [fst snd] in H2. destruct H2 as (B0 & B1 & B2 & _).
  destruct (shr_m mrs'') as [|p|p] eqn:Em.
  - now left.
  - replace (e'' <=? Binary64.emax - Binary64.prec) with true
      by (symmetry; apply Z.leb_le; unfold Binary64.emax, Binary64.prec; lia).
    right. exists p, e''. auto.
  - lia.
Qed.

(** The division is marked inexact only when its remainder is not zero. *)
Lemma new_location_exact nb_steps k :
  new_location nb_steps k <> loc_Exact -> k <> 0.
Proof.
  intros H E. apply H. subst k. unfold new_location.
  destruct (Z.even nb_steps); reflexivity.
Qed.

(** The quotient of two positive ints [mx <= B * my]. *)
Lemma int_truediv_at_most B (mx my : positive) :
  1 <= B <= 128 -> Zpos mx <= B * Zpos my ->
  Binary64.at_most B (Binary64.int_truediv (Zpos mx) (Zpos my)).
Proof.
  intros HB Hle. unfold Binary64.int_truediv, Binary64.of_int, SFdiv.
  cbn [xorb]. unfold SFdiv_core_binary.
  set (e' := Z.min _ _).
  assert (He' : e' <= 0) by (unfold e'; lia).
  replace (0 - 0 - e') with (- e') by lia.
  set (m' := match - e' with Z0 => Zpos mx | Zpos _ => Z.shiftl (Zpos mx) (- e') | Zneg _ => 0 end).
  assert (Em : m' = Zpos mx * 2 ^ (- e')).
  { unfold m'. destruct (- e') as [|s|s] eqn:Es.
    - simpl. lia.
    - now rewrite Z.shiftl_mul_pow2 by lia.
    - lia. }
  pose proof (Z_div_mod m' (Zpos my) ltac:(lia)) as Hdiv.
  destruct (Z.div_eucl m' (Zpos my)) as [q r]. destruct Hdiv as [Eq Hr].
  assert (Hp : 0 < 2 ^ (- e')) by (apply Z.pow_pos_nonneg; lia).
  assert (Hq0 : 0 <= q) by nia.
  assert (Hq1 : Zpos my * q + r <= Zpos my * (B * 2 ^ (- e'))) by nia.
  apply binary_round_aux_at_most; try assumption.
  - nia.
  - intros Hl. apply new_location_exact in Hl. nia.
Qed.

(** The product of a float that is at most 1 by the int 100. *)
Lemma mul_int_at_most (x : spec_float) :
  Binary64.at_most 1 x -> Binary64.at_most 100 (Binary64.mul_int x 100).
Proof.
  intros [->|(m & e & -> & He & Hm)]; [now left|].
  unfold Binary64.mul_int.
  change (Binary64.of_Z 100) with (S754_finite false 7036874417766400 (-46)).
  unfold SFmul. cbn [xorb].
  assert (Hp : 0 < 2 ^ (- e)) by (apply Z.pow_pos_nonneg; lia).
  apply binary_round_aux_at_most; try lia.
  - replace (- (e + -46)) with (- e + 46) by lia.
    rewrite Z.pow_add_r by lia. rewrite Pos2Z.inj_mul.
    change (Zpos 7036874417766400) with (100 * 2 ^ 46). nia.
  - intros H. now elim H.
Qed.

(** The exact value of a float that is [at_most B]. *)
Lemma to_Q_at_most B (r : spec_float) :
  1 <= B -> Binary64.at_most B r ->
  Binary64.is_finite r = true /\ (0 <= Binary64.to_Q r <= inject_Z B)%Q.
Proof.
  intros HB [->|(m & e & -> & He & Hm)].
  - split; [reflexivity|]. simpl. split; [apply Qle_refl|].
    change 0%Q with (inject_Z 0). rewrite <- Zle_Qle. lia.
  - split; [reflexivity|]. cbn [Binary64.to_Q].
    assert (Hp : 0 < 2 ^ (- e)) by (apply Z.pow_pos_nonneg; lia).
    assert (E : (Qpower 2 e == / inject_Z (2 ^ (- e)))%Q).
    { rewrite Zpower_Qpower by lia. change (inject_Z 2) with 2%Q.
      rewrite Qpower_opp. now rewrite Qinv_involutive. }
    rewrite E.
    assert (HP : (0 < inject_Z (2 ^ (- e)))%Q).
    { change 0%Q with (inject_Z 0). now rewrite <- Zlt_Qlt. }
    split.
    + apply Qle_shift_div_l; [exact HP|]. rewrite Qmult_0_l.
      change 0%Q with (inject_Z 0). rewrite <- Zle_Qle. lia.
    + apply Qle_shift_div_r; [exact HP|]. rewrite <- inject_Z_mult.
      now rewrite <- Zle_Qle.
Qed.

(** [round(x, 2)] of a float between 0 and 100 is between 0 and 100. *)
Lemma round2_at_most (x : spec_float) :
  Binary64.at_most 100 x -> Binary64.at_most 100 (Binary64.round2 x).
Proof.
  intros Hx.
  destruct (to_Q_at_most 100 x ltac:(lia) Hx) as [_ [H0 H1]].
  destruct Hx as [->|(m & e & -> & He & Hm)]; [now left|].
  unfold Binary64.round2.
  set (q := (Binary64.to_Q (S754_finite false m e) * 100)%Q) in *.
  assert (Hn0 : 0 <= round_half_even q).
  { apply round_half_even_nonneg. unfold q. change (inject_Z 100) with 100%Q in H1. lra. }
  assert (Hn1 : round_half_even q <= 10000).
  { apply round_half_even_le. unfold q.
    change (inject_Z 100) with 100%Q in H1. change (inject_Z 10000) with 10000%Q. lra. }
  unfold Binary64.nearest_hundredths.
  destruct (round_half_even q) as [|n|n]; [now left| |lia].
  apply (int_truediv_at_most 100 n 100); lia.
Qed.

(** The rate of [h] hits among [t] requests. *)
Lemma rate_at_most (h t : Z) :
  0 <= h -> 0 < t -> h <= t ->
  Binary64.at_most 100
    (Binary64.round2 (Binary64.mul_int (Binary64.int_truediv h t) 100)).
Proof.
  intros Hh Ht Hle. apply round2_at_most, mul_int_at_most.
  destruct t as [|pt|pt]; try lia.
  destruct h as [|ph|ph]; try lia.
  - now left.
  - apply (int_truediv_at_most 1 ph pt); lia.
Qed.

End FloatBounds.

(** X7. From a fresh cache, after any sequence of operations, the three
    counters are never negative; [hits + misses] is at most the number of
    [get] calls and [evictions] at most the number of [set] calls; and when
    the sequence contains no [clear], [hits + misses] is exactly the number
    of [get] calls. *)
Theorem counters_count_requests {V : Type} (m dttl : Z) (ops : list (LRUCache.Op V)) :
  let c := LRUCache.run (LRUCache.init m dttl) ops in
  let gets := Z.of_nat (List.length (filter LRUCache.is_get ops)) in
  let sets := Z.of_nat (List.length (filter LRUCache.is_set ops)) in
  0 <= LRUCache.hits c /\ 0 <= LRUCache.misses c /\ 0 <= LRUCache.evictions c /\
  LRUCache.hits c + LRUCache.misses c <= gets /\
  LRUCache.evictions c <= sets /\
  (forallb (fun op => negb (LRUCache.is_clear op)) ops = true ->
   LRUCache.hits c + LRUCache.misses c = gets).
Proof.
  intros c gets sets.
  destruct (run_counters ops (LRUCache.init m dttl)) as (H1 & H2 & H3 & H4 & H5 & H6);
    simpl; try lia.
  simpl in H4, H5, H6. repeat split; try assumption.
Qed.

Lemma counters_count_requests_witness :
  let c := LRUCache.run (LRUCache.init 3 10)
             [LRUCache.OpSet "key1" 1%nat None 0%Q; LRUCache.OpGet "key1" 1%Q;
              LRUCache.OpGet "key2" 2%Q] in
  LRUCache.hits c + LRUCache.misses c = 2.
Proof.
  intros c.
  destruct (counters_count_requests 3 10
              [LRUCache.OpSet "key1" 1%nat None 0%Q; LRUCache.OpGet "key1" 1%Q;
               LRUCache.OpGet "key2" 2%Q]) as (_ & _ & _ & _ & _ & H).
  exact (H eq_refl).
Defined.



(** X8. With counters that are not negative (as in every reachable cache),
    the hit rate that [get_stats] reports is the int [0] when nothing has
    been requested, and otherwise a finite float whose exact value lies
    between 0 and 100. *)
Theorem hit_rate_within_percent {V : Type} (c : LRUCache.t V) :
  0 <= LRUCache.hits c -> 0 <= LRUCache.misses c ->
  match LRUCache.stats_hit_rate (LRUCache.get_stats c) with
  | PyInt z => z = 0 /\ LRUCache.hits c + LRUCache.misses c = 0
  | PyFloat r =>
      0 < LRUCache.hits c + LRUCache.misses c /\
      Binary64.is_finite r = true /\
      (0 <= Binary64.to_Q r <= 100)%Q
  end.
Proof.
  intros Hh Hm. unfold LRUCache.get_stats, LRUCache.hit_rate.
  cbn [LRUCache.stats_hit_rate].
  destruct (LRUCache.hits c + LRUCache.misses c >? 0) eqn:G; cbn [py_round2].
  - apply Z.gtb_lt in G. split; [exact G|].
    apply (to_Q_at_most 100); [lia|].
    apply rate_at_most; lia.
  - split; [reflexivity|]. rewrite Z.gtb_ltb in G. apply Z.ltb_ge in G. lia.
Qed.

Lemma hit_rate_within_percent_witness :
  match LRUCache.stats_hit_rate (LRUCache.get_stats cache_23_of_160) with
  | PyInt _ => False
  | PyFloat r => (0 <= Binary64.to_Q r <= 100)%Q
  end.
Proof.
  pose proof (hit_rate_within_percent cache_23_of_160
                ltac:(simpl; lia) ltac:(simpl; lia)) as H.
  destruct (LRUCache.stats_hit_rate (LRUCache.get_stats cache_23_of_160)) as [z|r].
  - destruct H as [_ H]. simpl in H. lia.
  - exact (proj2 (proj2 H)).
Defined.

(** * Insertion order is eviction order when nothing is read *)

Section InsertionOrder.
Context {V : Type}.
Implicit Types (c : LRUCache.t V) (d : OrderedDict.t (CacheEntry V)).

Lemma keys_tl d : OrderedDict.keys (tl d) = tl (OrderedDict.keys d).
Proof. destruct d; reflexivity. Qed.

Lemma tl_skipn {A : Type} (l : list A) (n : nat) : tl (skipn n l) = skipn (Datatypes.S n) l.
Proof.
  revert l. induction n as [|n IH]; intros [|x l]; simpl; try reflexivity.
  apply IH.
Qed.

Lemma run_app (ops1 ops2 : list (LRUCache.Op V)) c :
  LRUCache.run c (ops1 ++ ops2) = LRUCache.run (LRUCache.run c ops1) ops2.
Proof. apply fold_left_app. Qed.

End InsertionOrder.

(** X9. Without reads, recency is insertion order: after inserting distinct
    keys into a fresh cache with [max_size >= 1], the cache holds the last
    [max_size] of them (all of them when there are fewer), oldest first, and
    [evictions] counts the ones that were dropped. *)
Theorem inserts_keep_most_recent {V : Type} (m dttl : Z)
        (items : list (string * V * option Z * Q)) :
  1 <= m ->
  NoDup (map (fun it => fst (fst (fst it))) items) ->
  let c := LRUCache.run (LRUCache.init m dttl) (map LRUCache.OpSet_of items) in
  let dropped := (List.length items - Z.to_nat m)%nat in
  OrderedDict.keys (LRUCache.cache c) =
    skipn dropped (map (fun it => fst (fst (fst it))) items) /\
  LRUCache.evictions c = Z.of_nat dropped.
Proof.
  intros Hm. induction items as [|[[[k v] ttl] now] items IH] using rev_ind;
    intros Hnd; [split; reflexivity|].
  rewrite map_app in Hnd. simpl in Hnd.
  assert (Hnd' : NoDup (map (fun it => fst (fst (fst it))) items) /\
                 ~ In k (map (fun it => fst (fst (fst it))) items)).
  { apply NoDup_remove in Hnd. rewrite app_nil_r in Hnd. tauto. }
  destruct Hnd' as [Hnd1 Hk]. specialize (IH Hnd1). simpl in IH.
  destruct IH as [IHk IHe].
  intros c dropped. subst c dropped.
  rewrite !map_app, run_app, length_app. simpl.
  set (c0 := LRUCache.run (LRUCache.init m dttl) (map LRUCache.OpSet_of items)) in *.
  set (ks := map (fun it => fst (fst (fst it))) items) in *.
  assert (Hlen : List.length ks = List.length items) by apply length_map.
  destruct (run_capacity (map LRUCache.OpSet_of items) (LRUCache.init m dttl))
    as [Em _]; [exact Hm | unfold LRUCache.size; simpl; lia |].
  fold c0 in Em. simpl in Em.
  assert (Hc : OrderedDict.contains k (LRUCache.cache c0) = false).
  { apply contains_false_In. rewrite IHk. intros Hin. apply Hk.
    rewrite <- (firstn_skipn (List.length items - Z.to_nat m) ks).
    apply in_or_app. now right. }
  assert (Hl : List.length (LRUCache.cache c0)
               = (List.length items - (List.length items - Z.to_nat m))%nat).
  { rewrite <- (length_map fst). change (map fst (LRUCache.cache c0))
      with (OrderedDict.keys (LRUCache.cache c0)).
    rewrite IHk, length_skipn. lia. }
  unfold LRUCache.set. rewrite upsert_absent by exact Hc. rewrite Em.
  rewrite length_app. simpl List.length.
  destruct (Z.of_nat (List.length (LRUCache.cache c0) + 1) >? m) eqn:G.
  - apply Z.gtb_lt in G. simpl.
    assert (Hd : (List.length items + 1 - Z.to_nat m
                  = Datatypes.S (List.length items - Z.to_nat m))%nat) by lia.
    rewrite Hd. split; [|lia].
    unfold OrderedDict.popitem_first. rewrite keys_tl, keys_app, IHk.
    rewrite <- (tl_skipn (ks ++ [k])). f_equal.
    rewrite skipn_app.
    replace (List.length items - Z.to_nat m - List.length ks)%nat with 0%nat by lia.
    reflexivity.
  - assert (G' : Z.of_nat (List.length (LRUCache.cache c0) + 1) <= m).
    { rewrite Z.gtb_ltb in G. now apply Z.ltb_ge in G. }
    simpl.
    replace (List.length items + 1 - Z.to_nat m)%nat with 0%nat by lia.
    replace (List.length items - Z.to_nat m)%nat with 0%nat in * by lia.
    simpl in *. split; [|lia]. now rewrite keys_app, IHk.
Qed.

Lemma inserts_keep_most_recent_witness :
  OrderedDict.keys
    (LRUCache.cache
       (LRUCache.run (LRUCache.init 2 10)
          (map LRUCache.OpSet_of
               [("a", 1%nat, None, 0%Q); ("b", 2%nat, None, 0%Q);
                ("c", 3%nat, None, 0%Q)]))) = ["b"; "c"].
Proof.
  assert (Hnd : NoDup (map (fun it : string * nat * option Z * Q => fst (fst (fst it)))
                           [("a", 1%nat, None, 0%Q); ("b", 2%nat, None, 0%Q);
                            ("c", 3%nat, None, 0%Q)])).
  { repeat constructor; simpl; intuition discriminate. }
  destruct (inserts_keep_most_recent 2 10 _ ltac:(lia) Hnd) as [H _].
  exact H.
Defined.


(** * The derived keys of the wrapper *)

Section KeyFacts.

Lemma lower_char_idempotent (a : ascii) :
  PyStr.lower_char (PyStr.lower_char a) = PyStr.lower_char a.
Proof. destruct a as [[] [] [] [] [] [] [] []]; reflexivity. Qed.

Lemma lower_idempotent (s : string) : PyStr.lower (PyStr.lower s) = PyStr.lower s.
Proof.
  induction s as [|a s IH]; simpl; [reflexivity|].
  now rewrite lower_char_idempotent, IH.
Qed.

Lemma email_key_lower (e : string) :
  CachedUserStore._email_key (PyStr.lower e) = CachedUserStore._email_key e.
Proof. unfold CachedUserStore._email_key. now rewrite lower_idempotent. Qed.

Lemma duplicate_key_lower (e : string) :
  CachedUserStore._duplicate_key (PyStr.lower e) = CachedUserStore._duplicate_key e.
Proof. unfold CachedUserStore._duplicate_key. now rewrite lower_idempotent. Qed.

End KeyFacts.

(** X10. The three kinds of derived key never collide, whatever the email
    and the id are.  The id key determines the id, which is not lower-cased.
    Two emails get the same email key, and the same dup key, exactly when
    [str.lower] maps them to the same string; in particular lower-casing an
    email before deriving a key changes nothing. *)
Theorem derived_keys_namespaces (e1 e2 u1 u2 : string) :
  CachedUserStore._email_key e1 <> CachedUserStore._id_key u1 /\
  CachedUserStore._email_key e1 <> CachedUserStore._duplicate_key e2 /\
  CachedUserStore._id_key u1 <> CachedUserStore._duplicate_key e1 /\
  (CachedUserStore._id_key u1 = CachedUserStore._id_key u2 <-> u1 = u2) /\
  (CachedUserStore._email_key e1 = CachedUserStore._email_key e2 <->
   PyStr.lower e1 = PyStr.lower e2) /\
  (CachedUserStore._duplicate_key e1 = CachedUserStore._duplicate_key e2 <->
   PyStr.lower e1 = PyStr.lower e2) /\
  CachedUserStore._email_key (PyStr.lower e1) = CachedUserStore._email_key e1 /\
  CachedUserStore._duplicate_key (PyStr.lower e1) = CachedUserStore._duplicate_key e1.
Proof.
  unfold CachedUserStore._email_key, CachedUserStore._id_key,
    CachedUserStore._duplicate_key.
  split; [discriminate|]. split; [discriminate|]. split; [discriminate|].
  split; [split; [intros H; now inversion H | now intros ->]|].
  split; [split; [intros H; now inversion H | now intros ->]|].
  split; [split; [intros H; now inversion H | now intros ->]|].
  rewrite !lower_idempotent. split; reflexivity.
Qed.

(** [E_acute] is the one-character string U+00C9, [e_acute] is U+00E9. *)
Lemma derived_keys_namespaces_witness :
  let E_acute := String (ascii_of_nat 201) "" in
  let e_acute := String (ascii_of_nat 233) "" in
  CachedUserStore._email_key "Bob@Example.com" = CachedUserStore._email_key "bob@example.COM" /\
  CachedUserStore._email_key E_acute = CachedUserStore._email_key e_acute /\
  CachedUserStore._duplicate_key E_acute = CachedUserStore._duplicate_key e_acute /\
  CachedUserStore._id_key "A7" <> CachedUserStore._id_key "a7" /\
  CachedUserStore._email_key "id:7" <> CachedUserStore._id_key "7".
Proof.
  intros E_acute e_acute.
  destruct (derived_keys_namespaces "Bob@Example.com" "bob@example.COM" "7" "7")
    as (_ & _ & _ & _ & H5 & _).
  destruct (derived_keys_namespaces E_acute e_acute "A7" "a7")
    as (_ & _ & _ & H4 & H5' & H6' & _).
  split; [apply H5; reflexivity|].
  split; [apply H5'; reflexivity|].
  split; [apply H6'; reflexivity|].
  split; [intros H; apply H4 in H; discriminate H|].
  exact (proj1 (derived_keys_namespaces "id:7" "x" "7" "7")).
Defined.

(** * Building blocks for the wrapper's read-through operations *)

Section ReadThroughFacts.
Context {V : Type}.
Implicit Types (c : LRUCache.t V) (key k : string) (d pre : OrderedDict.t (CacheEntry V))
         (e : CacheEntry V).

Lemma invariant_step c (op : LRUCache.Op V) :
  LRUCache.invariant c -> LRUCache.invariant (LRUCache.step c op).
Proof.
  intros (Hwf & Hm & Hs).
  destruct (step_capacity c op Hm Hs) as [E L].
  split; [now apply wf_step|]. rewrite E. split; assumption.
Qed.

Lemma invariant_with_fold_delitem c (ks : list string) :
  LRUCache.invariant c ->
  LRUCache.invariant
    (LRUCache.with_cache c
       (fold_left (fun d x => OrderedDict.delitem x d) ks (LRUCache.cache c))).
Proof.
  intros (Hwf & Hm & Hs). unfold LRUCache.invariant, LRUCache.size in *. simpl.
  split; [now apply wf_fold_delitem|]. split; [exact Hm|].
  pose proof (length_fold_delitem ks (LRUCache.cache c)). lia.
Qed.

Lemma default_ttl_get c key now :
  LRUCache.default_ttl (snd (LRUCache.get c key now)) = LRUCache.default_ttl c.
Proof.
  unfold LRUCache.get.
  destruct (OrderedDict.getitem key (LRUCache.cache c)) as [e|];
    [destruct (is_expired e now)|]; reflexivity.
Qed.

Lemma max_size_get c key now :
  LRUCache.max_size (snd (LRUCache.get c key now)) = LRUCache.max_size c.
Proof.
  unfold LRUCache.get.
  destruct (OrderedDict.getitem key (LRUCache.cache c)) as [e|];
    [destruct (is_expired e now)|]; reflexivity.
Qed.

Lemma wf_get c key now :
  OrderedDict.wf (LRUCache.cache c) ->
  OrderedDict.wf (LRUCache.cache (snd (LRUCache.get c key now))).
Proof. intros Hwf. exact (wf_step c (LRUCache.OpGet key now) Hwf). Qed.

Lemma get_Some_iff c key now v :
  fst (LRUCache.get c key now) = Some v <->
  exists e, OrderedDict.getitem key (LRUCache.cache c) = Some e /\
            is_expired e now = false /\ value e = v.
Proof.
  unfold LRUCache.get.
  destruct (OrderedDict.getitem key (LRUCache.cache c)) as [e|].
  - destruct (is_expired e now) eqn:X; simpl.
    + split; [discriminate|]. intros (e' & H1 & H2 & _). inversion H1; subst. congruence.
    + split.
      * intros H. inversion H. exists e. auto.
      * intros (e' & H1 & _ & H3). inversion H1; subst. reflexivity.
  - simpl. split; [discriminate|]. intros (e' & H1 & _). discriminate.
Qed.

Lemma get_None_absent c key now :
  OrderedDict.wf (LRUCache.cache c) ->
  fst (LRUCache.get c key now) = None ->
  OrderedDict.contains key (LRUCache.cache (snd (LRUCache.get c key now))) = false.
Proof.
  intros Hwf. unfold LRUCache.get.
  destruct (OrderedDict.getitem key (LRUCache.cache c)) as [e|] eqn:G.
  - destruct (is_expired e now); simpl; [|discriminate].
    intros _. now apply delitem_removes.
  - simpl. intros _. now apply contains_getitem.
Qed.

Lemma live_entry (v : V) (x : Z) (t0 t1 : Q) :
  x <= 0 \/ (t1 <= t0 + inject_Z x)%Q ->
  is_expired (CacheEntry_init v x t0) t1 = false.
Proof.
  intros H. unfold is_expired, CacheEntry_init. simpl.
  destruct (x >? 0) eqn:G; [|reflexivity].
  apply Z.gtb_lt in G. destruct H as [H | H]; [lia|].
  apply Qle_bool_iff in H. now rewrite H.
Qed.

Lemma effective_ttl_set c key v ttl now ttl' :
  LRUCache.effective_ttl (LRUCache.set c key v ttl now) ttl' =
  LRUCache.effective_ttl c ttl'.
Proof. unfold LRUCache.effective_ttl. now rewrite default_ttl_set. Qed.

Lemma delitem_app_present key d1 d2 :
  OrderedDict.contains key d1 = true ->
  OrderedDict.delitem key (d1 ++ d2) = OrderedDict.delitem key d1 ++ d2.
Proof.
  induction d1 as [|[k0 e0] d1 IH]; simpl; [discriminate|].
  destruct (String.eqb k0 key); simpl; [reflexivity|].
  intros H. now rewrite IH.
Qed.

Lemma contains_snoc_other key k e d :
  k <> key ->
  OrderedDict.contains key (d ++ [(k, e)]) = OrderedDict.contains key d.
Proof.
  intros Hne. induction d as [|[k0 e0] d IH]; simpl.
  - destruct (String.eqb k key) eqn:E; [|reflexivity].
    apply String.eqb_eq in E. congruence.
  - now rewrite IH.
Qed.

(** The entry written by [set] is the last one of the dict. *)
Lemma set_puts_last c key v ttl now :
  1 <= LRUCache.max_size c ->
  OrderedDict.wf (LRUCache.cache c) ->
  exists pre,
    LRUCache.cache (LRUCache.set c key v ttl now) =
    pre ++ [(key, CacheEntry_init v (LRUCache.effective_ttl c ttl) now)].
Proof.
  intros Hm Hwf.
  assert (Hup : exists X, LRUCache.upsert c key v ttl now =
                          X ++ [(key, CacheEntry_init v (LRUCache.effective_ttl c ttl) now)]).
  { destruct (OrderedDict.contains key (LRUCache.cache c)) eqn:C; eexists;
      [now apply upsert_present | now apply upsert_absent]. }
  destruct Hup as (X & Hup). unfold LRUCache.set. rewrite Hup.
  destruct (_ >? _) eqn:G; simpl; [|now exists X].
  destruct X as [|x X]; simpl in *; [apply Z.gtb_lt in G; lia | now exists X].
Qed.

(** With room for two entries, a [set] of another key keeps the entry that
    was the most recent one. *)
Lemma set_keeps_last c key v ttl now k e pre :
  2 <= LRUCache.max_size c ->
  OrderedDict.wf (LRUCache.cache c) ->
  LRUCache.cache c = pre ++ [(k, e)] ->
  k <> key ->
  OrderedDict.getitem k (LRUCache.cache (LRUCache.set c key v ttl now)) = Some e.
Proof.
  intros Hm Hwf Hc Hne.
  apply In_getitem_wf; [now apply wf_set|].
  assert (Hup : exists X, LRUCache.upsert c key v ttl now =
                  X ++ [(k, e); (key, CacheEntry_init v (LRUCache.effective_ttl c ttl) now)]).
  { destruct (OrderedDict.contains key (LRUCache.cache c)) eqn:C.
    - rewrite upsert_present by assumption. rewrite Hc in *.
      rewrite contains_snoc_other in C by exact Hne.
      rewrite delitem_app_present by exact C.
      eexists. rewrite <- app_assoc. reflexivity.
    - rewrite upsert_absent by assumption. rewrite Hc.
      eexists. rewrite <- app_assoc. reflexivity. }
  destruct Hup as (X & Hup). unfold LRUCache.set. rewrite Hup.
  destruct (_ >? _) eqn:G; simpl.
  - destruct X as [|x X]; simpl in *; [apply Z.gtb_lt in G; lia|].
    apply in_or_app. right. now left.
  - apply in_or_app. right. now left.
Qed.

(** Two [set]s of different keys in a cache with room for two: both keys are
    bound to what was written. *)
Lemma populate_two c k1 k2 (v1 v2 : V) ttl1 ttl2 (t1 t2 : Q) :
  2 <= LRUCache.max_size c ->
  OrderedDict.wf (LRUCache.cache c) ->
  k1 <> k2 ->
  let c2 := LRUCache.set (LRUCache.set c k1 v1 ttl1 t1) k2 v2 ttl2 t2 in
  OrderedDict.getitem k1 (LRUCache.cache c2) =
    Some (CacheEntry_init v1 (LRUCache.effective_ttl c ttl1) t1) /\
  OrderedDict.getitem k2 (LRUCache.cache c2) =
    Some (CacheEntry_init v2 (LRUCache.effective_ttl c ttl2) t2).
Proof.
  intros Hm Hwf Hne c2. subst c2.
  pose proof (wf_set c k1 v1 ttl1 t1 Hwf) as Hwf1.
  pose proof (max_size_set c k1 v1 ttl1 t1) as M1.
  destruct (set_puts_last c k1 v1 ttl1 t1 ltac:(lia) Hwf) as (pre & Hc1).
  split.
  - eapply set_keeps_last; eauto. lia.
  - rewrite set_getitem_same by (auto; lia). now rewrite effective_ttl_set.
Qed.

End ReadThroughFacts.


(** * The wrapper's operations *)

(** X11. [_invalidate_user_cache] unbinds the email, id and dup keys of the
    given email and id, keeps every other binding, and touches neither the
    store nor the counters; the cache does not grow. *)
Theorem invalidate_user_cache_frame {S : Type} {store : UserStore S}
        (s : CachedUserStore.t S) (email uid : string) :
  OrderedDict.wf (LRUCache.cache (CachedUserStore.cache s)) ->
  let s' := CachedUserStore._invalidate_user_cache s email uid in
  let d := LRUCache.cache (CachedUserStore.cache s) in
  let d' := LRUCache.cache (CachedUserStore.cache s') in
  OrderedDict.contains (CachedUserStore._email_key email) d' = false /\
  OrderedDict.contains (CachedUserStore._id_key uid) d' = false /\
  OrderedDict.contains (CachedUserStore._duplicate_key email) d' = false /\
  (forall k, k <> CachedUserStore._email_key email ->
             k <> CachedUserStore._id_key uid ->
             k <> CachedUserStore._duplicate_key email ->
             OrderedDict.getitem k d' = OrderedDict.getitem k d) /\
  CachedUserStore.user_store s' = CachedUserStore.user_store s /\
  LRUCache.hits (CachedUserStore.cache s') = LRUCache.hits (CachedUserStore.cache s) /\
  LRUCache.misses (CachedUserStore.cache s') = LRUCache.misses (CachedUserStore.cache s) /\
  LRUCache.evictions (CachedUserStore.cache s') =
    LRUCache.evictions (CachedUserStore.cache s) /\
  LRUCache.size (CachedUserStore.cache s') <= LRUCache.size (CachedUserStore.cache s).
Proof.
  intros Hwf s' d d'. subst s' d'. unfold CachedUserStore._invalidate_user_cache.
  cbn [fold_left CachedUserStore.cache CachedUserStore.user_store LRUCache.cache
       LRUCache.with_cache LRUCache.hits LRUCache.misses LRUCache.evictions].
  fold d. unfold OrderedDict.pop.
  split; [do 2 apply contains_delitem_false; now apply delitem_removes|].
  split; [apply contains_delitem_false; apply delitem_removes; now apply wf_delitem|].
  split; [apply delitem_removes; now do 2 apply wf_delitem|].
  split.
  { intros k H1 H2 H3. now rewrite !getitem_delitem_other by assumption. }
  do 4 (split; [reflexivity|]).
  unfold LRUCache.size, LRUCache.with_cache. cbn [LRUCache.cache]. fold d.
  pose proof (length_delitem_le (CachedUserStore._email_key email) d).
  pose proof (length_delitem_le (CachedUserStore._id_key uid)
                (OrderedDict.delitem (CachedUserStore._email_key email) d)).
  pose proof (length_delitem_le (CachedUserStore._duplicate_key email)
                (OrderedDict.delitem (CachedUserStore._id_key uid)
                   (OrderedDict.delitem (CachedUserStore._email_key email) d))).
  lia.
Qed.

Lemma invalidate_user_cache_frame_witness :
  OrderedDict.contains "email:user1@example.com"
    (LRUCache.cache
       (CachedUserStore.cache
          (CachedUserStore._invalidate_user_cache two_saved "USER1@example.com" "id1")))
  = false /\
  OrderedDict.getitem "id:id2"
    (LRUCache.cache
       (CachedUserStore.cache
          (CachedUserStore._invalidate_user_cache two_saved "USER1@example.com" "id1")))
  = OrderedDict.getitem "id:id2" (LRUCache.cache (CachedUserStore.cache two_saved)).
Proof.
  assert (Hwf : OrderedDict.wf (LRUCache.cache (CachedUserStore.cache two_saved))).
  { repeat constructor; simpl; intuition discriminate. }
  destruct (invalidate_user_cache_frame two_saved "USER1@example.com" "id1" Hwf)
    as (H1 & _ & _ & H4 & _).
  split; [exact H1|]. apply H4; discriminate.
Defined.

(** X12. [check_duplicate] is read-through.  The store is never modified.
    On a cache hit it returns what is cached and does nothing else.  On a
    miss (key unbound or expired) it returns the store's answer, whatever the
    capacity of the cache is.  Whether that answer is cached depends on the
    capacity.  If [max_size >= 1] the answer is cached, negative answers
    included, and a later call while that entry is live returns the cached
    answer whatever the store has become in the meantime.  If [max_size <= 0]
    and the cache is empty, the answer is inserted and evicted at once: the
    cache is empty afterwards and one more eviction is counted. *)
Theorem check_duplicate_read_through {S : Type} {queries : UserStoreQueries S}
        (s : CachedUserStore.t S) (email : string) (t_get t_set : Q)
        (st' : S) (t_get' t_set' : Q) :
  OrderedDict.wf (LRUCache.cache (CachedUserStore.cache s)) ->
  let key := CachedUserStore._duplicate_key email in
  let g := LRUCache.get (CachedUserStore.cache s) key t_get in
  let r := CachedUserStore.check_duplicate s email t_get t_set in
  let answer := store_check_duplicate (CachedUserStore.user_store s) email in
  let dttl := LRUCache.default_ttl (CachedUserStore.cache s) in
  CachedUserStore.user_store (snd r) = CachedUserStore.user_store s /\
  (forall v, fst g = Some v ->
     fst r = v /\ CachedUserStore.cache (snd r) = snd g) /\
  (fst g = None ->
     fst r = VBool answer /\
     (1 <= LRUCache.max_size (CachedUserStore.cache s) ->
      OrderedDict.getitem key (LRUCache.cache (CachedUserStore.cache (snd r))) =
        Some (CacheEntry_init (VBool answer) dttl t_set) /\
      (dttl <= 0 \/ (t_get' <= t_set + inject_Z dttl)%Q ->
       fst (CachedUserStore.check_duplicate
              (CachedUserStore.mk st' (CachedUserStore.cache (snd r)))
              email t_get' t_set') = VBool answer))) /\
  (LRUCache.max_size (CachedUserStore.cache s) <= 0 ->
   LRUCache.cache (CachedUserStore.cache s) = [] ->
   fst r = VBool answer /\
   LRUCache.cache (CachedUserStore.cache (snd r)) = [] /\
   LRUCache.evictions (CachedUserStore.cache (snd r)) =
     LRUCache.evictions (CachedUserStore.cache s) + 1).
Proof.
  intros Hwf key g r answer dttl. subst r.
  split; [|split; [|split]].
  - unfold CachedUserStore.check_duplicate. fold key. fold g.
    destruct g as [[v|] c1]; reflexivity.
  - unfold CachedUserStore.check_duplicate. fold key. fold g.
    destruct g as [cached c1]. intros v H. simpl in H. subst cached.
    split; reflexivity.
  - unfold CachedUserStore.check_duplicate. fold key. fold g.
    destruct g as [cached c1] eqn:Eg.
    assert (Ec1 : c1 = snd g) by (now rewrite Eg).
    intros H. simpl in H. subst cached.
    cbn [fst snd CachedUserStore.user_store CachedUserStore.cache].
    split; [reflexivity|]. intros Hm.
    assert (Hwf1 : OrderedDict.wf (LRUCache.cache c1))
      by (rewrite Ec1; now apply wf_get).
    assert (Hm1 : 1 <= LRUCache.max_size c1)
      by (rewrite Ec1; unfold g; now rewrite max_size_get).
    assert (Ht1 : LRUCache.default_ttl c1 = dttl)
      by (rewrite Ec1; unfold g; apply default_ttl_get).
    pose proof (set_getitem_same c1 key (VBool answer) None t_set Hm1 Hwf1) as G.
    unfold LRUCache.effective_ttl in G. rewrite Ht1 in G.
    split; [exact G|].
    intros Hlive.
    change (store_check_duplicate (CachedUserStore.user_store s) email) with answer.
    assert (Hg : fst (LRUCache.get (LRUCache.set c1 key (VBool answer) None t_set)
                        key t_get') = Some (VBool answer)).
    { apply get_Some_iff. eexists. split; [exact G|]. split; [|reflexivity].
      now apply live_entry. }
    destruct (LRUCache.get (LRUCache.set c1 key (VBool answer) None t_set) key t_get')
      as [cached' c2]. simpl in Hg. subst cached'. reflexivity.
  - intros Hm He.
    unfold CachedUserStore.check_duplicate. fold key.
    unfold LRUCache.get. rewrite He.
    cbn [OrderedDict.getitem fst snd CachedUserStore.user_store CachedUserStore.cache].
    fold answer.
    unfold LRUCache.set, LRUCache.upsert.
    cbn [LRUCache.cache LRUCache.max_size LRUCache.evictions LRUCache.hits
         LRUCache.misses LRUCache.default_ttl OrderedDict.contains
         OrderedDict.setitem List.length].
    replace (Z.of_nat 1 >? LRUCache.max_size (CachedUserStore.cache s)) with true
      by (symmetry; rewrite Z.gtb_ltb; apply Z.ltb_lt; simpl; lia).
    repeat split; reflexivity.
Qed.

Lemma check_duplicate_read_through_witness :
  let r := CachedUserStore.check_duplicate empty_cached_store "new@example.com" 0%Q 0%Q in
  let r0 := CachedUserStore.check_duplicate no_room_cached_store "new@example.com" 0%Q 0%Q in
  fst r = VBool false /\
  fst (CachedUserStore.check_duplicate
         (CachedUserStore.mk
            (snd (InMemoryUserStore.save_user InMemoryUserStore.init
                    (mkUser "new@example.com" "id9" [])))
            (CachedUserStore.cache (snd r)))
         "new@example.com" 100%Q 100%Q) = VBool false /\
  fst r0 = VBool false /\
  LRUCache.cache (CachedUserStore.cache (snd r0)) = [] /\
  LRUCache.evictions (CachedUserStore.cache (snd r0)) = 1.
Proof.
  intros r r0.
  destruct (check_duplicate_read_through empty_cached_store "new@example.com" 0%Q 0%Q
              (snd (InMemoryUserStore.save_user InMemoryUserStore.init
                      (mkUser "new@example.com" "id9" [])))
              100%Q 100%Q ltac:(constructor))
    as (_ & _ & H & _).
  destruct (H eq_refl) as (H1 & H2). split; [exact H1|].
  destruct (H2 ltac:(simpl; lia)) as (_ & H3).
  split; [apply H3; right; unfold Qle; simpl; lia|].
  destruct (check_duplicate_read_through no_room_cached_store "new@example.com" 0%Q 0%Q
              InMemoryUserStore.init 0%Q 0%Q ltac:(constructor))
    as (_ & _ & _ & H0).
  exact (H0 ltac:(simpl; lia) eq_refl).
Defined.

(** X13. [get_user_by_email] is read-through.  A cache hit is returned as it
    is.  On a miss with the record in the store, the record is returned and,
    in a cache with room for two entries, both its email key and its id key
    are bound to it afterwards.  On a miss with no record in the store,
    nothing is returned and nothing is cached: the email key is unbound
    afterwards. *)
Theorem get_user_by_email_read_through {S : Type} {queries : UserStoreQueries S}
        (s : CachedUserStore.t S) (email : string) (t_get t1 t2 : Q) :
  OrderedDict.wf (LRUCache.cache (CachedUserStore.cache s)) ->
  let key := CachedUserStore._email_key email in
  let g := LRUCache.get (CachedUserStore.cache s) key t_get in
  let r := CachedUserStore.get_user_by_email s email t_get t1 t2 in
  let dttl := LRUCache.default_ttl (CachedUserStore.cache s) in
  let d' := LRUCache.cache (CachedUserStore.cache (snd r)) in
  CachedUserStore.user_store (snd r) = CachedUserStore.user_store s /\
  (forall v, fst g = Some v ->
     fst r = Some v /\ CachedUserStore.cache (snd r) = snd g) /\
  (fst g = None ->
   store_get_user_by_email (CachedUserStore.user_store s) email = None ->
     fst r = None /\ CachedUserStore.cache (snd r) = snd g /\
     OrderedDict.contains key d' = false) /\
  (forall u, fst g = None ->
   store_get_user_by_email (CachedUserStore.user_store s) email = Some u ->
   2 <= LRUCache.max_size (CachedUserStore.cache s) ->
     fst r = Some (VUser u) /\
     OrderedDict.getitem key d' = Some (CacheEntry_init (VUser u) dttl t1) /\
     OrderedDict.getitem (CachedUserStore._id_key (user_id u)) d' =
       Some (CacheEntry_init (VUser u) dttl t2)).
Proof.
  intros Hwf key g r dttl d'. subst d' r.
  unfold CachedUserStore.get_user_by_email. fold key. fold g.
  pose proof (get_None_absent (CachedUserStore.cache s) key t_get Hwf) as Habs.
  fold g in Habs.
  destruct g as [cached c1] eqn:Eg.
  assert (Ec1 : c1 = snd g) by (now rewrite Eg).
  destruct cached as [v|].
  - cbn [fst snd CachedUserStore.user_store CachedUserStore.cache].
    split; [reflexivity|]. split.
    + intros v' H. inversion H; subst. split; reflexivity.
    + split; [discriminate | intros u H; discriminate H].
  - destruct (store_get_user_by_email (CachedUserStore.user_store s) email) as [u|];
      cbn [fst snd CachedUserStore.user_store CachedUserStore.cache];
      (split; [reflexivity|]); (split; [discriminate|]).
    + split; [discriminate|]. intros u' _ Hu Hm. inversion Hu; subst u'.
      assert (Hwf1 : OrderedDict.wf (LRUCache.cache c1))
        by (rewrite Ec1; now apply wf_get).
      assert (Hm1 : 2 <= LRUCache.max_size c1)
        by (rewrite Ec1; unfold g; now rewrite max_size_get).
      assert (Ht1 : LRUCache.default_ttl c1 = dttl)
        by (rewrite Ec1; unfold g; apply default_ttl_get).
      destruct (populate_two c1 key (CachedUserStore._id_key (user_id u))
                  (VUser u) (VUser u) None None t1 t2 Hm1 Hwf1 ltac:(discriminate))
        as [G1 G2].
      unfold LRUCache.effective_ttl in G1, G2. rewrite Ht1 in G1, G2.
      split; [reflexivity|]. split; assumption.
    + split; [|intros u _ H; discriminate H].
      intros _ _. split; [reflexivity|]. split; [reflexivity|].
      simpl in Habs. now apply Habs.
Qed.

Lemma get_user_by_email_read_through_witness :
  let s := CachedUserStore.mk
             (snd (InMemoryUserStore.save_user InMemoryUserStore.init user1))
             (LRUCache.init 1000 300) in
  fst (CachedUserStore.get_user_by_email s "user1@EXAMPLE.com" 0%Q 0%Q 0%Q)
  = Some (VUser user1).
Proof.
  intros s.
  destruct (get_user_by_email_read_through s "user1@EXAMPLE.com" 0%Q 0%Q 0%Q
              ltac:(constructor)) as (_ & _ & _ & H).
  destruct (H user1 eq_refl eq_refl ltac:(simpl; lia)) as (H1 & _). exact H1.
Defined.

(** X14. [get_user_by_id] is read-through in the same way, keyed by the id and
    also caching the record under the email key of the record found. *)
Theorem get_user_by_id_read_through {S : Type} {queries : UserStoreQueries S}
        (s : CachedUserStore.t S) (uid : string) (t_get t1 t2 : Q) :
  OrderedDict.wf (LRUCache.cache (CachedUserStore.cache s)) ->
  let key := CachedUserStore._id_key uid in
  let g := LRUCache.get (CachedUserStore.cache s) key t_get in
  let r := CachedUserStore.get_user_by_id s uid t_get t1 t2 in
  let dttl := LRUCache.default_ttl (CachedUserStore.cache s) in
  let d' := LRUCache.cache (CachedUserStore.cache (snd r)) in
  CachedUserStore.user_store (snd r) = CachedUserStore.user_store s /\
  (forall v, fst g = Some v ->
     fst r = Some v /\ CachedUserStore.cache (snd r) = snd g) /\
  (fst g = None ->
   store_get_user_by_id (CachedUserStore.user_store s) uid = None ->
     fst r = None /\ CachedUserStore.cache (snd r) = snd g /\
     OrderedDict.contains key d' = false) /\
  (forall u, fst g = None ->
   store_get_user_by_id (CachedUserStore.user_store s) uid = Some u ->
   2 <= LRUCache.max_size (CachedUserStore.cache s) ->
     fst r = Some (VUser u) /\
     OrderedDict.getitem key d' = Some (CacheEntry_init (VUser u) dttl t1) /\
     OrderedDict.getitem (CachedUserStore._email_key (email u)) d' =
       Some (CacheEntry_init (VUser u) dttl t2)).
Proof.
  intros Hwf key g r dttl d'. subst d' r.
  unfold CachedUserStore.get_user_by_id. fold key. fold g.
  pose proof (get_None_absent (CachedUserStore.cache s) key t_get Hwf) as Habs.
  fold g in Habs.
  destruct g as [cached c1] eqn:Eg.
  assert (Ec1 : c1 = snd g) by (now rewrite Eg).
  destruct cached as [v|].
  - cbn [fst snd CachedUserStore.user_store CachedUserStore.cache].
    split; [reflexivity|]. split.
    + intros v' H. inversion H; subst. split; reflexivity.
    + split; [discriminate | intros u H; discriminate H].
  - destruct (store_get_user_by_id (CachedUserStore.user_store s) uid) as [u|];
      cbn [fst snd CachedUserStore.user_store CachedUserStore.cache];
      (split; [reflexivity|]); (split; [discriminate|]).
    + split; [discriminate|]. intros u' _ Hu Hm. inversion Hu; subst u'.
      assert (Hwf1 : OrderedDict.wf (LRUCache.cache c1))
        by (rewrite Ec1; now apply wf_get).
      assert (Hm1 : 2 <= LRUCache.max_size c1)
        by (rewrite Ec1; unfold g; now rewrite max_size_get).
      assert (Ht1 : LRUCache.default_ttl c1 = dttl)
        by (rewrite Ec1; unfold g; apply default_ttl_get).
      destruct (populate_two c1 key (CachedUserStore._email_key (email u))
                  (VUser u) (VUser u) None None t1 t2 Hm1 Hwf1 ltac:(discriminate))
        as [G1 G2].
      unfold LRUCache.effective_ttl in G1, G2. rewrite Ht1 in G1, G2.
      split; [reflexivity|]. split; assumption.
    + split; [|intros u _ H; discriminate H].
      intros _ _. split; [reflexivity|]. split; [reflexivity|].
      simpl in Habs. now apply Habs.
Qed.

Lemma get_user_by_id_read_through_witness :
  let s := CachedUserStore.mk
             (snd (InMemoryUserStore.save_user InMemoryUserStore.init user1))
             (LRUCache.init 1000 300) in
  fst (CachedUserStore.get_user_by_id s "id1" 0%Q 0%Q 0%Q) = Some (VUser user1).
Proof.
  intros s.
  destruct (get_user_by_id_read_through s "id1" 0%Q 0%Q 0%Q
              ltac:(constructor)) as (_ & _ & _ & H).
  destruct (H user1 eq_refl eq_refl ltac:(simpl; lia)) as (H1 & _). exact H1.
Defined.


(** * Writes through the wrapper, then reads *)

Section WriteThenRead.
Context {V : Type}.
Implicit Types (c : LRUCache.t V) (key k : string) (pre suf : OrderedDict.t (CacheEntry V)).

Lemma contains_app_r_false key pre suf :
  OrderedDict.contains key (pre ++ suf) = true ->
  OrderedDict.contains key suf = false ->
  OrderedDict.contains key pre = true.
Proof.
  intros H1 H2. apply contains_In. apply contains_In in H1.
  rewrite keys_app in H1. apply in_app_or in H1. destruct H1 as [H1 | H1]; [exact H1|].
  apply contains_In in H1. congruence.
Qed.

(** A [set] keeps the recent part [suf] of the dict, as long as [suf] and the
    new entry fit together and the key written is not in [suf]. *)
Lemma set_keeps_recent c key v ttl now pre suf :
  OrderedDict.wf (LRUCache.cache c) ->
  LRUCache.cache c = pre ++ suf ->
  OrderedDict.contains key suf = false ->
  Z.of_nat (List.length suf) + 1 <= LRUCache.max_size c ->
  exists pre',
    LRUCache.cache (LRUCache.set c key v ttl now) =
    pre' ++ (suf ++ [(key, CacheEntry_init v (LRUCache.effective_ttl c ttl) now)]).
Proof.
  intros Hwf Hc Hsuf Hfit.
  assert (Hup : exists X, LRUCache.upsert c key v ttl now =
                  X ++ (suf ++ [(key, CacheEntry_init v (LRUCache.effective_ttl c ttl) now)])).
  { destruct (OrderedDict.contains key (LRUCache.cache c)) eqn:C.
    - rewrite upsert_present by assumption. rewrite Hc in *.
      rewrite delitem_app_present by (eapply contains_app_r_false; eauto).
      eexists. rewrite <- app_assoc. reflexivity.
    - rewrite upsert_absent by assumption. rewrite Hc.
      eexists. rewrite <- app_assoc. reflexivity. }
  destruct Hup as (X & Hup). unfold LRUCache.set. rewrite Hup.
  destruct (_ >? _) eqn:G; simpl; [|now exists X].
  apply Z.gtb_lt in G. rewrite !length_app in G. simpl in G.
  destruct X as [|x X]; simpl in *; [lia | now exists X].
Qed.

(** Three [set]s of pairwise different keys in a cache with room for three:
    all three keys are bound to what was written. *)
Lemma populate_three c k1 k2 k3 (v1 v2 v3 : V) (t1 t2 t3 : Q) :
  3 <= LRUCache.max_size c ->
  OrderedDict.wf (LRUCache.cache c) ->
  k1 <> k2 -> k1 <> k3 -> k2 <> k3 ->
  let c3 := LRUCache.set (LRUCache.set (LRUCache.set c k1 v1 None t1) k2 v2 None t2)
                         k3 v3 None t3 in
  let dttl := LRUCache.default_ttl c in
  OrderedDict.getitem k1 (LRUCache.cache c3) = Some (CacheEntry_init v1 dttl t1) /\
  OrderedDict.getitem k2 (LRUCache.cache c3) = Some (CacheEntry_init v2 dttl t2) /\
  OrderedDict.getitem k3 (LRUCache.cache c3) = Some (CacheEntry_init v3 dttl t3).
Proof.
  intros Hm Hwf N12 N13 N23 c3 dttl. subst c3.
  set (c1 := LRUCache.set c k1 v1 None t1).
  set (c2 := LRUCache.set c1 k2 v2 None t2).
  assert (W1 : OrderedDict.wf (LRUCache.cache c1)) by now apply wf_set.
  assert (W2 : OrderedDict.wf (LRUCache.cache c2)) by now apply wf_set.
  assert (M1 : LRUCache.max_size c1 = LRUCache.max_size c) by apply max_size_set.
  assert (M2 : LRUCache.max_size c2 = LRUCache.max_size c)
    by (unfold c2; now rewrite max_size_set).
  assert (T1 : LRUCache.effective_ttl c1 None = dttl) by apply default_ttl_set.
  assert (T2 : LRUCache.effective_ttl c2 None = dttl)
    by (unfold c2, LRUCache.effective_ttl; now rewrite default_ttl_set).
  assert (F12 : String.eqb k1 k2 = false) by now apply String.eqb_neq.
  assert (F13 : String.eqb k1 k3 = false) by now apply String.eqb_neq.
  assert (F23 : String.eqb k2 k3 = false) by now apply String.eqb_neq.
  destruct (set_puts_last c k1 v1 None t1 ltac:(lia) Hwf) as (p1 & E1).
  fold c1 in E1. change (LRUCache.effective_ttl c None) with dttl in E1.
  destruct (set_keeps_recent c1 k2 v2 None t2 p1 _ W1 E1) as (p2 & E2).
  { simpl. now rewrite F12. }
  { simpl. lia. }
  fold c2 in E2. rewrite T1 in E2. cbn [app] in E2.
  destruct (set_keeps_recent c2 k3 v3 None t3 p2 _ W2 E2) as (p3 & E3).
  { simpl. now rewrite F13, F23. }
  { simpl. lia. }
  rewrite T2 in E3. cbn [app] in E3.
  assert (W3 : OrderedDict.wf (LRUCache.cache (LRUCache.set c2 k3 v3 None t3)))
    by now apply wf_set.
  repeat split; apply In_getitem_wf; try exact W3; rewrite E3; apply in_or_app; right;
    simpl; tauto.
Qed.

End WriteThenRead.

Section WrapperHits.
Context {S : Type} {queries : UserStoreQueries S}.
Implicit Types (s : CachedUserStore.t S).

Lemma get_user_by_email_hit s e tg ta tb v :
  fst (LRUCache.get (CachedUserStore.cache s) (CachedUserStore._email_key e) tg) = Some v ->
  fst (CachedUserStore.get_user_by_email s e tg ta tb) = Some v.
Proof.
  unfold CachedUserStore.get_user_by_email.
  destruct (LRUCache.get _ _ _) as [cached c1]. simpl. now intros ->.
Qed.

Lemma get_user_by_id_hit s uid tg ta tb v :
  fst (LRUCache.get (CachedUserStore.cache s) (CachedUserStore._id_key uid) tg) = Some v ->
  fst (CachedUserStore.get_user_by_id s uid tg ta tb) = Some v.
Proof.
  unfold CachedUserStore.get_user_by_id.
  destruct (LRUCache.get _ _ _) as [cached c1]. simpl. now intros ->.
Qed.

Lemma check_duplicate_hit s e tg ta v :
  fst (LRUCache.get (CachedUserStore.cache s) (CachedUserStore._duplicate_key e) tg) = Some v ->
  fst (CachedUserStore.check_duplicate s e tg ta) = v.
Proof.
  unfold CachedUserStore.check_duplicate.
  destruct (LRUCache.get _ _ _) as [cached c1]. simpl. now intros ->.
Qed.

Lemma invalidate_user_cache_unbinds s email uid :
  OrderedDict.wf (LRUCache.cache (CachedUserStore.cache s)) ->
  let d' := LRUCache.cache (CachedUserStore.cache
                              (CachedUserStore._invalidate_user_cache s email uid)) in
  OrderedDict.wf d' /\
  OrderedDict.contains (CachedUserStore._email_key email) d' = false /\
  OrderedDict.contains (CachedUserStore._id_key uid) d' = false /\
  OrderedDict.contains (CachedUserStore._duplicate_key email) d' = false.
Proof.
  intros Hwf d'. subst d'. unfold CachedUserStore._invalidate_user_cache, OrderedDict.pop.
  cbn [fold_left CachedUserStore.cache LRUCache.cache LRUCache.with_cache].
  split; [now do 3 apply wf_delitem|].
  split; [do 2 apply contains_delitem_false; now apply delitem_removes|].
  split; [apply contains_delitem_false; apply delitem_removes; now apply wf_delitem|].
  apply delitem_removes; now do 2 apply wf_delitem.
Qed.

End WrapperHits.

(** X15. What [save_user] writes is what the lookups read.  After a
    successful [save_user] into a cache with room for three entries, and while
    the entries are live, [get_user_by_email] with the email in any (ASCII)
    case and [get_user_by_id] return the saved record and [check_duplicate]
    returns true, all from the cache: the result does not depend on the
    store. *)
Theorem save_then_lookup_hits {S : Type} {store : UserStore S}
        {queries : UserStoreQueries S}
        (s : CachedUserStore.t S) (u : User) (t1 t2 t3 : Q)
        (st' : S) (e : string) (tg ta tb : Q) :
  fst (store_save_user (CachedUserStore.user_store s) u) = true ->
  3 <= LRUCache.max_size (CachedUserStore.cache s) ->
  OrderedDict.wf (LRUCache.cache (CachedUserStore.cache s)) ->
  PyStr.lower e = PyStr.lower (email u) ->
  let s1 := CachedUserStore.mk st'
              (CachedUserStore.cache (snd (CachedUserStore.save_user s u t1 t2 t3))) in
  let dttl := LRUCache.default_ttl (CachedUserStore.cache s) in
  (dttl <= 0 \/ (tg <= t1 + inject_Z dttl)%Q ->
     fst (CachedUserStore.get_user_by_email s1 e tg ta tb) = Some (VUser u)) /\
  (dttl <= 0 \/ (tg <= t2 + inject_Z dttl)%Q ->
     fst (CachedUserStore.get_user_by_id s1 (user_id u) tg ta tb) = Some (VUser u)) /\
  (dttl <= 0 \/ (tg <= t3 + inject_Z dttl)%Q ->
     fst (CachedUserStore.check_duplicate s1 e tg ta) = VBool true).
Proof.
  intros Hok Hm Hwf He s1 dttl.
  assert (Hb : let d' := LRUCache.cache (CachedUserStore.cache s1) in
               OrderedDict.getitem (CachedUserStore._email_key e) d' =
                 Some (CacheEntry_init (VUser u) dttl t1) /\
               OrderedDict.getitem (CachedUserStore._id_key (user_id u)) d' =
                 Some (CacheEntry_init (VUser u) dttl t2) /\
               OrderedDict.getitem (CachedUserStore._duplicate_key e) d' =
                 Some (CacheEntry_init (VBool true) dttl t3)).
  { subst s1. unfold CachedUserStore.save_user.
    destruct (store_save_user (CachedUserStore.user_store s) u) as [success st].
    simpl in Hok. subst success. cbv beta iota zeta.
    cbn [fst snd CachedUserStore.cache CachedUserStore.user_store].
    replace (CachedUserStore._email_key e)
      with (CachedUserStore._email_key (PyStr.lower (email u)))
      by (unfold CachedUserStore._email_key; now rewrite lower_idempotent, He).
    replace (CachedUserStore._duplicate_key e)
      with (CachedUserStore._duplicate_key (PyStr.lower (email u)))
      by (unfold CachedUserStore._duplicate_key; now rewrite lower_idempotent, He).
    destruct (invalidate_user_cache_unbinds (CachedUserStore.mk st (CachedUserStore.cache s))
                (PyStr.lower (email u)) (user_id u) Hwf) as (W0 & _).
    apply populate_three; try discriminate; [|exact W0].
    exact Hm. }
  destruct Hb as (B1 & B2 & B3).
  split; [|split]; intros Hlive.
  - apply get_user_by_email_hit. apply get_Some_iff. eexists.
    split; [exact B1|]. split; [now apply live_entry | reflexivity].
  - apply get_user_by_id_hit. apply get_Some_iff. eexists.
    split; [exact B2|]. split; [now apply live_entry | reflexivity].
  - apply check_duplicate_hit. apply get_Some_iff. eexists.
    split; [exact B3|]. split; [now apply live_entry | reflexivity].
Qed.

Lemma save_then_lookup_hits_witness :
  let s1 := CachedUserStore.mk InMemoryUserStore.init
              (CachedUserStore.cache
                 (snd (CachedUserStore.save_user empty_cached_store user1 0%Q 0%Q 0%Q))) in
  fst (CachedUserStore.get_user_by_email s1 "USER1@EXAMPLE.COM" 10%Q 10%Q 10%Q)
  = Some (VUser user1).
Proof.
  intros s1.
  destruct (save_then_lookup_hits (store := InMemoryUserStore.store)
              (queries := InMemoryUserStore.queries)
              empty_cached_store user1 0%Q 0%Q 0%Q
              InMemoryUserStore.init "USER1@EXAMPLE.COM" 10%Q 10%Q 10%Q
              ltac:(reflexivity) ltac:(simpl; lia) ltac:(constructor)
              ltac:(reflexivity)) as (H & _).
  apply H. right. unfold Qle. simpl. lia.
Defined.

(** X16. [delete_user] of the wrapper returns what the store's [delete_user]
    returns and leaves the store as that call left it.  When the store
    deletes and the record was found beforehand, the email, id and dup keys of
    the record are unbound afterwards and the counters are unchanged.  When
    the store reports nothing deleted, raises, or had no record, the cache is
    left exactly as it was. *)
Theorem delete_user_invalidates {S : Type} {queries : UserStoreQueries S}
        (s : CachedUserStore.t S) (e : string) :
  OrderedDict.wf (LRUCache.cache (CachedUserStore.cache s)) ->
  let r := CachedUserStore.delete_user s e in
  let out := store_delete_user (CachedUserStore.user_store s) e in
  let d' := LRUCache.cache (CachedUserStore.cache (snd r)) in
  fst r = fst out /\
  CachedUserStore.user_store (snd r) = snd out /\
  (forall u, fst out = Returns true ->
     store_get_user_by_email (CachedUserStore.user_store s) e = Some u ->
     OrderedDict.contains (CachedUserStore._email_key e) d' = false /\
     OrderedDict.contains (CachedUserStore._id_key (user_id u)) d' = false /\
     OrderedDict.contains (CachedUserStore._duplicate_key e) d' = false /\
     LRUCache.hits (CachedUserStore.cache (snd r)) = LRUCache.hits (CachedUserStore.cache s) /\
     LRUCache.misses (CachedUserStore.cache (snd r)) =
       LRUCache.misses (CachedUserStore.cache s)) /\
  (fst out <> Returns true \/
   store_get_user_by_email (CachedUserStore.user_store s) e = None ->
     CachedUserStore.cache (snd r) = CachedUserStore.cache s).
Proof.
  intros Hwf r out d'. subst r d'. unfold CachedUserStore.delete_user. fold out.
  destruct out as [[ok|exn] st].
  - destruct ok, (store_get_user_by_email (CachedUserStore.user_store s) e) as [u|];
      cbn [fst snd]; (split; [reflexivity|]); (split; [reflexivity|]).
    + split.
      * intros u' _ Hu. inversion Hu; subst u'.
        destruct (invalidate_user_cache_unbinds
                    (CachedUserStore.mk st (CachedUserStore.cache s)) e (user_id u) Hwf)
          as (_ & H1 & H2 & H3).
        repeat split; assumption || reflexivity.
      * intros [H | H]; [now destruct H | discriminate H].
    + split; [intros u' _ H; discriminate H | reflexivity].
    + split; [intros u' H; discriminate H | reflexivity].
    + split; [intros u' H; discriminate H | reflexivity].
  - cbn [fst snd]. split; [reflexivity|]. split; [reflexivity|].
    split; [intros u' H; discriminate H | reflexivity].
Qed.

Lemma delete_user_invalidates_witness :
  let r := CachedUserStore.delete_user two_saved "USER1@example.com" in
  fst r = Returns true /\
  OrderedDict.contains "email:user1@example.com"
    (LRUCache.cache (CachedUserStore.cache (snd r))) = false.
Proof.
  intros r.
  assert (Hwf : OrderedDict.wf (LRUCache.cache (CachedUserStore.cache two_saved))).
  { repeat constructor; simpl; intuition discriminate. }
  destruct (delete_user_invalidates two_saved "USER1@example.com" Hwf)
    as (H1 & _ & H3 & _).
  split; [exact H1|].
  destruct (H3 user1 ltac:(reflexivity) ltac:(reflexivity)) as (H & _). exact H.
Defined.


(** * The in-memory store *)

Section DictFacts.
Context {E : Type}.
Implicit Types (d : OrderedDict.t E) (k key : string) (e : E).

Lemma getitem_setitem_same key e d :
  OrderedDict.getitem key (OrderedDict.setitem key e d) = Some e.
Proof.
  induction d as [|[k0 e0] d IH]; simpl.
  - now rewrite String.eqb_refl.
  - destruct (String.eqb k0 key) eqn:X; simpl; now rewrite X.
Qed.

Lemma getitem_setitem_other key k e d :
  k <> key ->
  OrderedDict.getitem k (OrderedDict.setitem key e d) = OrderedDict.getitem k d.
Proof.
  intros Hne. induction d as [|[k0 e0] d IH]; simpl.
  - destruct (String.eqb key k) eqn:X; [|reflexivity].
    apply String.eqb_eq in X. congruence.
  - destruct (String.eqb k0 key) eqn:X; simpl.
    + apply String.eqb_eq in X. subst k0.
      destruct (String.eqb key k) eqn:Y; [|reflexivity].
      apply String.eqb_eq in Y. congruence.
    + now rewrite IH.
Qed.

Lemma keys_setitem_present key e d :
  OrderedDict.contains key d = true ->
  OrderedDict.keys (OrderedDict.setitem key e d) = OrderedDict.keys d.
Proof.
  induction d as [|[k0 e0] d IH]; simpl; [discriminate|].
  destruct (String.eqb k0 key); simpl; [reflexivity|].
  intros H. now rewrite IH.
Qed.

Lemma wf_setitem key e d :
  OrderedDict.wf d -> OrderedDict.wf (OrderedDict.setitem key e d).
Proof.
  intros Hwf. destruct (OrderedDict.contains key d) eqn:C.
  - unfold OrderedDict.wf. now rewrite keys_setitem_present.
  - rewrite setitem_absent by exact C. now apply wf_snoc.
Qed.

Lemma length_setitem key e d :
  List.length (OrderedDict.setitem key e d) =
  (List.length d + (if OrderedDict.contains key d then 0 else 1))%nat.
Proof.
  destruct (OrderedDict.contains key d) eqn:C.
  - rewrite length_setitem_present by exact C. lia.
  - rewrite setitem_absent by exact C. rewrite length_app. reflexivity.
Qed.

Lemma contains_true_getitem key d :
  OrderedDict.contains key d = true <-> exists e, OrderedDict.getitem key d = Some e.
Proof.
  split.
  - intros C. destruct (OrderedDict.getitem key d) as [e|] eqn:G; [now exists e|].
    apply contains_getitem in G. congruence.
  - intros [e G]. eapply getitem_Some_contains; eauto.
Qed.

End DictFacts.

(** X17. [save_user] of the in-memory store, and its round trip.  The call
    never raises.  On a dict without the key 'email' or without the key
    'user_id' it returns false and the store is unchanged.  On a dict with
    both keys it returns true; afterwards the record is found by its email in
    any case and by its id, and [check_duplicate] is true for it; lookups of
    other emails and other ids are unaffected, and the user count grows by
    one exactly when the email was new.  So the call returns true exactly
    when both keys are present. *)
Theorem in_memory_save_then_lookup (s : InMemoryUserStore.t)
        (user_data : InMemoryUserStore.UserData) (e e' : string) :
  let r := InMemoryUserStore.save_user_dict s user_data in
  (OrderedDict.getitem "email" user_data = None \/
   OrderedDict.getitem "user_id" user_data = None ->
   r = (false, s)) /\
  (forall em uid,
     OrderedDict.getitem "email" user_data = Some em ->
     OrderedDict.getitem "user_id" user_data = Some uid ->
     exists u,
       InMemoryUserStore.read_keys user_data = Returns u /\
       email u = em /\ user_id u = uid /\
       fst r = true /\
       (PyStr.lower e = PyStr.lower em ->
          InMemoryUserStore.get_user_by_email (snd r) e = Some u /\
          InMemoryUserStore.check_duplicate (snd r) e = true) /\
       InMemoryUserStore.get_user_by_id (snd r) uid = Some u /\
       (PyStr.lower e' <> PyStr.lower em ->
          InMemoryUserStore.get_user_by_email (snd r) e' =
          InMemoryUserStore.get_user_by_email s e') /\
       (forall uid', uid' <> uid ->
          InMemoryUserStore.get_user_by_id (snd r) uid' =
          InMemoryUserStore.get_user_by_id s uid') /\
       InMemoryUserStore.get_user_count (snd r) =
         InMemoryUserStore.get_user_count s +
         (if InMemoryUserStore.check_duplicate s em then 0 else 1)) /\
  (fst r = true <->
   OrderedDict.contains "email" user_data = true /\
   OrderedDict.contains "user_id" user_data = true).
Proof.
  intros r. subst r.
  unfold InMemoryUserStore.save_user_dict, InMemoryUserStore.read_keys.
  split; [|split].
  - intros [H|H].
    + now rewrite H.
    + rewrite H. now destruct (OrderedDict.getitem "email" user_data).
  - intros em uid Hem Hid. rewrite Hem, Hid.
    eexists. split; [reflexivity|].
    unfold InMemoryUserStore.save_user, InMemoryUserStore.get_user_by_email,
      InMemoryUserStore.get_user_by_id, InMemoryUserStore.check_duplicate,
      InMemoryUserStore.get_user_count.
    cbn [fst snd InMemoryUserStore.users InMemoryUserStore.users_by_id email user_id].
    split; [reflexivity|]. split; [reflexivity|]. split; [reflexivity|].
    split.
    { intros He. rewrite He. split; [apply getitem_setitem_same|].
      eapply getitem_Some_contains; apply getitem_setitem_same. }
    split; [apply getitem_setitem_same|].
    split; [intros Hne; now apply getitem_setitem_other|].
    split; [intros uid' Hne; now apply getitem_setitem_other|].
    rewrite length_setitem.
    destruct (OrderedDict.contains (PyStr.lower em) (InMemoryUserStore.users s)); lia.
  - destruct (OrderedDict.getitem "email" user_data) as [em|] eqn:Gem.
    + destruct (OrderedDict.getitem "user_id" user_data) as [uid|] eqn:Gid.
      * apply getitem_Some_contains in Gem. apply getitem_Some_contains in Gid.
        split; [intros _; split; assumption | intros _; reflexivity].
      * apply contains_getitem in Gid. rewrite Gid.
        split; [discriminate | intros [_ H]; discriminate H].
    + apply contains_getitem in Gem. rewrite Gem.
      split; [discriminate | intros [H _]; discriminate H].
Qed.

Lemma in_memory_save_then_lookup_witness :
  InMemoryUserStore.get_user_by_email
    (snd (InMemoryUserStore.save_user_dict InMemoryUserStore.init user1_data))
    "USER1@example.COM"
  = Some user1 /\
  InMemoryUserStore.save_user_dict InMemoryUserStore.init user1_data_without_id
  = (false, InMemoryUserStore.init).
Proof.
  destruct (in_memory_save_then_lookup InMemoryUserStore.init user1_data
              "USER1@example.COM" "x") as (_ & H & _).
  destruct (H "User1@Example.com" "id1" eq_refl eq_refl)
    as (u & Hu & _ & _ & _ & Hget & _).
  injection Hu as <-.
  split; [exact (proj1 (Hget eq_refl))|].
  destruct (in_memory_save_then_lookup InMemoryUserStore.init user1_data_without_id
              "x" "x") as (H0 & _).
  apply H0. right. reflexivity.
Defined.

(** X18. [delete_user] of the in-memory store.  An unknown email gives false
    and changes nothing.  A known email whose record's id is bound gives true;
    the email is then unknown, no longer a duplicate, the id is unbound and
    the count is one less.  A known email whose record's id is not bound
    raises [KeyError], after the email binding has already been removed and
    with the id index untouched. *)
Theorem in_memory_delete_user (s : InMemoryUserStore.t) (e : string) :
  OrderedDict.wf (InMemoryUserStore.users s) ->
  OrderedDict.wf (InMemoryUserStore.users_by_id s) ->
  let r := InMemoryUserStore.delete_user s e in
  (InMemoryUserStore.get_user_by_email s e = None -> r = (Returns false, s)) /\
  (forall u, InMemoryUserStore.get_user_by_email s e = Some u ->
     InMemoryUserStore.get_user_by_email (snd r) e = None /\
     InMemoryUserStore.check_duplicate (snd r) e = false /\
     InMemoryUserStore.get_user_count (snd r) = InMemoryUserStore.get_user_count s - 1 /\
     (OrderedDict.contains (user_id u) (InMemoryUserStore.users_by_id s) = true ->
        fst r = Returns true /\
        InMemoryUserStore.get_user_by_id (snd r) (user_id u) = None) /\
     (OrderedDict.contains (user_id u) (InMemoryUserStore.users_by_id s) = false ->
        fst r = Raises "KeyError" /\
        InMemoryUserStore.users_by_id (snd r) = InMemoryUserStore.users_by_id s)).
Proof.
  intros Hwf Hwfi r. subst r.
  unfold InMemoryUserStore.delete_user, InMemoryUserStore.get_user_by_email,
    InMemoryUserStore.get_user_by_id, InMemoryUserStore.check_duplicate,
    InMemoryUserStore.get_user_count.
  destruct (OrderedDict.getitem (PyStr.lower e) (InMemoryUserStore.users s)) as [u|] eqn:G.
  - split; [discriminate|]. intros u' Hu. inversion Hu; subst u'.
    pose proof (length_delitem_present _ _ (getitem_Some_contains _ _ _ G)) as Hl.
    destruct (OrderedDict.contains (user_id u) (InMemoryUserStore.users_by_id s)) eqn:C;
      cbn [fst snd InMemoryUserStore.users InMemoryUserStore.users_by_id].
    + split; [now apply contains_getitem, delitem_removes|].
      split; [now apply delitem_removes|]. split; [lia|].
      split; [|discriminate]. intros _. split; [reflexivity|].
      now apply contains_getitem, delitem_removes.
    + split; [now apply contains_getitem, delitem_removes|].
      split; [now apply delitem_removes|]. split; [lia|].
      split; [discriminate|]. intros _. split; reflexivity.
  - split; [reflexivity | intros u H; discriminate H].
Qed.

Lemma in_memory_delete_user_witness :
  let s := snd (InMemoryUserStore.save_user InMemoryUserStore.init user1) in
  fst (InMemoryUserStore.delete_user s "USER1@example.com") = Returns true /\
  InMemoryUserStore.get_user_count
    (snd (InMemoryUserStore.delete_user s "USER1@example.com")) = 0.
Proof.
  intros s.
  assert (W1 : OrderedDict.wf (InMemoryUserStore.users s))
    by (repeat constructor; simpl; tauto).
  assert (W2 : OrderedDict.wf (InMemoryUserStore.users_by_id s))
    by (repeat constructor; simpl; tauto).
  destruct (in_memory_delete_user s "USER1@example.com" W1 W2) as (_ & H).
  destruct (H user1 ltac:(reflexivity)) as (_ & _ & H3 & H4 & _).
  split; [exact (proj1 (H4 ltac:(reflexivity))) | exact H3].
Defined.

(** X19. The [KeyError] of [delete_user] is reachable through the store's own
    methods: after saving two records with different emails and the same
    [user_id], deleting the first succeeds and removes the shared id, and
    deleting the second then raises [KeyError]. *)
Theorem in_memory_delete_shared_id_raises (s : InMemoryUserStore.t) (u1 u2 : User) :
  OrderedDict.wf (InMemoryUserStore.users_by_id s) ->
  PyStr.lower (email u1) <> PyStr.lower (email u2) ->
  user_id u1 = user_id u2 ->
  let s2 := snd (InMemoryUserStore.save_user (snd (InMemoryUserStore.save_user s u1)) u2) in
  let r1 := InMemoryUserStore.delete_user s2 (email u1) in
  let r2 := InMemoryUserStore.delete_user (snd r1) (email u2) in
  fst r1 = Returns true /\
  fst r2 = Raises "KeyError" /\
  InMemoryUserStore.get_user_by_email (snd r1) (email u2) = Some u2.
Proof.
  intros Hwfi Hne Hid s2 r1 r2.
  set (e1 := PyStr.lower (email u1)) in *. set (e2 := PyStr.lower (email u2)) in *.
  set (us := OrderedDict.setitem e2 u2
               (OrderedDict.setitem e1 u1 (InMemoryUserStore.users s))).
  set (ids := OrderedDict.setitem (user_id u2) u2
                (OrderedDict.setitem (user_id u1) u1 (InMemoryUserStore.users_by_id s))).
  assert (Es2 : s2 = InMemoryUserStore.mk us ids) by reflexivity.
  assert (G1 : OrderedDict.getitem e1 us = Some u1).
  { unfold us. rewrite getitem_setitem_other by exact Hne. apply getitem_setitem_same. }
  assert (C1 : OrderedDict.contains (user_id u1) ids = true).
  { rewrite Hid. eapply getitem_Some_contains. apply getitem_setitem_same. }
  assert (Er1 : r1 = (Returns true,
                      InMemoryUserStore.mk (OrderedDict.delitem e1 us)
                                           (OrderedDict.delitem (user_id u1) ids))).
  { subst r1. rewrite Es2. unfold InMemoryUserStore.delete_user.
    cbn [InMemoryUserStore.users InMemoryUserStore.users_by_id]. fold e1.
    now rewrite G1, C1. }
  assert (G2 : OrderedDict.getitem e2 (OrderedDict.delitem e1 us) = Some u2).
  { rewrite getitem_delitem_other by congruence. apply getitem_setitem_same. }
  assert (C2 : OrderedDict.contains (user_id u2) (OrderedDict.delitem (user_id u1) ids)
               = false).
  { rewrite <- Hid. apply delitem_removes. unfold ids. now do 2 apply wf_setitem. }
  subst r2. rewrite Er1. cbn [fst snd]. split; [reflexivity|].
  unfold InMemoryUserStore.delete_user, InMemoryUserStore.get_user_by_email.
  cbn [InMemoryUserStore.users InMemoryUserStore.users_by_id]. fold e2.
  rewrite G2, C2. split; reflexivity.
Qed.

Lemma in_memory_delete_shared_id_raises_witness :
  let s2 := snd (InMemoryUserStore.save_user
                   (snd (InMemoryUserStore.save_user InMemoryUserStore.init
                           (mkUser "a@x.org" "id7" [])))
                   (mkUser "b@x.org" "id7" [])) in
  fst (InMemoryUserStore.delete_user
         (snd (InMemoryUserStore.delete_user s2 "a@x.org")) "b@x.org")
  = Raises "KeyError".
Proof.
  intros s2.
  destruct (in_memory_delete_shared_id_raises InMemoryUserStore.init
              (mkUser "a@x.org" "id7" []) (mkUser "b@x.org" "id7" [])
              ltac:(constructor) ltac:(discriminate) ltac:(reflexivity))
    as (_ & H & _).
  exact H.
Defined.


(** * The wrapper over the in-memory store *)

Section WrapperState.
Context {S : Type} {store : UserStore S}.
Implicit Types (s : CachedUserStore.t S).

Lemma save_user_store s u t1 t2 t3 :
  CachedUserStore.user_store (snd (CachedUserStore.save_user s u t1 t2 t3)) =
  snd (store_save_user (CachedUserStore.user_store s) u).
Proof.
  unfold CachedUserStore.save_user.
  destruct (store_save_user (CachedUserStore.user_store s) u) as [[|] st]; reflexivity.
Qed.

Lemma save_user_invariant s u t1 t2 t3 :
  LRUCache.invariant (CachedUserStore.cache s) ->
  LRUCache.invariant (CachedUserStore.cache (snd (CachedUserStore.save_user s u t1 t2 t3))).
Proof.
  intros Hinv. unfold CachedUserStore.save_user.
  destruct (store_save_user (CachedUserStore.user_store s) u) as [[|] st];
    cbv beta iota zeta; cbn [fst snd CachedUserStore.cache]; [|exact Hinv].
  unfold CachedUserStore._invalidate_user_cache. cbn [CachedUserStore.cache].
  apply (invariant_step _ (LRUCache.OpSet _ _ _ _)).
  apply (invariant_step _ (LRUCache.OpSet _ _ _ _)).
  apply (invariant_step _ (LRUCache.OpSet _ _ _ _)).
  apply (invariant_with_fold_delitem (CachedUserStore.cache s)). exact Hinv.
Qed.

Lemma save_user_wf s u t1 t2 t3 :
  OrderedDict.wf (LRUCache.cache (CachedUserStore.cache s)) ->
  OrderedDict.wf (LRUCache.cache
                    (CachedUserStore.cache (snd (CachedUserStore.save_user s u t1 t2 t3)))).
Proof.
  intros Hwf. unfold CachedUserStore.save_user.
  destruct (store_save_user (CachedUserStore.user_store s) u) as [[|] st];
    cbv beta iota zeta; cbn [fst snd CachedUserStore.cache]; [|exact Hwf].
  do 3 apply wf_set.
  unfold CachedUserStore._invalidate_user_cache. cbn [CachedUserStore.cache].
  now apply wf_fold_delitem.
Qed.

End WrapperState.

Section GetAbsent.
Context {V : Type}.

Lemma get_absent (c : LRUCache.t V) key now :
  OrderedDict.contains key (LRUCache.cache c) = false ->
  fst (LRUCache.get c key now) = None.
Proof.
  intros C. apply contains_getitem in C. unfold LRUCache.get. now rewrite C.
Qed.

End GetAbsent.

(** X20. Cache-aside consistency after a delete, over the in-memory store:
    after [save_user] of a record and [delete_user] of its email, the delete
    reports true, and lookups of the record by email (in any ASCII case) and
    by id return nothing and [check_duplicate] returns false: the cache no
    longer answers for the record and the store no longer has it. *)
Theorem delete_then_lookup_misses (s : CachedUserStore.t InMemoryUserStore.t) (u : User)
        (t1 t2 t3 : Q) (e : string) (tg ta tb : Q) :
  OrderedDict.wf (LRUCache.cache (CachedUserStore.cache s)) ->
  OrderedDict.wf (InMemoryUserStore.users (CachedUserStore.user_store s)) ->
  OrderedDict.wf (InMemoryUserStore.users_by_id (CachedUserStore.user_store s)) ->
  PyStr.lower e = PyStr.lower (email u) ->
  let s1 := snd (CachedUserStore.save_user s u t1 t2 t3) in
  let r := CachedUserStore.delete_user s1 (email u) in
  fst r = Returns true /\
  fst (CachedUserStore.get_user_by_email (snd r) e tg ta tb) = None /\
  fst (CachedUserStore.get_user_by_id (snd r) (user_id u) tg ta tb) = None /\
  fst (CachedUserStore.check_duplicate (snd r) e tg ta) = VBool false.
Proof.
  intros Hwf Hwu Hwi He s1 r.
  pose proof (save_user_wf s u t1 t2 t3 Hwf) as Hwf1. fold s1 in Hwf1.
  pose proof (save_user_store s u t1 t2 t3) as Hst. fold s1 in Hst.
  set (st0 := CachedUserStore.user_store s) in *.
  set (le := PyStr.lower (email u)) in *.
  set (us := OrderedDict.setitem le u (InMemoryUserStore.users st0)) in *.
  set (ids := OrderedDict.setitem (user_id u) u (InMemoryUserStore.users_by_id st0)) in *.
  assert (Hst1 : CachedUserStore.user_store s1 = InMemoryUserStore.mk us ids)
    by (rewrite Hst; reflexivity).
  assert (G : OrderedDict.getitem le us = Some u) by apply getitem_setitem_same.
  assert (C : OrderedDict.contains (user_id u) ids = true)
    by (eapply getitem_Some_contains; apply getitem_setitem_same).
  set (st2 := InMemoryUserStore.mk (OrderedDict.delitem le us)
                                   (OrderedDict.delitem (user_id u) ids)).
  assert (Er : r = (Returns true,
                    CachedUserStore._invalidate_user_cache
                      (CachedUserStore.mk st2 (CachedUserStore.cache s1))
                      (email u) (user_id u))).
  { subst r. unfold CachedUserStore.delete_user. rewrite Hst1.
    unfold store_get_user_by_email, store_delete_user, InMemoryUserStore.queries,
      InMemoryUserStore.get_user_by_email, InMemoryUserStore.delete_user.
    cbn [InMemoryUserStore.users InMemoryUserStore.users_by_id]. fold le.
    rewrite G, C. reflexivity. }
  destruct (invalidate_user_cache_unbinds
              (CachedUserStore.mk st2 (CachedUserStore.cache s1)) (email u) (user_id u) Hwf1)
    as (_ & N1 & N2 & N3).
  rewrite Er. cbn [fst snd]. split; [reflexivity|].
  set (s2 := CachedUserStore._invalidate_user_cache
               (CachedUserStore.mk st2 (CachedUserStore.cache s1)) (email u) (user_id u)) in *.
  assert (Hst2 : CachedUserStore.user_store s2 = st2) by reflexivity.
  assert (Ke : CachedUserStore._email_key e = CachedUserStore._email_key (email u))
    by (unfold CachedUserStore._email_key; now rewrite He).
  assert (Kd : CachedUserStore._duplicate_key e = CachedUserStore._duplicate_key (email u))
    by (unfold CachedUserStore._duplicate_key; now rewrite He).
  assert (S1 : OrderedDict.getitem (PyStr.lower e) (OrderedDict.delitem le us) = None).
  { rewrite He. apply contains_getitem, delitem_removes. now apply wf_setitem. }
  assert (S2 : OrderedDict.getitem (user_id u) (OrderedDict.delitem (user_id u) ids) = None).
  { apply contains_getitem, delitem_removes. now apply wf_setitem. }
  split; [|split].
  - unfold CachedUserStore.get_user_by_email. rewrite Ke.
    pose proof (get_absent (CachedUserStore.cache s2) _ tg N1) as Hg.
    destruct (LRUCache.get (CachedUserStore.cache s2) _ tg) as [cached c1].
    simpl in Hg. subst cached. rewrite Hst2.
    unfold store_get_user_by_email, InMemoryUserStore.queries,
      InMemoryUserStore.get_user_by_email, st2.
    cbn [InMemoryUserStore.users]. now rewrite S1.
  - unfold CachedUserStore.get_user_by_id.
    pose proof (get_absent (CachedUserStore.cache s2) _ tg N2) as Hg.
    destruct (LRUCache.get (CachedUserStore.cache s2) _ tg) as [cached c1].
    simpl in Hg. subst cached. rewrite Hst2.
    unfold store_get_user_by_id, InMemoryUserStore.queries,
      InMemoryUserStore.get_user_by_id, st2.
    cbn [InMemoryUserStore.users_by_id]. now rewrite S2.
  - unfold CachedUserStore.check_duplicate. rewrite Kd.
    pose proof (get_absent (CachedUserStore.cache s2) _ tg N3) as Hg.
    destruct (LRUCache.get (CachedUserStore.cache s2) _ tg) as [cached c1].
    simpl in Hg. subst cached. rewrite Hst2. cbn [fst].
    unfold store_check_duplicate, InMemoryUserStore.queries,
      InMemoryUserStore.check_duplicate, st2.
    cbn [InMemoryUserStore.users]. apply contains_getitem in S1. now rewrite S1.
Qed.

Lemma delete_then_lookup_misses_witness :
  let s1 := snd (CachedUserStore.save_user empty_cached_store user1 0%Q 0%Q 0%Q) in
  let r := CachedUserStore.delete_user s1 "User1@Example.com" in
  fst r = Returns true /\
  fst (CachedUserStore.get_user_by_email (snd r) "user1@example.com" 1%Q 1%Q 1%Q) = None.
Proof.
  intros s1 r.
  destruct (delete_then_lookup_misses empty_cached_store user1 0%Q 0%Q 0%Q
              "user1@example.com" 1%Q 1%Q 1%Q
              ltac:(constructor) ltac:(constructor) ltac:(constructor)
              ltac:(reflexivity)) as (H1 & H2 & _).
  split; [exact H1 | exact H2].
Defined.


(** * Invariants kept by the wrapper *)

Section WrapperInvariant.
Context {S : Type} {queries : UserStoreQueries S}.
Implicit Types (s : CachedUserStore.t S) (c : LRUCache.t CacheValue).

Lemma invariant_get c key now :
  LRUCache.invariant c -> LRUCache.invariant (snd (LRUCache.get c key now)).
Proof. exact (invariant_step c (LRUCache.OpGet key now)). Qed.

Lemma invariant_set c key v ttl now :
  LRUCache.invariant c -> LRUCache.invariant (LRUCache.set c key v ttl now).
Proof. exact (invariant_step c (LRUCache.OpSet key v ttl now)). Qed.

Lemma hits_set c key v ttl now :
  LRUCache.hits (LRUCache.set c key v ttl now) = LRUCache.hits c.
Proof. unfold LRUCache.set. destruct (_ >? _); reflexivity. Qed.

Lemma misses_set c key v ttl now :
  LRUCache.misses (LRUCache.set c key v ttl now) = LRUCache.misses c.
Proof. unfold LRUCache.set. destruct (_ >? _); reflexivity. Qed.

Lemma warm_emails_keeps (P : LRUCache.t CacheValue -> Prop) st emails clock :
  (forall c key v ttl now, P c -> P (LRUCache.set c key v ttl now)) ->
  forall c i, P c -> P (fst (CachedUserStore.warm_emails st c emails clock i)).
Proof.
  intros HP. induction emails as [|e emails IH]; intros c i Hc; simpl; [exact Hc|].
  destruct (store_get_user_by_email st e) as [u|]; apply IH; auto.
Qed.

Lemma warm_ids_keeps (P : LRUCache.t CacheValue -> Prop) st ids clock :
  (forall c key v ttl now, P c -> P (LRUCache.set c key v ttl now)) ->
  forall c i, P c -> P (fst (CachedUserStore.warm_ids st c ids clock i)).
Proof.
  intros HP. induction ids as [|x ids IH]; intros c i Hc; simpl; [exact Hc|].
  destruct (store_get_user_by_id st x) as [u|]; apply IH; auto.
Qed.

Lemma warm_cache_keeps (P : LRUCache.t CacheValue -> Prop) s emails ids clock :
  (forall c key v ttl now, P c -> P (LRUCache.set c key v ttl now)) ->
  P (CachedUserStore.cache s) ->
  P (CachedUserStore.cache (CachedUserStore.warm_cache s emails ids clock)).
Proof.
  intros HP Hc. unfold CachedUserStore.warm_cache.
  pose proof (warm_emails_keeps P (CachedUserStore.user_store s)
                (match emails with Some l => l | None => [] end) clock HP
                (CachedUserStore.cache s) 0%nat Hc) as H1.
  destruct (CachedUserStore.warm_emails _ _ _ _ _) as [c1 i]. simpl in H1.
  pose proof (warm_ids_keeps P (CachedUserStore.user_store s)
                (match ids with Some l => l | None => [] end) clock HP c1 i H1) as H2.
  destruct (CachedUserStore.warm_ids _ _ _ _ _) as [c2 j]. exact H2.
Qed.

Lemma warm_emails_app st (l1 l2 : list string) clock c i :
  CachedUserStore.warm_emails st c (l1 ++ l2) clock i =
  CachedUserStore.warm_emails st
    (fst (CachedUserStore.warm_emails st c l1 clock i)) l2 clock
    (snd (CachedUserStore.warm_emails st c l1 clock i)).
Proof.
  revert c i. induction l1 as [|e l1 IH]; intros c i; simpl; [reflexivity|].
  destruct (store_get_user_by_email st e) as [u|]; apply IH.
Qed.

End WrapperInvariant.

(** X21. Every operation of the wrapper keeps the cache well formed: keys
    stay unique and the number of entries stays within a positive
    [max_size]. *)
Theorem wrapper_keeps_invariant {S : Type} {store : UserStore S}
        {queries : UserStoreQueries S} (s : CachedUserStore.t S)
        (e uid pattern : string) (u : User) (emails ids : option (list string))
        (ta tb tc : Q) (clock : nat -> Q) :
  LRUCache.invariant (CachedUserStore.cache s) ->
  let inv (x : CachedUserStore.t S) := LRUCache.invariant (CachedUserStore.cache x) in
  inv (snd (CachedUserStore.check_duplicate s e ta tb)) /\
  inv (snd (CachedUserStore.save_user s u ta tb tc)) /\
  inv (snd (CachedUserStore.get_user_by_email s e ta tb tc)) /\
  inv (snd (CachedUserStore.get_user_by_id s uid ta tb tc)) /\
  inv (snd (CachedUserStore.delete_user s e)) /\
  inv (CachedUserStore._invalidate_user_cache s e uid) /\
  inv (CachedUserStore.invalidate_pattern s pattern) /\
  inv (CachedUserStore.warm_cache s emails ids clock) /\
  inv (CachedUserStore.clear_all s) /\
  inv (snd (CachedUserStore.cleanup_expired_cache s clock)).
Proof.
  intros Hinv inv. subst inv. cbv beta.
  split.
  { unfold CachedUserStore.check_duplicate.
    pose proof (invariant_get _ (CachedUserStore._duplicate_key e) ta Hinv) as Hg.
    destruct (LRUCache.get _ _ _) as [[v|] c1]; simpl in *; [exact Hg|].
    now apply invariant_set. }
  split; [now apply save_user_invariant|].
  split.
  { unfold CachedUserStore.get_user_by_email.
    pose proof (invariant_get _ (CachedUserStore._email_key e) ta Hinv) as Hg.
    destruct (LRUCache.get _ _ _) as [[v|] c1]; simpl in *; [exact Hg|].
    destruct (store_get_user_by_email _ _) as [x|]; simpl; [|exact Hg].
    now do 2 apply invariant_set. }
  split.
  { unfold CachedUserStore.get_user_by_id.
    pose proof (invariant_get _ (CachedUserStore._id_key uid) ta Hinv) as Hg.
    destruct (LRUCache.get _ _ _) as [[v|] c1]; simpl in *; [exact Hg|].
    destruct (store_get_user_by_id _ _) as [x|]; simpl; [|exact Hg].
    now do 2 apply invariant_set. }
  split.
  { unfold CachedUserStore.delete_user.
    destruct (store_delete_user _ _) as [[[|]|exn] st];
      [destruct (store_get_user_by_email _ _) as [x|]| |]; cbn [snd]; try exact Hinv.
    unfold CachedUserStore._invalidate_user_cache. cbn [CachedUserStore.cache].
    now apply (invariant_with_fold_delitem (CachedUserStore.cache s)). }
  split.
  { unfold CachedUserStore._invalidate_user_cache. cbn [CachedUserStore.cache].
    now apply (invariant_with_fold_delitem (CachedUserStore.cache s)). }
  split.
  { unfold CachedUserStore.invalidate_pattern. cbn [CachedUserStore.cache].
    now apply (invariant_with_fold_delitem (CachedUserStore.cache s)). }
  split.
  { apply (warm_cache_keeps LRUCache.invariant); [|exact Hinv].
    intros c key v ttl now. apply invariant_set. }
  split.
  { destruct Hinv as (_ & Hm & _). unfold CachedUserStore.clear_all.
    cbn [CachedUserStore.cache]. unfold LRUCache.invariant, LRUCache.size. simpl.
    split; [constructor | lia]. }
  unfold CachedUserStore.cleanup_expired_cache.
  pose proof (invariant_step _ (LRUCache.OpCleanupExpired clock) Hinv) as Hc.
  change (LRUCache.invariant
            (snd (LRUCache.cleanup_expired (CachedUserStore.cache s) clock))) in Hc.
  destruct (LRUCache.cleanup_expired _ _) as [n c]. exact Hc.
Qed.

Lemma wrapper_keeps_invariant_witness :
  LRUCache.size
    (CachedUserStore.cache
       (snd (CachedUserStore.save_user
               (CachedUserStore.init InMemoryUserStore.init 2 300) user1 0%Q 0%Q 0%Q)))
  <= 2.
Proof.
  assert (Hinv : LRUCache.invariant
                   (CachedUserStore.cache
                      (CachedUserStore.init InMemoryUserStore.init 2 300))).
  { split; [constructor | unfold LRUCache.size; simpl; lia]. }
  destruct (wrapper_keeps_invariant (store := InMemoryUserStore.store)
              (queries := InMemoryUserStore.queries)
              (CachedUserStore.init InMemoryUserStore.init 2 300)
              "e" "i" "p" user1 None None 0%Q 0%Q 0%Q (fun _ => 0%Q) Hinv)
    as (_ & (_ & _ & H) & _).
  exact H.
Defined.

(** X22. [warm_cache] reads the store but never changes it, counts neither
    hits nor misses, and keeps the capacity and default ttl.  When the last
    email warmed is in the store (and no ids are warmed), a cache with room
    for two entries ends up with both the email key and the id key of that
    record bound to it. *)
Theorem warm_cache_effect {S : Type} {queries : UserStoreQueries S}
        (s : CachedUserStore.t S) (emails ids : option (list string)) (clock : nat -> Q) :
  let s' := CachedUserStore.warm_cache s emails ids clock in
  CachedUserStore.user_store s' = CachedUserStore.user_store s /\
  LRUCache.hits (CachedUserStore.cache s') = LRUCache.hits (CachedUserStore.cache s) /\
  LRUCache.misses (CachedUserStore.cache s') = LRUCache.misses (CachedUserStore.cache s) /\
  LRUCache.max_size (CachedUserStore.cache s') = LRUCache.max_size (CachedUserStore.cache s) /\
  LRUCache.default_ttl (CachedUserStore.cache s') =
    LRUCache.default_ttl (CachedUserStore.cache s) /\
  (forall l e u,
     emails = Some (l ++ [e]) -> ids = None ->
     store_get_user_by_email (CachedUserStore.user_store s) e = Some u ->
     2 <= LRUCache.max_size (CachedUserStore.cache s) ->
     OrderedDict.wf (LRUCache.cache (CachedUserStore.cache s)) ->
     exists i,
       OrderedDict.getitem (CachedUserStore._email_key e)
         (LRUCache.cache (CachedUserStore.cache s')) =
         Some (CacheEntry_init (VUser u) (LRUCache.default_ttl (CachedUserStore.cache s))
                               (clock i)) /\
       OrderedDict.getitem (CachedUserStore._id_key (user_id u))
         (LRUCache.cache (CachedUserStore.cache s')) =
         Some (CacheEntry_init (VUser u) (LRUCache.default_ttl (CachedUserStore.cache s))
                               (clock (Datatypes.S i)))).
Proof.
  intros s'. subst s'.
  split.
  { unfold CachedUserStore.warm_cache.
    destruct (CachedUserStore.warm_emails _ _ _ _ _) as [c1 i].
    destruct (CachedUserStore.warm_ids _ _ _ _ _) as [c2 j]. reflexivity. }
  split.
  { apply (warm_cache_keeps
             (fun c => LRUCache.hits c = LRUCache.hits (CachedUserStore.cache s)));
      [|reflexivity].
    intros c key v ttl now H. now rewrite hits_set. }
  split.
  { apply (warm_cache_keeps
             (fun c => LRUCache.misses c = LRUCache.misses (CachedUserStore.cache s)));
      [|reflexivity].
    intros c key v ttl now H. now rewrite misses_set. }
  split.
  { apply (warm_cache_keeps
             (fun c => LRUCache.max_size c = LRUCache.max_size (CachedUserStore.cache s)));
      [|reflexivity].
    intros c key v ttl now H. now rewrite max_size_set. }
  split.
  { apply (warm_cache_keeps
             (fun c => LRUCache.default_ttl c = LRUCache.default_ttl (CachedUserStore.cache s)));
      [|reflexivity].
    intros c key v ttl now H. now rewrite default_ttl_set. }
  intros l e u -> -> Hu Hm Hwf. unfold CachedUserStore.warm_cache.
  rewrite warm_emails_app.
  set (P := fun c : LRUCache.t CacheValue =>
              OrderedDict.wf (LRUCache.cache c) /\
              LRUCache.max_size c = LRUCache.max_size (CachedUserStore.cache s) /\
              LRUCache.default_ttl c = LRUCache.default_ttl (CachedUserStore.cache s)).
  assert (Hstep : forall c key v ttl now, P c -> P (LRUCache.set c key v ttl now)).
  { intros c key v ttl now (H1 & H2 & H3). unfold P.
    rewrite max_size_set, default_ttl_set. auto using wf_set. }
  assert (HP0 : P (CachedUserStore.cache s)) by (unfold P; auto).
  pose proof (warm_emails_keeps P (CachedUserStore.user_store s) l clock Hstep
                (CachedUserStore.cache s) 0%nat HP0) as Hk.
  unfold P in Hk. clear P Hstep HP0.
  destruct (CachedUserStore.warm_emails (CachedUserStore.user_store s)
              (CachedUserStore.cache s) l clock 0) as [c1 i].
  cbn [fst snd] in *. destruct Hk as (W1 & M1 & T1).
  simpl. rewrite Hu. simpl. exists i.
  destruct (populate_two c1 (CachedUserStore._email_key e)
              (CachedUserStore._id_key (user_id u)) (VUser u) (VUser u) None None
              (clock i) (clock (Datatypes.S i)) ltac:(lia) W1 ltac:(discriminate))
    as [G1 G2].
  unfold LRUCache.effective_ttl in G1, G2. rewrite T1 in G1, G2. now split.
Qed.

Lemma warm_cache_effect_witness :
  let s := CachedUserStore.mk
             (snd (InMemoryUserStore.save_user InMemoryUserStore.init user1))
             (LRUCache.init 1000 300) in
  exists i,
    OrderedDict.getitem "email:user1@example.com"
      (LRUCache.cache
         (CachedUserStore.cache
            (CachedUserStore.warm_cache s (Some ["nobody@example.com"; "user1@example.com"])
                                        None (fun n => inject_Z (Z.of_nat n))))) =
    Some (CacheEntry_init (VUser user1) 300 (inject_Z (Z.of_nat i))).
Proof.
  intros s.
  destruct (warm_cache_effect s (Some ["nobody@example.com"; "user1@example.com"]) None
              (fun n => inject_Z (Z.of_nat n))) as (_ & _ & _ & _ & _ & H).
  destruct (H ["nobody@example.com"] "user1@example.com" user1
              ltac:(reflexivity) ltac:(reflexivity) ltac:(reflexivity)
              ltac:(simpl; lia) ltac:(constructor)) as (i & H1 & _).
  exists i. exact H1.
Defined.


(** * What a re-save leaves behind *)

Section NoEviction.
Context {V : Type}.
Implicit Types (c : LRUCache.t V) (key k : string).

Lemma getitem_upsert_other c key v ttl now k :
  k <> key ->
  OrderedDict.getitem k (LRUCache.upsert c key v ttl now) =
  OrderedDict.getitem k (LRUCache.cache c).
Proof.
  intros Hne. unfold LRUCache.upsert. rewrite getitem_setitem_other by exact Hne.
  destruct (OrderedDict.contains key (LRUCache.cache c)); [|reflexivity].
  now apply getitem_delitem_other.
Qed.

Lemma length_upsert_le c key v ttl now :
  (List.length (LRUCache.upsert c key v ttl now) <= List.length (LRUCache.cache c) + 1)%nat.
Proof.
  destruct (OrderedDict.contains key (LRUCache.cache c)) eqn:C.
  - pose proof (length_upsert_present c key v ttl now C). lia.
  - rewrite upsert_absent by exact C. rewrite length_app. simpl. lia.
Qed.

(** With a free slot, [set] evicts nothing: other bindings stay. *)
Lemma set_no_eviction c key v ttl now :
  LRUCache.size c + 1 <= LRUCache.max_size c ->
  LRUCache.size (LRUCache.set c key v ttl now) <= LRUCache.size c + 1 /\
  forall k, k <> key ->
    OrderedDict.getitem k (LRUCache.cache (LRUCache.set c key v ttl now)) =
    OrderedDict.getitem k (LRUCache.cache c).
Proof.
  intros Hroom. pose proof (length_upsert_le c key v ttl now) as Hl.
  unfold LRUCache.set, LRUCache.size in *.
  replace (_ >? _) with false
    by (symmetry; rewrite Z.gtb_ltb; apply Z.ltb_ge; lia).
  simpl. split; [lia|]. intros k Hk. now apply getitem_upsert_other.
Qed.

Lemma three_sets_no_eviction c k1 k2 k3 (v1 v2 v3 : V) (t1 t2 t3 : Q) :
  LRUCache.size c + 3 <= LRUCache.max_size c ->
  let c3 := LRUCache.set (LRUCache.set (LRUCache.set c k1 v1 None t1) k2 v2 None t2)
                         k3 v3 None t3 in
  LRUCache.size c3 <= LRUCache.size c + 3 /\
  forall k, k <> k1 -> k <> k2 -> k <> k3 ->
    OrderedDict.getitem k (LRUCache.cache c3) = OrderedDict.getitem k (LRUCache.cache c).
Proof.
  intros Hroom c3. subst c3.
  set (c1 := LRUCache.set c k1 v1 None t1).
  set (c2 := LRUCache.set c1 k2 v2 None t2).
  assert (M1 : LRUCache.max_size c1 = LRUCache.max_size c) by apply max_size_set.
  assert (M2 : LRUCache.max_size c2 = LRUCache.max_size c)
    by (unfold c2; now rewrite max_size_set).
  destruct (set_no_eviction c k1 v1 None t1 ltac:(lia)) as [S1 G1]. fold c1 in S1, G1.
  destruct (set_no_eviction c1 k2 v2 None t2 ltac:(lia)) as [S2 G2]. fold c2 in S2, G2.
  destruct (set_no_eviction c2 k3 v3 None t3 ltac:(lia)) as [S3 G3].
  split; [lia|]. intros k N1 N2 N3. now rewrite G3, G2, G1.
Qed.

End NoEviction.

Section SaveCache.
Context {S : Type} {store : UserStore S}.

Lemma save_user_success_cache (s : CachedUserStore.t S) u t1 t2 t3 :
  fst (store_save_user (CachedUserStore.user_store s) u) = true ->
  CachedUserStore.cache (snd (CachedUserStore.save_user s u t1 t2 t3)) =
  LRUCache.set
    (LRUCache.set
       (LRUCache.set
          (LRUCache.with_cache (CachedUserStore.cache s)
             (OrderedDict.pop (CachedUserStore._duplicate_key (PyStr.lower (email u)))
                (OrderedDict.pop (CachedUserStore._id_key (user_id u))
                   (OrderedDict.pop (CachedUserStore._email_key (PyStr.lower (email u)))
                      (LRUCache.cache (CachedUserStore.cache s))))))
          (CachedUserStore._email_key (PyStr.lower (email u))) (VUser u) None t1)
       (CachedUserStore._id_key (user_id u)) (VUser u) None t2)
    (CachedUserStore._duplicate_key (PyStr.lower (email u))) (VBool true) None t3.
Proof.
  unfold CachedUserStore.save_user.
  destruct (store_save_user (CachedUserStore.user_store s) u) as [success st].
  simpl. intros ->. reflexivity.
Qed.

End SaveCache.

(** X23. [save_user] invalidates the id key of the record being saved, not of
    the record it replaces.  When an email already saved under one [user_id]
    is saved again under another (both saves succeeding, the cache having six
    free slots), the email key answers with the new record while the old id
    key is still bound to the old record, so that [get_user_by_id] of the old
    id, while that entry is live, returns the replaced record from the cache
    whatever the store holds. *)
Theorem resave_leaves_old_id_cached {S : Type} {store : UserStore S}
        {queries : UserStoreQueries S}
        (s : CachedUserStore.t S) (u1 u2 : User) (t1 t2 t3 t4 t5 t6 : Q)
        (st' : S) (tg ta tb : Q) :
  OrderedDict.wf (LRUCache.cache (CachedUserStore.cache s)) ->
  LRUCache.size (CachedUserStore.cache s) + 6 <= LRUCache.max_size (CachedUserStore.cache s) ->
  PyStr.lower (email u1) = PyStr.lower (email u2) ->
  user_id u1 <> user_id u2 ->
  fst (store_save_user (CachedUserStore.user_store s) u1) = true ->
  let s1 := snd (CachedUserStore.save_user s u1 t1 t2 t3) in
  fst (store_save_user (CachedUserStore.user_store s1) u2) = true ->
  let s2 := snd (CachedUserStore.save_user s1 u2 t4 t5 t6) in
  let dttl := LRUCache.default_ttl (CachedUserStore.cache s) in
  let d2 := LRUCache.cache (CachedUserStore.cache s2) in
  OrderedDict.getitem (CachedUserStore._email_key (email u1)) d2 =
    Some (CacheEntry_init (VUser u2) dttl t4) /\
  OrderedDict.getitem (CachedUserStore._id_key (user_id u1)) d2 =
    Some (CacheEntry_init (VUser u1) dttl t2) /\
  (dttl <= 0 \/ (tg <= t2 + inject_Z dttl)%Q ->
   fst (CachedUserStore.get_user_by_id
          (CachedUserStore.mk st' (CachedUserStore.cache s2)) (user_id u1) tg ta tb)
   = Some (VUser u1)).
Proof.
  intros Hwf Hroom He Hid Hok1 s1 Hok2 s2 dttl d2.
  set (le := PyStr.lower (email u1)) in *.
  assert (Hle2 : PyStr.lower (email u2) = le) by (now rewrite <- He).
  set (ek := CachedUserStore._email_key le).
  set (dk := CachedUserStore._duplicate_key le).
  set (i1 := CachedUserStore._id_key (user_id u1)).
  set (i2 := CachedUserStore._id_key (user_id u2)).
  assert (Ni : i1 <> i2) by (unfold i1, i2, CachedUserStore._id_key; intros H; now inversion H).
  set (c0 := CachedUserStore.cache s) in *.
  assert (Hs0 : 0 <= LRUCache.size c0) by (unfold LRUCache.size; lia).
  set (A := LRUCache.with_cache c0
              (OrderedDict.pop dk (OrderedDict.pop i1 (OrderedDict.pop ek (LRUCache.cache c0))))).
  assert (EA : LRUCache.cache A =
               OrderedDict.delitem dk (OrderedDict.delitem i1
                 (OrderedDict.delitem ek (LRUCache.cache c0)))) by reflexivity.
  assert (WA : OrderedDict.wf (LRUCache.cache A))
    by (rewrite EA; now do 3 apply wf_delitem).
  assert (SA : LRUCache.size A <= LRUCache.size c0).
  { unfold LRUCache.size. rewrite EA.
    pose proof (length_fold_delitem [ek; i1; dk] (LRUCache.cache c0)) as H.
    cbn [fold_left] in H. lia. }
  set (c1 := LRUCache.set (LRUCache.set (LRUCache.set A ek (VUser u1) None t1)
                                        i1 (VUser u1) None t2) dk (VBool true) None t3).
  assert (E1 : CachedUserStore.cache s1 = c1).
  { unfold s1. rewrite (save_user_success_cache s u1 t1 t2 t3 Hok1). reflexivity. }
  assert (W1 : OrderedDict.wf (LRUCache.cache c1)) by (unfold c1; now do 3 apply wf_set).
  assert (M1 : LRUCache.max_size c1 = LRUCache.max_size c0)
    by (unfold c1; now rewrite !max_size_set).
  assert (T1 : LRUCache.default_ttl c1 = dttl)
    by (unfold c1; now rewrite !default_ttl_set).
  destruct (populate_three A ek i1 dk (VUser u1) (VUser u1) (VBool true) t1 t2 t3)
    as (_ & B1 & _); try discriminate;
    [unfold A, LRUCache.with_cache; cbn [LRUCache.max_size]; lia | exact WA |].
  fold c1 in B1. change (LRUCache.default_ttl A) with dttl in B1.
  destruct (three_sets_no_eviction A ek i1 dk (VUser u1) (VUser u1) (VBool true) t1 t2 t3)
    as [S1 _]; [change (LRUCache.max_size A) with (LRUCache.max_size c0); lia|].
  fold c1 in S1.
  set (B := LRUCache.with_cache c1
              (OrderedDict.pop dk (OrderedDict.pop i2 (OrderedDict.pop ek (LRUCache.cache c1))))).
  assert (EB : LRUCache.cache B =
               OrderedDict.delitem dk (OrderedDict.delitem i2
                 (OrderedDict.delitem ek (LRUCache.cache c1)))) by reflexivity.
  assert (WB : OrderedDict.wf (LRUCache.cache B))
    by (rewrite EB; now do 3 apply wf_delitem).
  assert (SB : LRUCache.size B <= LRUCache.size c1).
  { unfold LRUCache.size. rewrite EB.
    pose proof (length_fold_delitem [ek; i2; dk] (LRUCache.cache c1)) as H.
    cbn [fold_left] in H. lia. }
  assert (GB : OrderedDict.getitem i1 (LRUCache.cache B) =
               Some (CacheEntry_init (VUser u1) dttl t2)).
  { rewrite EB.
    rewrite !getitem_delitem_other; [exact B1 | discriminate | exact Ni | discriminate]. }
  set (c2 := LRUCache.set (LRUCache.set (LRUCache.set B ek (VUser u2) None t4)
                                        i2 (VUser u2) None t5) dk (VBool true) None t6).
  assert (E2 : CachedUserStore.cache s2 = c2).
  { unfold s2. rewrite (save_user_success_cache s1 u2 t4 t5 t6 Hok2).
    rewrite Hle2, E1. reflexivity. }
  destruct (populate_three B ek i2 dk (VUser u2) (VUser u2) (VBool true) t4 t5 t6)
    as (B2 & _ & _); try discriminate;
    [change (LRUCache.max_size B) with (LRUCache.max_size c1); lia | exact WB |].
  fold c2 in B2. change (LRUCache.default_ttl B) with (LRUCache.default_ttl c1) in B2.
  rewrite T1 in B2.
  destruct (three_sets_no_eviction B ek i2 dk (VUser u2) (VUser u2) (VBool true) t4 t5 t6)
    as [_ G2]; [change (LRUCache.max_size B) with (LRUCache.max_size c1); lia|].
  fold c2 in G2.
  assert (G : OrderedDict.getitem i1 (LRUCache.cache c2) =
              Some (CacheEntry_init (VUser u1) dttl t2)).
  { rewrite G2; [exact GB | discriminate | exact Ni | discriminate]. }
  subst d2. rewrite E2.
  replace (CachedUserStore._email_key (email u1)) with ek
    by (unfold ek, le; apply email_key_lower).
  split; [exact B2|]. split; [exact G|].
  intros Hlive. apply get_user_by_id_hit. cbn [CachedUserStore.cache].
  apply get_Some_iff. eexists. split; [exact G|].
  split; [now apply live_entry | reflexivity].
Qed.

Lemma resave_leaves_old_id_cached_witness :
  let s1 := snd (CachedUserStore.save_user empty_cached_store user1 0%Q 0%Q 0%Q) in
  let s2 := snd (CachedUserStore.save_user s1
                   (mkUser "user1@example.com" "id-new" []) 1%Q 1%Q 1%Q) in
  fst (CachedUserStore.get_user_by_id s2 "id1" 2%Q 2%Q 2%Q) = Some (VUser user1).
Proof.
  intros s1 s2.
  destruct (resave_leaves_old_id_cached (store := InMemoryUserStore.store)
              (queries := InMemoryUserStore.queries)
              empty_cached_store user1 (mkUser "user1@example.com" "id-new" [])
              0%Q 0%Q 0%Q 1%Q 1%Q 1%Q (CachedUserStore.user_store s2) 2%Q 2%Q 2%Q
              ltac:(constructor) ltac:(unfold LRUCache.size; simpl; lia)
              ltac:(reflexivity) ltac:(discriminate) ltac:(reflexivity)
              ltac:(reflexivity)) as (_ & _ & H).
  apply H. right. unfold Qle. simpl. lia.
Defined.
